(** * Rancher Desktop build helpers: dependency downloader and moproxy init script

    A shallow embedding of

    - [scripts/download/tools.ts], the script that fetches the third-party
      binaries bundled with the application, and
    - the OpenRC init script of [moproxy], which installs and removes the
      [iptables] redirection rules,

    together with the properties their specification states about them. *)

From Stdlib Require Import String Ascii DecimalString List Arith Lia.
From stdpp Require Import gmap strings list fin_maps.
From Equations Require Import Equations.
From Equations.Prop Require Import Logic.

Open Scope string_scope.
Open Scope list_scope.

(** ** JavaScript strings

    A JavaScript string is a sequence of UTF-16 code units.  The embedding
    uses [string]; each [ascii] stands for one code unit below 256, which
    covers every literal of the script and the checksum manifests it reads. *)

Module JS.

(** [s.startsWith(p)] *)
Definition startsWith (s p : string) : bool := String.prefix p s.

(** [s.includes(sub)]: [sub] occurs in [s] at some offset. *)
Fixpoint includes (s sub : string) : bool :=
  String.prefix sub s ||
  match s with
  | "" => false
  | String _ rest => includes rest sub
  end.

(** The character class [\s] restricted to code units below 256:
    TAB, LF, VT, FF, CR, SPACE and NBSP. *)
Definition isSpace (c : ascii) : bool :=
  let n := nat_of_ascii c in
  (9 <=? n)%nat && (n <=? 13)%nat || (n =? 32)%nat || (n =? 160)%nat.

Definition snoc (s : string) (c : ascii) : string := s +:+ String c "".

(** [s.split(/\r?\n/)].  At each offset the pattern matches either the
    pair CR LF or a lone LF; a CR that is not followed by LF stays in the
    piece.  [cur] is the piece under construction. *)
Fixpoint splitLinesFrom (cur s : string) : list string :=
  match s with
  | "" => [cur]
  | String c rest =>
      if Ascii.eqb c "010" then cur :: splitLinesFrom "" rest
      else if Ascii.eqb c "013" then
        match rest with
        | String c' rest' =>
            if Ascii.eqb c' "010" then cur :: splitLinesFrom "" rest'
            else splitLinesFrom (snoc cur c) rest
        | "" => splitLinesFrom (snoc cur c) rest
        end
      else splitLinesFrom (snoc cur c) rest
  end.

Definition splitLines (s : string) : list string := splitLinesFrom "" s.

(** [s.split(/\s+/)].  A maximal run of white space is one separator;
    [inSep] records that the previous code unit belonged to a separator. *)
Fixpoint splitSpacesFrom (inSep : bool) (cur s : string) : list string :=
  match s with
  | "" => [cur]
  | String c rest =>
      if isSpace c then
        if inSep then splitSpacesFrom true cur rest
        else cur :: splitSpacesFrom true "" rest
      else splitSpacesFrom false (snoc cur c) rest
  end.

Definition splitSpaces (s : string) : list string := splitSpacesFrom false "" s.

(** [s.split(/\s+/, limit)] keeps the first [limit] pieces. *)
Definition splitSpacesLimit (s : string) (limit : nat) : list string :=
  take limit (splitSpaces s).

(** [a[0]] on an array of strings; an empty array yields [undefined],
    which interpolates as that word. *)
Definition item0 (a : list string) : string :=
  match a with
  | x :: _ => x
  | [] => "undefined"
  end.

(** [`${ n }`] for a non-negative integer. *)
Definition showNat (n : nat) : string := NilEmpty.string_of_uint (Nat.to_uint n).

(** [`${ a }`] for an array of strings, that is [a.join(",")]. *)
Definition showArray (a : list string) : string := String.concat "," a.

(** Truthiness of a string, and of [process.env.X]: set and not empty. *)
Definition nonEmpty (s : string) : bool := negb (String.eqb s "").

Definition truthy (v : option string) : bool :=
  match v with
  | Some s => nonEmpty s
  | None => false
  end.

(** The value of [process.env.X] once it is known to be truthy. *)
Definition value (v : option string) : string := default "" v.

(** [s.trim()] removes white space and line terminators on both sides. *)
Fixpoint trimStart (s : string) : string :=
  match s with
  | String c rest => if isSpace c then trimStart rest else s
  | "" => ""
  end.

Fixpoint trimEnd (s : string) : string :=
  match s with
  | String c rest =>
      match trimEnd rest with
      | "" => if isSpace c then "" else String c ""
      | t => String c t
      end
  | "" => ""
  end.

Definition trim (s : string) : string := trimEnd (trimStart s).

(** [s.replace(/^v/, '')] *)
Definition dropLeadingV (s : string) : string :=
  match s with
  | String "v" rest => rest
  | _ => s
  end.

End JS.

(** ** Results, the file system and the host

    A rejected promise or a thrown [Error] is [Err] with its message; file
    system failures carry the error code of Node.js as their message. *)

Inductive result (A : Type) : Type :=
| Ok (a : A)
| Err (msg : string).
Arguments Ok {A} a.
Arguments Err {A} msg.

Definition isOk {A} (r : result A) : bool :=
  match r with Ok _ => true | Err _ => false end.

(** Directory entries, keyed by path.  [lstat], [readlink] and [rm] act on
    the entry itself and never follow a link; [symlink] looks for the
    directory that is to hold the new entry, and [existsSync] for what the
    path leads to, and both follow links on the way. *)
Inductive Node :=
| File (content : string)
| Dir
| Symlink (target : string).

(** [DownloadOptions] of [../lib/download], with the fields this script sets. *)
Record DownloadOptions := {
  expectedChecksum : option string;
  checksumAlgorithm : option string;
  entryName : option string;
  access : option nat
}.

Definition noOptions : DownloadOptions :=
  {| expectedChecksum := None; checksumAlgorithm := None;
     entryName := None; access := None |}.

(** The three entry points of [../lib/download] that write a file. *)
Inductive Downloader := download | downloadZip | downloadTarGZ.

(** What the script asks of the outside world, in the order it asks. *)
Inductive Event :=
| EvGetResource (url : string)
| EvDownload (via : Downloader) (url dest : string) (options : DownloadOptions)
| EvCopyFile (src dest : string)
| EvRm (path : string)
| EvSymlink (target path : string)
| EvMkdir (path : string)
| EvSpawn (command : string) (args : list string) (cwd : string)
| EvLog (message : string).

Record World := {
  fs : gmap string Node;
  trace : list Event
}.

(** The host the script runs on.  [os], [process] and [path] are given by
    their values; [path_dirname] and [path_resolve] are what the host takes
    for the directory of a path and for the path a link target stands for
    in a directory, and [os_symloop_max] is the number of links it follows
    before it gives up.  [getResource] and [fetch] stand for the functions
    that [tools.ts] imports from [../lib/download] and are left open:
    [getResource] is the body the network returns for a URL, [fetch] what a
    downloader does to the file system and the path it resolves to.
    [fs_copyFile] and [spawnSync] are the host's file copy and child
    process.  [completions] is the order in which the host completes the
    operations that are in flight at the same time. *)
Record Host := {
  os_platform : string;
  os_homedir : string;
  os_symloop_max : nat;
  process_env : string -> option string;
  process_cwd : string;
  path_join : list string -> string;
  path_dirname : string -> string;
  path_resolve : string -> string -> string;
  fs_access : string -> bool;
  getResource : string -> result string;
  fetch : Downloader -> string -> string -> DownloadOptions ->
          gmap string Node -> result string * gmap string Node;
  fs_copyFile : string -> string -> gmap string Node -> result unit * gmap string Node;
  spawnSync : string -> list string -> string -> gmap string Node -> gmap string Node;
  completions : list (nat * nat)
}.

(** ** The monad of the script: state that survives an exception *)

Definition M (A : Type) : Type := World -> result A * World.

Definition ret {A} (a : A) : M A := fun w => (Ok a, w).

Definition throw {A} (msg : string) : M A := fun w => (Err msg, w).

Definition bind {A B} (m : M A) (k : A -> M B) : M B :=
  fun w =>
    match m w with
    | (Ok a, w') => k a w'
    | (Err e, w') => (Err e, w')
    end.

(** [try { m } catch (_) { h }] *)
Definition tryCatch {A} (m : M A) (h : M A) : M A :=
  fun w =>
    match m w with
    | (Ok a, w') => (Ok a, w')
    | (Err _, w') => h w'
    end.

Notation "'do' x <- m ; k" := (bind m (fun x => k))
  (at level 10, x name, m at level 100, k at level 200).
Notation "m ;; k" := (bind m (fun _ => k))
  (at level 100, k at level 200, right associativity).

Definition logged (w : World) (e : Event) : World :=
  {| fs := fs w; trace := trace w ++ [e] |}.

Definition emit (e : Event) : M unit :=
  fun w => (Ok tt, {| fs := fs w; trace := trace w ++ [e] |}).

Definition liftResult {A} (r : result A) : M A := fun w => (r, w).

Definition onFs {A} (f : gmap string Node -> result A * gmap string Node) : M A :=
  fun w => let '(r, m) := f (fs w) in (r, {| fs := m; trace := trace w |}).

Definition consoleLog (message : string) : M unit := emit (EvLog message).

Definition getResourceM (h : Host) (url : string) : M string :=
  emit (EvGetResource url) ;; liftResult (getResource h url).

Definition downloadVia (h : Host) (via : Downloader) (url dest : string)
    (options : DownloadOptions) : M string :=
  emit (EvDownload via url dest options) ;; onFs (fetch h via url dest options).

(** ** [fs] primitives on the entry map *)

Definition enoent : string := "ENOENT".
Definition eexist : string := "EEXIST".
Definition einval : string := "EINVAL".
Definition eisdir : string := "ERR_FS_EISDIR".
Definition enotdir : string := "ENOTDIR".
Definition eloop : string := "ELOOP".

(** What a path leads to when links are followed, as [stat] finds it: the
    target of a link is read in the directory of the link, and after
    [hops] links the host gives up. *)
Fixpoint stat (h : Host) (hops : nat) (m : gmap string Node) (path : string) : result Node :=
  match m !! path with
  | None => Err enoent
  | Some (Symlink target) =>
      match hops with
      | 0 => Err eloop
      | S hops' => stat h hops' m (path_resolve h (path_dirname h path) target)
      end
  | Some n => Ok n
  end.

(** [fs.promises.lstat(path)] *)
Definition lstat (path : string) : M Node :=
  fun w =>
    match fs w !! path with
    | Some n => (Ok n, w)
    | None => (Err enoent, w)
    end.

Definition isSymbolicLink (n : Node) : bool :=
  match n with Symlink _ => true | _ => false end.

(** [fs.promises.readlink(path)] *)
Definition readlink (path : string) : M string :=
  fun w =>
    match fs w !! path with
    | Some (Symlink t) => (Ok t, w)
    | Some _ => (Err einval, w)
    | None => (Err enoent, w)
    end.

(** [fs.promises.rm(path)] and [fs.rmSync(path)] without [recursive] or
    [force]: a directory or a missing entry is refused. *)
Definition rmAt (path : string) (m : gmap string Node) : result unit * gmap string Node :=
  match m !! path with
  | Some Dir => (Err eisdir, m)
  | Some _ => (Ok tt, delete path m)
  | None => (Err enoent, m)
  end.

Definition rm (path : string) : M unit := emit (EvRm path) ;; onFs (rmAt path).

(** What [symlink(target, path)] does to the entries: the directory of
    the path has to be there, links followed, and the path itself free. *)
Definition symlinkAt (h : Host) (target path : string) (m : gmap string Node)
    : result unit * gmap string Node :=
  match stat h (os_symloop_max h) m (path_dirname h path) with
  | Ok Dir =>
      match m !! path with
      | Some _ => (Err eexist, m)
      | None => (Ok tt, <[path := Symlink target]> m)
      end
  | Ok _ => (Err enotdir, m)
  | Err e => (Err e, m)
  end.

(** [fs.promises.symlink(target, path)] *)
Definition symlink (h : Host) (target path : string) : M unit :=
  emit (EvSymlink target path) ;; onFs (symlinkAt h target path).

(** [fs.promises.copyFile(src, dest)], as the host performs it. *)
Definition copyFile (h : Host) (src dest : string) : M unit :=
  emit (EvCopyFile src dest) ;; onFs (fs_copyFile h src dest).

(** [mkdir(path, { recursive: true })]: an existing directory is accepted. *)
Definition mkdirAt (path : string) (m : gmap string Node) : result unit * gmap string Node :=
  match m !! path with
  | Some Dir => (Ok tt, m)
  | Some _ => (Err eexist, m)
  | None => (Ok tt, <[path := Dir]> m)
  end.

Definition mkdirRecursive (path : string) : M unit :=
  emit (EvMkdir path) ;; onFs (mkdirAt path).

(** [fs.existsSync(path)]: whether [stat] finds anything; a link that
    leads nowhere is not there. *)
Definition existsSync (h : Host) (path : string) : M bool :=
  fun w => (Ok (isOk (stat h (os_symloop_max h) (fs w) path)), w).

(** [spawnSync(command, args, { cwd })]; a failing child does not throw. *)
Definition spawn (h : Host) (command : string) (args : list string) (cwd : string) : M unit :=
  emit (EvSpawn command args cwd) ;;
  onFs (fun m => (Ok tt, spawnSync h command args cwd m)).

(** ** Platforms and the download context *)

Inductive DependencyPlatform := dp_wsl | dp_linux | dp_darwin | dp_win32.
Inductive Platform := linux | darwin | win32.
Inductive KubePlatform := kube_linux | kube_darwin | kube_windows.

Definition DependencyPlatform_str (p : DependencyPlatform) : string :=
  match p with
  | dp_wsl => "wsl" | dp_linux => "linux" | dp_darwin => "darwin" | dp_win32 => "win32"
  end.

Definition Platform_str (p : Platform) : string :=
  match p with linux => "linux" | darwin => "darwin" | win32 => "win32" end.

Definition KubePlatform_str (p : KubePlatform) : string :=
  match p with
  | kube_linux => "linux" | kube_darwin => "darwin" | kube_windows => "windows"
  end.

Record DownloadContext := {
  dependencyPlaform : DependencyPlatform;
  platform : Platform;
  kubePlatform : KubePlatform;
  binDir : string;
  internalDir : string
}.

(** The version pins of [./dependencies] that this script reads. *)
Record DependencyVersions := {
  helm : string;
  dockerCLI : string;
  ECRCredenialHelper : string
}.

Definition getKubePlatform (p : Platform) : KubePlatform :=
  match p with
  | darwin => kube_darwin
  | linux => kube_linux
  | win32 => kube_windows
  end.

Definition exeName (context : DownloadContext) (name : string) : string :=
  let onWindows := JS.startsWith (Platform_str (platform context)) "win" in
  name +:+ (if onWindows then ".exe" else "").

(** ** Operations and promises

    A call of a function of the host that returns a promise does two things
    at two times: the call itself is noted at once, and the operation takes
    effect, and yields its result, when the host completes it.  In between
    the caller, if it [await]s the promise, is suspended, and other callers
    run. *)

Record Op (X : Type) : Type := {
  announce : option Event;
  complete : M X
}.
Arguments announce {X} _.
Arguments complete {X} _.

Definition announced (e : option Event) (w : World) : World :=
  match e with
  | Some e => logged w e
  | None => w
  end.

(** The call and the completion with nothing in between. *)
Definition perform {X} (op : Op X) : M X :=
  fun w => complete op (announced (announce op) w).

(** [getResource(url)] *)
Definition getResourceOp (h : Host) (url : string) : Op string :=
  {| announce := Some (EvGetResource url); complete := liftResult (getResource h url) |}.

(** [download(url, dest, options)], [downloadZip] and [downloadTarGZ] *)
Definition downloadOp (h : Host) (via : Downloader) (url dest : string)
    (options : DownloadOptions) : Op string :=
  {| announce := Some (EvDownload via url dest options);
     complete := onFs (fetch h via url dest options) |}.

(** [fs.promises.access(path)] *)
Definition accessOp (h : Host) (path : string) : Op unit :=
  {| announce := None;
     complete := liftResult (if fs_access h path then Ok tt else Err enoent) |}.

Definition lstatOp (path : string) : Op Node :=
  {| announce := None; complete := lstat path |}.

Definition readlinkOp (path : string) : Op string :=
  {| announce := None; complete := readlink path |}.

Definition rmOp (path : string) : Op unit :=
  {| announce := Some (EvRm path); complete := onFs (rmAt path) |}.

Definition symlinkOp (h : Host) (target path : string) : Op unit :=
  {| announce := Some (EvSymlink target path); complete := onFs (symlinkAt h target path) |}.

Definition copyFileOp (h : Host) (src dest : string) : Op unit :=
  {| announce := Some (EvCopyFile src dest); complete := onFs (fs_copyFile h src dest) |}.

Definition mkdirOp (path : string) : Op unit :=
  {| announce := Some (EvMkdir path); complete := onFs (mkdirAt path) |}.

(** The body of an [async] function, or a promise not started yet:
    [Return] settles it; [Sync] is a statement that runs at once; [Await]
    calls the host and waits for the operation; [AwaitAll] waits for the
    [Promise.all] of operations called one after the other.  A continuation
    takes the outcome, so that a rejection can be caught. *)
Inductive Async (A : Type) : Type :=
| Return (r : result A)
| Sync (X : Type) (m : M X) (k : result X -> Async A)
| Await (X : Type) (op : Op X) (k : result X -> Async A)
| AwaitAll (X : Type) (ops : list (Op X)) (k : result (list X) -> Async A).
Arguments Return {A} r.
Arguments Sync {A X} m k.
Arguments Await {A X} op k.
Arguments AwaitAll {A X} ops k.

Definition areturn {A} (a : A) : Async A := Return (Ok a).

Definition athrow {A} (msg : string) : Async A := Return (Err msg).

Definition sync {X} (m : M X) : Async X := Sync m Return.

Definition call {X} (op : Op X) : Async X := Await op Return.

Definition all {X} (ops : list (Op X)) : Async (list X) := AwaitAll ops Return.

(** [const a = await p; f(a)]: a rejection of [p] is the rejection of the
    whole. *)
Fixpoint abind {A B} (p : Async A) (f : A -> Async B) : Async B :=
  match p with
  | Return (Ok a) => f a
  | Return (Err e) => Return (Err e)
  | Sync m k => Sync m (fun r => abind (k r) f)
  | Await op k => Await op (fun r => abind (k r) f)
  | AwaitAll ops k => AwaitAll ops (fun r => abind (k r) f)
  end.

(** [try { p } catch (_) { handler }] *)
Fixpoint atryCatch {A} (p handler : Async A) : Async A :=
  match p with
  | Return (Ok a) => Return (Ok a)
  | Return (Err _) => handler
  | Sync m k => Sync m (fun r => atryCatch (k r) handler)
  | Await op k => Await op (fun r => atryCatch (k r) handler)
  | AwaitAll ops k => AwaitAll ops (fun r => atryCatch (k r) handler)
  end.

Definition avoid {A} (p : Async A) : Async unit := abind p (fun _ => areturn tt).

Declare Scope async_scope.
Delimit Scope async_scope with async.
Notation "'await' x <- p ; k" := (abind p (fun x => k))
  (at level 10, x name, p at level 100, k at level 200) : async_scope.
Notation "'now' x <- m ; k" := (abind (sync m) (fun x => k))
  (at level 10, x name, m at level 100, k at level 200) : async_scope.

(** A promise that has been started: settled, waiting for one operation in
    flight, or waiting for several, some of which may have arrived. *)
Inductive Slot (X : Type) : Type :=
| InFlight (finish : M X)
| Arrived (x : X).
Arguments InFlight {X} finish.
Arguments Arrived {X} x.

Inductive Task (A : Type) : Type :=
| Settled (r : result A)
| Waiting (X : Type) (finish : M X) (k : result X -> Async A)
| WaitingAll (X : Type) (slots : list (Slot X)) (k : result (list X) -> Async A).
Arguments Settled {A} r.
Arguments Waiting {A X} finish k.
Arguments WaitingAll {A X} slots k.

Definition announceAll {X} (ops : list (Op X)) (w : World) : World :=
  fold_left (fun w' op => announced (announce op) w') ops w.

Definition inFlight {X} (ops : list (Op X)) : list (Slot X) :=
  map (fun op => InFlight (complete op)) ops.

(** Run a body up to its next [await]: the statements on the way take
    effect and the operation awaited is called. *)
Fixpoint advance {A} (p : Async A) (w : World) : Task A * World :=
  match p with
  | Return r => (Settled r, w)
  | Sync m k => let '(r, w') := m w in advance (k r) w'
  | Await op k => (Waiting (complete op) k, announced (announce op) w)
  | AwaitAll ops k =>
      match ops with
      | [] => advance (k (Ok [])) w
      | _ :: _ => (WaitingAll (inFlight ops) k, announceAll ops w)
      end
  end.

(** The results of the operations of a [Promise.all], once all are in. *)
Fixpoint arrivals {X} (slots : list (Slot X)) : option (list X) :=
  match slots with
  | [] => Some []
  | Arrived x :: rest => option_map (cons x) (arrivals rest)
  | InFlight _ :: _ => None
  end.

(** The host completes operation [j] of those the task waits for, if it
    is in flight: the task goes on to its next [await].  A task that waits
    for one operation waits for operation [0].  A [Promise.all] of
    operations is rejected by the first that fails and fulfilled by the last
    to arrive. *)
Definition resume {A} (j : nat) (t : Task A) (w : World) : Task A * World :=
  match t with
  | Settled r => (Settled r, w)
  | Waiting finish k =>
      match j with
      | 0 => let '(r, w') := finish w in advance (k r) w'
      | S _ => (t, w)
      end
  | WaitingAll slots k =>
      match slots !! j with
      | Some (InFlight finish) =>
          let '(r, w') := finish w in
          match r with
          | Err e => advance (k (Err e)) w'
          | Ok x =>
              match arrivals (<[j := Arrived x]> slots) with
              | Some xs => advance (k (Ok xs)) w'
              | None => (WaitingAll (<[j := Arrived x]> slots) k, w')
              end
          end
      | _ => (t, w)
      end
  end.

(** The operations in flight complete in array order. *)
Fixpoint finishSlots {X} (slots : list (Slot X)) : M (list X) :=
  match slots with
  | [] => ret []
  | Arrived x :: rest => do xs <- finishSlots rest; ret (x :: xs)
  | InFlight finish :: rest => do x <- finish; do xs <- finishSlots rest; ret (x :: xs)
  end.

(** A body run with nothing else in flight: each operation completes as
    soon as it is called. *)
Fixpoint alone {A} (p : Async A) : M A :=
  fun w =>
    match p with
    | Return r => (r, w)
    | Sync m k => let '(r, w') := m w in alone (k r) w'
    | Await op k => let '(r, w') := perform op w in alone (k r) w'
    | AwaitAll ops k =>
        let '(r, w') := finishSlots (inFlight ops) (announceAll ops w) in alone (k r) w'
    end.

Definition finishTask {A} (t : Task A) : M A :=
  fun w =>
    match t with
    | Settled r => (r, w)
    | Waiting finish k => let '(r, w') := finish w in alone (k r) w'
    | WaitingAll slots k => let '(r, w') := finishSlots slots w in alone (k r) w'
    end.

(** ** [Promise.all]

    The elements of the array are calls: each runs up to its first [await]
    when the array is built, in array order.  Then the operations in flight
    complete in the order of the host, [completions]: an entry [(i, j)] is
    the operation [j] of promise [i]; an entry that names nothing in flight
    is passed over.  What the list leaves in flight completes in array
    order.  The first promise to be rejected rejects the whole, at once;
    nothing is waited for after that. *)

Definition rejection {A} (t : Task A) : option string :=
  match t with
  | Settled (Err e) => Some e
  | _ => None
  end.

Definition fulfilment {A} (t : Task A) : option A :=
  match t with
  | Settled (Ok a) => Some a
  | _ => None
  end.

Fixpoint firstRejection {A} (pool : list (Task A)) : option string :=
  match pool with
  | [] => None
  | t :: rest =>
      match rejection t with
      | Some e => Some e
      | None => firstRejection rest
      end
  end.

Fixpoint startAll {A} (ps : list (Async A)) (w : World) : list (Task A) * World :=
  match ps with
  | [] => ([], w)
  | p :: rest =>
      let '(t, w1) := advance p w in
      let '(ts, w2) := startAll rest w1 in
      (t :: ts, w2)
  end.

Fixpoint follow {A} (order : list (nat * nat)) (pool : list (Task A)) (w : World)
    : list (Task A) * World :=
  match order with
  | [] => (pool, w)
  | (i, j) :: rest =>
      match firstRejection pool with
      | Some _ => (pool, w)
      | None =>
          match pool !! i with
          | Some t => let '(t', w') := resume j t w in follow rest (<[i := t']> pool) w'
          | None => follow rest pool w
          end
      end
  end.

Fixpoint finishAll {A} (pool : list (Task A)) (w : World) : list (Task A) * World :=
  match pool with
  | [] => ([], w)
  | t :: rest =>
      let '(r, w') := finishTask t w in
      match r with
      | Ok _ => let '(rest', w'') := finishAll rest w' in (Settled r :: rest', w'')
      | Err _ => (Settled r :: rest, w')
      end
  end.

(** The promises of the array when [Promise.all] settles, and the world
    then. *)
Definition settleAll (h : Host) {A} (ps : list (Async A)) (w : World)
    : list (Task A) * World :=
  let '(pool, w1) := startAll ps w in
  let '(pool', w2) := follow (completions h) pool w1 in
  match firstRejection pool' with
  | Some _ => (pool', w2)
  | None => finishAll pool' w2
  end.

Definition outcome {A} (pool : list (Task A)) : result (list A) :=
  match firstRejection pool with
  | Some e => Err e
  | None => Ok (omap fulfilment pool)
  end.

(** [await Promise.all(ps)] *)
Definition promiseAll (h : Host) {A} (ps : list (Async A)) : M (list A) :=
  fun w => let '(pool, w') := settleAll h ps w in (outcome pool, w').

Definition void {A} (m : M A) : M unit := m ;; ret tt.

(** ** The functions of [tools.ts] *)

Definition tryAccess (h : Host) (path : string) : bool := fs_access h path.

Definition findHome (h : Host) (onWindows : bool) : result string :=
  let env := process_env h in
  let osHomeDir := os_homedir h in
  if JS.nonEmpty osHomeDir && tryAccess h osHomeDir then Ok osHomeDir
  else if JS.truthy (env "HOME") && tryAccess h (JS.value (env "HOME")) then
    Ok (JS.value (env "HOME"))
  else if onWindows then
    if JS.truthy (env "USERPROFILE") && tryAccess h (JS.value (env "USERPROFILE")) then
      Ok (JS.value (env "USERPROFILE"))
    else if JS.truthy (env "HOMEDRIVE") && JS.truthy (env "HOMEPATH") then
      let homePath := path_join h [JS.value (env "HOMEDRIVE"); JS.value (env "HOMEPATH")] in
      if tryAccess h homePath then Ok homePath
      else Err "Failed to find home directory"
    else Err "Failed to find home directory"
  else Err "Failed to find home directory".

Definition downloadKuberlr (h : Host) (context : DownloadContext) (arch : string) : M string :=
  let kuberlrVersion := "0.4.2" in
  let baseURL := "https://github.com/flavio/kuberlr/releases/download/v" +:+ kuberlrVersion in
  let platformDir :=
    "kuberlr_" +:+ kuberlrVersion +:+ "_" +:+ KubePlatform_str (kubePlatform context)
    +:+ "_" +:+ arch in
  let archiveName :=
    platformDir +:+
    (if JS.startsWith (KubePlatform_str (kubePlatform context)) "win" then ".zip" else ".tar.gz") in
  do text <- getResourceM h (baseURL +:+ "/checksums.txt");
  let allChecksums := JS.splitLines text in
  let checksums := List.filter (fun line => JS.includes line platformDir) allChecksums in
  match length checksums with
  | 0 =>
      throw ("Couldn't find a matching SHA for [" +:+ platformDir +:+ "] in ["
             +:+ JS.showArray allChecksums +:+ "]")
  | 1 => ret tt
  | _ =>
      throw ("Matched " +:+ JS.showNat (length checksums) +:+ " hits, not exactly 1, for platform "
             +:+ KubePlatform_str (kubePlatform context) +:+ " in ["
             +:+ JS.showArray allChecksums +:+ "]")
  end ;;
  let options :=
    {| expectedChecksum := Some (JS.item0 (JS.splitSpaces (JS.item0 checksums)));
       checksumAlgorithm := None;
       entryName := Some (platformDir +:+ "/" +:+ exeName context "kuberlr");
       access := None |} in
  let downloadFunc :=
    if JS.startsWith (Platform_str (platform context)) "win" then downloadZip
    else downloadTarGZ in
  let binName := exeName context "kuberlr" in
  downloadVia h downloadFunc (baseURL +:+ "/" +:+ archiveName)
    (path_join h [binDir context; binName]) options.

Definition findChecksum (h : Host) (checksumURL executableName : string) : M string :=
  do allChecksums <- getResourceM h checksumURL;
  let desiredChecksums :=
    List.filter (fun line => JS.includes line executableName) (JS.splitLines allChecksums) in
  if (length desiredChecksums <? 1)%nat then
    throw ("Couldn't find a matching SHA for [" +:+ executableName +:+ "] in ["
           +:+ allChecksums +:+ "]")
  else if (length desiredChecksums =? 1)%nat then
    ret (JS.item0 (JS.splitSpacesLimit (JS.item0 desiredChecksums) 1))
  else
    throw ("Matched " +:+ JS.showNat (length desiredChecksums) +:+ " hits, not exactly 1, for "
           +:+ executableName +:+ " in [" +:+ allChecksums +:+ "]").

(** The [return] inside the [try] block leaves the function; the block
    yields [true] for it and [false] when control reaches its end or the
    [catch] clause. *)
Definition bindKubectlToKuberlr (h : Host) (kuberlrPath binKubectlPath : string) : M unit :=
  if JS.startsWith (os_platform h) "win" then
    copyFile h kuberlrPath binKubectlPath
  else
    do returned <-
      tryCatch
        (do binKubectlStat <- lstat binKubectlPath;
         do linked <-
           (if isSymbolicLink binKubectlStat then
              do actualTarget <- readlink binKubectlPath;
              if String.eqb actualTarget "kuberlr" then ret true
              else
                consoleLog ("Deleting symlink " +:+ binKubectlPath
                            +:+ " unexpectedly pointing to " +:+ actualTarget) ;;
                ret false
            else ret false);
         if (linked : bool) then ret true
         else rm binKubectlPath ;; ret false)
        (ret false);
    if (returned : bool) then ret tt
    else symlink h "kuberlr" binKubectlPath.

(** [process.env.M1 ? a : b] *)
Definition onM1 {A} (h : Host) (a b : A) : A :=
  if JS.truthy (process_env h "M1") then a else b.

Definition checksumOnly (sum : string) : DownloadOptions :=
  {| expectedChecksum := Some sum; checksumAlgorithm := None;
     entryName := None; access := None |}.

Definition downloadKuberlrAndKubectl (h : Host) (context : DownloadContext) : M unit :=
  do kuberlrPath <- downloadKuberlr h context "amd64";
  let arch := onM1 h "arm64" "amd64" in
  bindKubectlToKuberlr h kuberlrPath (path_join h [binDir context; exeName context "kubectl"]) ;;
  if String.eqb (Platform_str (platform context)) (os_platform h) then
    do stable <- getResourceM h "https://dl.k8s.io/release/stable.txt";
    let kubeVersion := JS.trim stable in
    let kubectlURL :=
      "https://dl.k8s.io/" +:+ kubeVersion +:+ "/bin/" +:+ KubePlatform_str (kubePlatform context)
      +:+ "/" +:+ arch +:+ "/" +:+ exeName context "kubectl" in
    do kubectlSHA <- getResourceM h (kubectlURL +:+ ".sha256");
    do homeDir <- liftResult (findHome h (JS.startsWith (Platform_str (platform context)) "win"));
    let kuberlrDir :=
      path_join h [homeDir; ".kuberlr"; KubePlatform_str (kubePlatform context) +:+ "-" +:+ arch] in
    let managedKubectlPath :=
      path_join h [kuberlrDir; exeName context ("kubectl" +:+ JS.dropLeadingV kubeVersion)] in
    void (downloadVia h download kubectlURL managedKubectlPath (checksumOnly kubectlSHA))
  else ret tt.

Definition downloadHelm (h : Host) (context : DownloadContext) (version : string) : M unit :=
  let arch := onM1 h "arm64" "amd64" in
  let helmURL :=
    "https://get.helm.sh/helm-v" +:+ version +:+ "-" +:+ KubePlatform_str (kubePlatform context)
    +:+ "-" +:+ arch +:+ ".tar.gz" in
  do sums <- getResourceM h (helmURL +:+ ".sha256sum");
  void (downloadVia h downloadTarGZ helmURL (path_join h [binDir context; exeName context "helm"])
    {| expectedChecksum := Some (JS.item0 (JS.splitSpacesLimit sums 1));
       checksumAlgorithm := None;
       entryName := Some (KubePlatform_str (kubePlatform context) +:+ "-" +:+ arch +:+ "/"
                          +:+ exeName context "helm");
       access := None |}).

Definition downloadDockerCLI (h : Host) (context : DownloadContext) (version : string) : M unit :=
  let dockerPlatform :=
    match dependencyPlaform context with
    | dp_wsl => "wsl"
    | _ => KubePlatform_str (kubePlatform context)
    end in
  let arch := onM1 h "arm64" "amd64" in
  let dockerURLBase :=
    "https://github.com/rancher-sandbox/rancher-desktop-docker-cli/releases/download/" +:+ version in
  let dockerExecutable := exeName context ("docker-" +:+ dockerPlatform +:+ "-" +:+ arch) in
  let dockerURL := dockerURLBase +:+ "/" +:+ dockerExecutable in
  let dockerPath := path_join h [binDir context; exeName context "docker"] in
  do dockerSHA <- findChecksum h (dockerURLBase +:+ "/sha256sum.txt") dockerExecutable;
  void (downloadVia h download dockerURL dockerPath (checksumOnly dockerSHA)).

Definition downloadDockerBuildx (h : Host) (context : DownloadContext) : M unit :=
  let dockerBuildxVersion := "v0.8.2" in
  let arch := onM1 h "arm64" "amd64" in
  let dockerBuildxURLBase :=
    "https://github.com/docker/buildx/releases/download/" +:+ dockerBuildxVersion in
  let dockerBuildxExecutable :=
    exeName context ("buildx-" +:+ dockerBuildxVersion +:+ "."
                     +:+ KubePlatform_str (kubePlatform context) +:+ "-" +:+ arch) in
  let dockerBuildxURL := dockerBuildxURLBase +:+ "/" +:+ dockerBuildxExecutable in
  let dockerBuildxPath := path_join h [binDir context; exeName context "docker-buildx"] in
  do options <-
    (if negb (String.eqb (KubePlatform_str (kubePlatform context)) "darwin") then
       do sum <- findChecksum h (dockerBuildxURLBase +:+ "/checksums.txt") dockerBuildxExecutable;
       ret (checksumOnly sum)
     else ret noOptions);
  void (downloadVia h download dockerBuildxURL dockerBuildxPath options).

Definition downloadDockerCompose (h : Host) (context : DownloadContext) : M unit :=
  let dockerComposeVersion := "v2.6.1" in
  let dockerComposeURLBase :=
    "https://github.com/docker/compose/releases/download/" +:+ dockerComposeVersion in
  let dockerComposeCPU := onM1 h "aarch64" "x86_64" in
  let dockerComposeExecutable :=
    exeName context ("docker-compose-" +:+ KubePlatform_str (kubePlatform context) +:+ "-"
                     +:+ dockerComposeCPU) in
  let dockerComposeURL := dockerComposeURLBase +:+ "/" +:+ dockerComposeExecutable in
  let dockerComposePath := path_join h [binDir context; exeName context "docker-compose"] in
  do dockerComposeSHA <- findChecksum h (dockerComposeURL +:+ ".sha256") dockerComposeExecutable;
  void (downloadVia h download dockerComposeURL dockerComposePath (checksumOnly dockerComposeSHA)).

Definition downloadTrivy (h : Host) (context : DownloadContext) : M unit :=
  let trivyVersionWithV := "v0.30.0" in
  let trivyURLBase := "https://github.com/aquasecurity/trivy/releases" in
  let trivyVersion := JS.dropLeadingV trivyVersionWithV in
  let trivyOS := onM1 h "Linux-ARM64" "Linux-64bit" in
  let trivyBasename := "trivy_" +:+ trivyVersion +:+ "_" +:+ trivyOS in
  let trivyURL :=
    trivyURLBase +:+ "/download/" +:+ trivyVersionWithV +:+ "/" +:+ trivyBasename +:+ ".tar.gz" in
  do trivySHA <-
    findChecksum h
      (trivyURLBase +:+ "/download/" +:+ trivyVersionWithV +:+ "/trivy_" +:+ trivyVersion
       +:+ "_checksums.txt")
      (trivyBasename +:+ ".tar.gz");
  let trivyPath := path_join h [internalDir context; "trivy"] in
  void (downloadVia h downloadTarGZ trivyURL trivyPath (checksumOnly trivySHA)).

Definition downloadSteve (h : Host) (context : DownloadContext) : M unit :=
  let steveVersion := "v0.1.0-beta8" in
  let steveURLBase :=
    "https://github.com/rancher-sandbox/rancher-desktop-steve/releases/download/" +:+ steveVersion in
  let steveCPU := onM1 h "arm64" "amd64" in
  let steveExecutable := "steve-" +:+ KubePlatform_str (kubePlatform context) +:+ "-" +:+ steveCPU in
  let steveURL := steveURLBase +:+ "/" +:+ steveExecutable +:+ ".tar.gz" in
  let stevePath := path_join h [internalDir context; exeName context "steve"] in
  do steveSHA <- findChecksum h (steveURL +:+ ".sha512sum") steveExecutable;
  void (downloadVia h downloadTarGZ steveURL stevePath
    {| expectedChecksum := Some steveSHA; checksumAlgorithm := Some "sha512";
       entryName := None; access := None |}).

(** [fs.constants.W_OK] *)
Definition W_OK : nat := 2.

Definition downloadRancherDashboard (h : Host) : M unit :=
  let rancherDashboardVersion := "desktop-v2.6.3.beta.12" in
  let rancherDashboardURLBase :=
    "https://github.com/rancher-sandbox/dashboard/releases/download/" +:+ rancherDashboardVersion in
  let rancherDashboardExecutable := "rancher-dashboard-desktop-embed" in
  let rancherDashboardURL :=
    rancherDashboardURLBase +:+ "/" +:+ rancherDashboardExecutable +:+ ".tar.gz" in
  let resourcesRoot := path_join h [process_cwd h; "resources"] in
  let rancherDashboardPath := path_join h [resourcesRoot; "rancher-dashboard.tgz"] in
  do rancherDashboardSHA <-
    findChecksum h (rancherDashboardURL +:+ ".sha512sum") rancherDashboardExecutable;
  let rancherDashboardDir := path_join h [resourcesRoot; "rancher-dashboard"] in
  do present <- existsSync h rancherDashboardDir;
  if (present : bool) then
    consoleLog (rancherDashboardDir +:+ " already exists, not re-downloading.")
  else
    downloadVia h download rancherDashboardURL rancherDashboardPath
      {| expectedChecksum := Some rancherDashboardSHA; checksumAlgorithm := Some "sha512";
         entryName := None; access := Some W_OK |} ;;
    mkdirRecursive rancherDashboardDir ;;
    let args := ["tar"; "-xf"; rancherDashboardPath] in
    do args <-
      (if JS.startsWith (os_platform h) "win" then
         let systemRoot := process_env h "SystemRoot" in
         if negb (JS.truthy systemRoot) then throw "Could not find system root"
         else ret (path_join h [JS.value systemRoot; "system32"; "tar.exe"] :: drop 1 args)
       else ret args);
    spawn h (JS.item0 args) (drop 1 args) rancherDashboardDir ;;
    rm rancherDashboardPath.

Definition credHelperNames (p : Platform) : list string :=
  match p with
  | linux => ["docker-credential-secretservice"; "docker-credential-pass"]
  | darwin => ["docker-credential-osxkeychain"]
  | win32 => ["docker-credential-wincred"]
  end.

Definition downloadDockerProvidedCredHelpers (h : Host) (context : DownloadContext)
    : M (list string) :=
  let version := "0.6.4" in
  let arch := onM1 h "arm64" "amd64" in
  let onWin := JS.startsWith (Platform_str (platform context)) "win" in
  let extension := if onWin then "zip" else "tar.gz" in
  let downloadFunc := if onWin then downloadZip else downloadTarGZ in
  let baseUrl := "https://github.com/docker/docker-credential-helpers/releases/download" in
  let promises :=
    map (fun baseName =>
           let sourceUrl :=
             baseUrl +:+ "/v" +:+ version +:+ "/" +:+ baseName +:+ "-v" +:+ version +:+ "-"
             +:+ arch +:+ "." +:+ extension in
           let binName := if onWin then baseName +:+ ".exe" else baseName in
           let destPath := path_join h [binDir context; binName] in
           call (downloadOp h downloadFunc sourceUrl destPath noOptions))
        (credHelperNames (platform context)) in
  promiseAll h promises.

Definition downloadECRCredHelper (h : Host) (context : DownloadContext) (version : string)
    : M unit :=
  let arch := onM1 h "arm64" "amd64" in
  let onWin := JS.startsWith (Platform_str (platform context)) "win" in
  let ecrLoginPlatform := if onWin then "windows" else Platform_str (platform context) in
  let baseName := "docker-credential-ecr-login" in
  let baseUrl := "https://amazon-ecr-credential-helper-releases.s3.us-east-2.amazonaws.com" in
  let binName := if onWin then baseName +:+ ".exe" else baseName in
  let sourceUrl :=
    baseUrl +:+ "/" +:+ version +:+ "/" +:+ ecrLoginPlatform +:+ "-" +:+ arch +:+ "/" +:+ binName in
  let destPath := path_join h [binDir context; binName] in
  void (downloadVia h download sourceUrl destPath noOptions).

(** The top-level fetches of [downloadDependencies], named after the
    functions that perform them. *)
Inductive Tool :=
| KuberlrAndKubectl | Helm | DockerCLI | DockerBuildx | DockerCompose
| Trivy | Steve | RancherDashboard | DockerProvidedCredHelpers | ECRCredHelper.

Definition fetchTool (h : Host) (context : DownloadContext) (depVersions : DependencyVersions)
    (t : Tool) : M unit :=
  match t with
  | KuberlrAndKubectl => downloadKuberlrAndKubectl h context
  | Helm => downloadHelm h context (helm depVersions)
  | DockerCLI => downloadDockerCLI h context (dockerCLI depVersions)
  | DockerBuildx => downloadDockerBuildx h context
  | DockerCompose => downloadDockerCompose h context
  | Trivy => downloadTrivy h context
  | Steve => downloadSteve h context
  | RancherDashboard => downloadRancherDashboard h
  | DockerProvidedCredHelpers => void (downloadDockerProvidedCredHelpers h context)
  | ECRCredHelper => downloadECRCredHelper h context (ECRCredenialHelper depVersions)
  end.

#[global] Instance Tool_eq_dec : EqDecision Tool.
Proof. solve_decision. Defined.

(** The array handed to [Promise.all], in source order. *)
Definition topLevel : list Tool :=
  [KuberlrAndKubectl; Helm; DockerCLI; DockerBuildx; DockerCompose;
   Trivy; Steve; RancherDashboard; DockerProvidedCredHelpers; ECRCredHelper].

Definition makeContext (h : Host) (rawPlatform : DependencyPlatform) : DownloadContext :=
  let platform :=
    match rawPlatform with
    | dp_wsl => linux
    | dp_linux => linux
    | dp_darwin => darwin
    | dp_win32 => win32
    end in
  let resourcesDir := path_join h [process_cwd h; "resources"; Platform_str platform] in
  {| dependencyPlaform := rawPlatform;
     platform := platform;
     kubePlatform := getKubePlatform platform;
     binDir := path_join h [resourcesDir; "bin"];
     internalDir := path_join h [resourcesDir; "internal"] |}.

(** ** The functions of [tools.ts], [await] by [await]

    The same functions as promises: where the functions above run an
    operation to its end before they go on, these stop at each [await], so
    that [Promise.all] can take them up in the order in which their
    operations complete. *)

Module Stepwise.
#[local] Open Scope async_scope.

Definition getResourceM (h : Host) (url : string) : Async string := call (getResourceOp h url).

Definition downloadVia (h : Host) (via : Downloader) (url dest : string)
    (options : DownloadOptions) : Async string :=
  call (downloadOp h via url dest options).

Definition tryAccess (h : Host) (path : string) : Async bool :=
  atryCatch (await _ <- call (accessOp h path); areturn true) (areturn false).

Definition fatal : Async string := athrow "Failed to find home directory".

Definition findHome (h : Host) (onWindows : bool) : Async string :=
  let env := process_env h in
  let osHomeDir := os_homedir h in
  await found <- (if JS.nonEmpty osHomeDir then tryAccess h osHomeDir else areturn false);
  if (found : bool) then areturn osHomeDir
  else
    await found <- (if JS.truthy (env "HOME") then tryAccess h (JS.value (env "HOME"))
                    else areturn false);
    if (found : bool) then areturn (JS.value (env "HOME"))
    else if onWindows then
      await found <- (if JS.truthy (env "USERPROFILE")
                      then tryAccess h (JS.value (env "USERPROFILE"))
                      else areturn false);
      if (found : bool) then areturn (JS.value (env "USERPROFILE"))
      else if JS.truthy (env "HOMEDRIVE") && JS.truthy (env "HOMEPATH") then
        let homePath := path_join h [JS.value (env "HOMEDRIVE"); JS.value (env "HOMEPATH")] in
        await found <- tryAccess h homePath;
        if (found : bool) then areturn homePath else fatal
      else fatal
    else fatal.

Definition downloadKuberlr (h : Host) (context : DownloadContext) (arch : string)
    : Async string :=
  let kuberlrVersion := "0.4.2" in
  let baseURL := "https://github.com/flavio/kuberlr/releases/download/v" +:+ kuberlrVersion in
  let platformDir :=
    "kuberlr_" +:+ kuberlrVersion +:+ "_" +:+ KubePlatform_str (kubePlatform context)
    +:+ "_" +:+ arch in
  let archiveName :=
    platformDir +:+
    (if JS.startsWith (KubePlatform_str (kubePlatform context)) "win" then ".zip" else ".tar.gz") in
  await text <- getResourceM h (baseURL +:+ "/checksums.txt");
  let allChecksums := JS.splitLines text in
  let checksums := List.filter (fun line => JS.includes line platformDir) allChecksums in
  await _ <-
       (match length checksums with
        | 0 =>
            athrow ("Couldn't find a matching SHA for [" +:+ platformDir +:+ "] in ["
                    +:+ JS.showArray allChecksums +:+ "]")
        | 1 => areturn tt
        | _ =>
            athrow ("Matched " +:+ JS.showNat (length checksums)
                    +:+ " hits, not exactly 1, for platform "
                    +:+ KubePlatform_str (kubePlatform context) +:+ " in ["
                    +:+ JS.showArray allChecksums +:+ "]")
        end);
  let options :=
    {| expectedChecksum := Some (JS.item0 (JS.splitSpaces (JS.item0 checksums)));
       checksumAlgorithm := None;
       entryName := Some (platformDir +:+ "/" +:+ exeName context "kuberlr");
       access := None |} in
  let downloadFunc :=
    if JS.startsWith (Platform_str (platform context)) "win" then downloadZip
    else downloadTarGZ in
  let binName := exeName context "kuberlr" in
  downloadVia h downloadFunc (baseURL +:+ "/" +:+ archiveName)
    (path_join h [binDir context; binName]) options.

Definition findChecksum (h : Host) (checksumURL executableName : string) : Async string :=
  await allChecksums <- getResourceM h checksumURL;
  let desiredChecksums :=
    List.filter (fun line => JS.includes line executableName) (JS.splitLines allChecksums) in
  if (length desiredChecksums <? 1)%nat then
    athrow ("Couldn't find a matching SHA for [" +:+ executableName +:+ "] in ["
            +:+ allChecksums +:+ "]")
  else if (length desiredChecksums =? 1)%nat then
    areturn (JS.item0 (JS.splitSpacesLimit (JS.item0 desiredChecksums) 1))
  else
    athrow ("Matched " +:+ JS.showNat (length desiredChecksums) +:+ " hits, not exactly 1, for "
            +:+ executableName +:+ " in [" +:+ allChecksums +:+ "]").

Definition bindKubectlToKuberlr (h : Host) (kuberlrPath binKubectlPath : string) : Async unit :=
  if JS.startsWith (os_platform h) "win" then
    call (copyFileOp h kuberlrPath binKubectlPath)
  else
    await returned <-
      atryCatch
        (await binKubectlStat <- call (lstatOp binKubectlPath);
         await linked <-
           (if isSymbolicLink binKubectlStat then
              await actualTarget <- call (readlinkOp binKubectlPath);
              if String.eqb actualTarget "kuberlr" then areturn true
              else
                now _ <- consoleLog ("Deleting symlink " +:+ binKubectlPath
                                     +:+ " unexpectedly pointing to " +:+ actualTarget);
                areturn false
            else areturn false);
         if (linked : bool) then areturn true
         else await _ <- call (rmOp binKubectlPath); areturn false)
        (areturn false);
    if (returned : bool) then areturn tt
    else call (symlinkOp h "kuberlr" binKubectlPath).

Definition downloadKuberlrAndKubectl (h : Host) (context : DownloadContext) : Async unit :=
  await kuberlrPath <- downloadKuberlr h context "amd64";
  let arch := onM1 h "arm64" "amd64" in
  await _ <- bindKubectlToKuberlr h kuberlrPath
               (path_join h [binDir context; exeName context "kubectl"]);
  if String.eqb (Platform_str (platform context)) (os_platform h) then
    await stable <- getResourceM h "https://dl.k8s.io/release/stable.txt";
    let kubeVersion := JS.trim stable in
    let kubectlURL :=
      "https://dl.k8s.io/" +:+ kubeVersion +:+ "/bin/" +:+ KubePlatform_str (kubePlatform context)
      +:+ "/" +:+ arch +:+ "/" +:+ exeName context "kubectl" in
    await kubectlSHA <- getResourceM h (kubectlURL +:+ ".sha256");
    await homeDir <- findHome h (JS.startsWith (Platform_str (platform context)) "win");
    let kuberlrDir :=
      path_join h [homeDir; ".kuberlr"; KubePlatform_str (kubePlatform context) +:+ "-" +:+ arch] in
    let managedKubectlPath :=
      path_join h [kuberlrDir; exeName context ("kubectl" +:+ JS.dropLeadingV kubeVersion)] in
    avoid (downloadVia h download kubectlURL managedKubectlPath (checksumOnly kubectlSHA))
  else areturn tt.

Definition downloadHelm (h : Host) (context : DownloadContext) (version : string) : Async unit :=
  let arch := onM1 h "arm64" "amd64" in
  let helmURL :=
    "https://get.helm.sh/helm-v" +:+ version +:+ "-" +:+ KubePlatform_str (kubePlatform context)
    +:+ "-" +:+ arch +:+ ".tar.gz" in
  await sums <- getResourceM h (helmURL +:+ ".sha256sum");
  avoid (downloadVia h downloadTarGZ helmURL (path_join h [binDir context; exeName context "helm"])
    {| expectedChecksum := Some (JS.item0 (JS.splitSpacesLimit sums 1));
       checksumAlgorithm := None;
       entryName := Some (KubePlatform_str (kubePlatform context) +:+ "-" +:+ arch +:+ "/"
                          +:+ exeName context "helm");
       access := None |}).

Definition downloadDockerCLI (h : Host) (context : DownloadContext) (version : string)
    : Async unit :=
  let dockerPlatform :=
    match dependencyPlaform context with
    | dp_wsl => "wsl"
    | _ => KubePlatform_str (kubePlatform context)
    end in
  let arch := onM1 h "arm64" "amd64" in
  let dockerURLBase :=
    "https://github.com/rancher-sandbox/rancher-desktop-docker-cli/releases/download/" +:+ version in
  let dockerExecutable := exeName context ("docker-" +:+ dockerPlatform +:+ "-" +:+ arch) in
  let dockerURL := dockerURLBase +:+ "/" +:+ dockerExecutable in
  let dockerPath := path_join h [binDir context; exeName context "docker"] in
  await dockerSHA <- findChecksum h (dockerURLBase +:+ "/sha256sum.txt") dockerExecutable;
  avoid (downloadVia h download dockerURL dockerPath (checksumOnly dockerSHA)).

Definition downloadDockerBuildx (h : Host) (context : DownloadContext) : Async unit :=
  let dockerBuildxVersion := "v0.8.2" in
  let arch := onM1 h "arm64" "amd64" in
  let dockerBuildxURLBase :=
    "https://github.com/docker/buildx/releases/download/" +:+ dockerBuildxVersion in
  let dockerBuildxExecutable :=
    exeName context ("buildx-" +:+ dockerBuildxVersion +:+ "."
                     +:+ KubePlatform_str (kubePlatform context) +:+ "-" +:+ arch) in
  let dockerBuildxURL := dockerBuildxURLBase +:+ "/" +:+ dockerBuildxExecutable in
  let dockerBuildxPath := path_join h [binDir context; exeName context "docker-buildx"] in
  await options <-
    (if negb (String.eqb (KubePlatform_str (kubePlatform context)) "darwin") then
       await sum <- findChecksum h (dockerBuildxURLBase +:+ "/checksums.txt")
                      dockerBuildxExecutable;
       areturn (checksumOnly sum)
     else areturn noOptions);
  avoid (downloadVia h download dockerBuildxURL dockerBuildxPath options).

Definition downloadDockerCompose (h : Host) (context : DownloadContext) : Async unit :=
  let dockerComposeVersion := "v2.6.1" in
  let dockerComposeURLBase :=
    "https://github.com/docker/compose/releases/download/" +:+ dockerComposeVersion in
  let dockerComposeCPU := onM1 h "aarch64" "x86_64" in
  let dockerComposeExecutable :=
    exeName context ("docker-compose-" +:+ KubePlatform_str (kubePlatform context) +:+ "-"
                     +:+ dockerComposeCPU) in
  let dockerComposeURL := dockerComposeURLBase +:+ "/" +:+ dockerComposeExecutable in
  let dockerComposePath := path_join h [binDir context; exeName context "docker-compose"] in
  await dockerComposeSHA <-
    findChecksum h (dockerComposeURL +:+ ".sha256") dockerComposeExecutable;
  avoid (downloadVia h download dockerComposeURL dockerComposePath
           (checksumOnly dockerComposeSHA)).

Definition downloadTrivy (h : Host) (context : DownloadContext) : Async unit :=
  let trivyVersionWithV := "v0.30.0" in
  let trivyURLBase := "https://github.com/aquasecurity/trivy/releases" in
  let trivyVersion := JS.dropLeadingV trivyVersionWithV in
  let trivyOS := onM1 h "Linux-ARM64" "Linux-64bit" in
  let trivyBasename := "trivy_" +:+ trivyVersion +:+ "_" +:+ trivyOS in
  let trivyURL :=
    trivyURLBase +:+ "/download/" +:+ trivyVersionWithV +:+ "/" +:+ trivyBasename +:+ ".tar.gz" in
  await trivySHA <-
    findChecksum h
      (trivyURLBase +:+ "/download/" +:+ trivyVersionWithV +:+ "/trivy_" +:+ trivyVersion
       +:+ "_checksums.txt")
      (trivyBasename +:+ ".tar.gz");
  let trivyPath := path_join h [internalDir context; "trivy"] in
  avoid (downloadVia h downloadTarGZ trivyURL trivyPath (checksumOnly trivySHA)).

Definition downloadSteve (h : Host) (context : DownloadContext) : Async unit :=
  let steveVersion := "v0.1.0-beta8" in
  let steveURLBase :=
    "https://github.com/rancher-sandbox/rancher-desktop-steve/releases/download/" +:+ steveVersion in
  let steveCPU := onM1 h "arm64" "amd64" in
  let steveExecutable := "steve-" +:+ KubePlatform_str (kubePlatform context) +:+ "-" +:+ steveCPU in
  let steveURL := steveURLBase +:+ "/" +:+ steveExecutable +:+ ".tar.gz" in
  let stevePath := path_join h [internalDir context; exeName context "steve"] in
  await steveSHA <- findChecksum h (steveURL +:+ ".sha512sum") steveExecutable;
  avoid (downloadVia h downloadTarGZ steveURL stevePath
    {| expectedChecksum := Some steveSHA; checksumAlgorithm := Some "sha512";
       entryName := None; access := None |}).

Definition downloadRancherDashboard (h : Host) : Async unit :=
  let rancherDashboardVersion := "desktop-v2.6.3.beta.12" in
  let rancherDashboardURLBase :=
    "https://github.com/rancher-sandbox/dashboard/releases/download/" +:+ rancherDashboardVersion in
  let rancherDashboardExecutable := "rancher-dashboard-desktop-embed" in
  let rancherDashboardURL :=
    rancherDashboardURLBase +:+ "/" +:+ rancherDashboardExecutable +:+ ".tar.gz" in
  let resourcesRoot := path_join h [process_cwd h; "resources"] in
  let rancherDashboardPath := path_join h [resourcesRoot; "rancher-dashboard.tgz"] in
  await rancherDashboardSHA <-
    findChecksum h (rancherDashboardURL +:+ ".sha512sum") rancherDashboardExecutable;
  let rancherDashboardDir := path_join h [resourcesRoot; "rancher-dashboard"] in
  now present <- existsSync h rancherDashboardDir;
  if (present : bool) then
    sync (consoleLog (rancherDashboardDir +:+ " already exists, not re-downloading."))
  else
    await _ <- downloadVia h download rancherDashboardURL rancherDashboardPath
                 {| expectedChecksum := Some rancherDashboardSHA;
                    checksumAlgorithm := Some "sha512";
                    entryName := None; access := Some W_OK |};
    await _ <- call (mkdirOp rancherDashboardDir);
    let args := ["tar"; "-xf"; rancherDashboardPath] in
    await args <-
      (if JS.startsWith (os_platform h) "win" then
         let systemRoot := process_env h "SystemRoot" in
         if negb (JS.truthy systemRoot) then athrow "Could not find system root"
         else areturn (path_join h [JS.value systemRoot; "system32"; "tar.exe"] :: drop 1 args)
       else areturn args);
    now _ <- spawn h (JS.item0 args) (drop 1 args) rancherDashboardDir;
    sync (rm rancherDashboardPath).

Definition downloadDockerProvidedCredHelpers (h : Host) (context : DownloadContext)
    : Async (list string) :=
  let version := "0.6.4" in
  let arch := onM1 h "arm64" "amd64" in
  let onWin := JS.startsWith (Platform_str (platform context)) "win" in
  let extension := if onWin then "zip" else "tar.gz" in
  let downloadFunc := if onWin then downloadZip else downloadTarGZ in
  let baseUrl := "https://github.com/docker/docker-credential-helpers/releases/download" in
  let promises :=
    map (fun baseName =>
           let sourceUrl :=
             baseUrl +:+ "/v" +:+ version +:+ "/" +:+ baseName +:+ "-v" +:+ version +:+ "-"
             +:+ arch +:+ "." +:+ extension in
           let binName := if onWin then baseName +:+ ".exe" else baseName in
           let destPath := path_join h [binDir context; binName] in
           downloadOp h downloadFunc sourceUrl destPath noOptions)
        (credHelperNames (platform context)) in
  all promises.

Definition downloadECRCredHelper (h : Host) (context : DownloadContext) (version : string)
    : Async unit :=
  let arch := onM1 h "arm64" "amd64" in
  let onWin := JS.startsWith (Platform_str (platform context)) "win" in
  let ecrLoginPlatform := if onWin then "windows" else Platform_str (platform context) in
  let baseName := "docker-credential-ecr-login" in
  let baseUrl := "https://amazon-ecr-credential-helper-releases.s3.us-east-2.amazonaws.com" in
  let binName := if onWin then baseName +:+ ".exe" else baseName in
  let sourceUrl :=
    baseUrl +:+ "/" +:+ version +:+ "/" +:+ ecrLoginPlatform +:+ "-" +:+ arch +:+ "/" +:+ binName in
  let destPath := path_join h [binDir context; binName] in
  avoid (downloadVia h download sourceUrl destPath noOptions).

Definition fetchTool (h : Host) (context : DownloadContext) (depVersions : DependencyVersions)
    (t : Tool) : Async unit :=
  match t with
  | KuberlrAndKubectl => downloadKuberlrAndKubectl h context
  | Helm => downloadHelm h context (helm depVersions)
  | DockerCLI => downloadDockerCLI h context (dockerCLI depVersions)
  | DockerBuildx => downloadDockerBuildx h context
  | DockerCompose => downloadDockerCompose h context
  | Trivy => downloadTrivy h context
  | Steve => downloadSteve h context
  | RancherDashboard => downloadRancherDashboard h
  | DockerProvidedCredHelpers => avoid (downloadDockerProvidedCredHelpers h context)
  | ECRCredHelper => downloadECRCredHelper h context (ECRCredenialHelper depVersions)
  end.

End Stepwise.

(** The array handed to [Promise.all] holds the calls themselves. *)
Definition downloadDependencies (h : Host) (rawPlatform : DependencyPlatform)
    (depVersions : DependencyVersions) : M unit :=
  let downloadContext := makeContext h rawPlatform in
  mkdirRecursive (binDir downloadContext) ;;
  mkdirRecursive (internalDir downloadContext) ;;
  void (promiseAll h [
    Stepwise.downloadKuberlrAndKubectl h downloadContext;
    Stepwise.downloadHelm h downloadContext (helm depVersions);
    Stepwise.downloadDockerCLI h downloadContext (dockerCLI depVersions);
    Stepwise.downloadDockerBuildx h downloadContext;
    Stepwise.downloadDockerCompose h downloadContext;
    Stepwise.downloadTrivy h downloadContext;
    Stepwise.downloadSteve h downloadContext;
    Stepwise.downloadRancherDashboard h;
    avoid (Stepwise.downloadDockerProvidedCredHelpers h downloadContext);
    Stepwise.downloadECRCredHelper h downloadContext (ECRCredenialHelper depVersions)
  ]).

(** ** The [moproxy] init script

    The [nat] table of [iptables] is a list of rules per built-in chain.
    [--check] succeeds when the rule is in the chain, [--append] puts it at
    the end, [--delete] removes its first occurrence and fails when there is
    none.  An exit status of zero is [true]. *)

Module Moproxy.

Inductive Chain := PREROUTING | INPUT | OUTPUT | POSTROUTING.

Record Rule := {
  protocol : string;
  dports : string;
  jump : string;
  to_port : string
}.

#[global] Instance Chain_eq_dec : EqDecision Chain.
Proof. solve_decision. Defined.

#[global] Instance Rule_eq_dec : EqDecision Rule.
Proof. solve_decision. Defined.

(** [${ports_redirected}] and [${port}] *)
Record Config := {
  ports_redirected : string;
  port : string
}.

Definition Table : Type := Chain -> list Rule.

Inductive Action := check | append | delete.

Definition redirect (c : Config) : Rule :=
  {| protocol := "tcp"; dports := ports_redirected c; jump := "REDIRECT"; to_port := port c |}.

Definition copies (r : Rule) (l : list Rule) : nat := count_occ Rule_eq_dec l r.

Fixpoint deleteFirst (r : Rule) (l : list Rule) : list Rule :=
  match l with
  | [] => []
  | x :: rest => if decide (x = r) then rest else x :: deleteFirst r rest
  end.

Definition setChain (t : Table) (ch : Chain) (l : list Rule) : Table :=
  fun ch' => if decide (ch' = ch) then l else t ch'.

Definition iptables_cmd (c : Config) (a : Action) (ch : Chain) (t : Table) : bool * Table :=
  let rule := redirect c in
  match a with
  | check => (bool_decide (rule ∈ t ch), t)
  | append => (true, setChain t ch (t ch ++ [rule]))
  | delete =>
      if bool_decide (rule ∈ t ch) then (true, setChain t ch (deleteFirst rule (t ch)))
      else (false, t)
  end.

Definition add_rule_to_chain (c : Config) (ch : Chain) (t : Table) : Table :=
  if negb (fst (iptables_cmd c check ch t)) then snd (iptables_cmd c append ch t)
  else t.

Lemma setChain_same (t : Table) (ch : Chain) (l : list Rule) : setChain t ch l ch = l.
Proof. unfold setChain. by rewrite decide_True. Qed.

Lemma setChain_other (t : Table) (ch ch' : Chain) (l : list Rule) :
  ch' ≠ ch -> setChain t ch l ch' = t ch'.
Proof. intros Hne. unfold setChain. by rewrite decide_False. Qed.

Lemma copies_pos_iff (r : Rule) (l : list Rule) : r ∈ l <-> 0 < copies r l.
Proof. unfold copies. rewrite list_elem_of_In. apply count_occ_In. Qed.

Lemma copies_deleteFirst (r : Rule) (l : list Rule) :
  r ∈ l -> S (copies r (deleteFirst r l)) = copies r l.
Proof.
  unfold copies. induction l as [|x l IH]; intros Hin.
  - by apply elem_of_nil in Hin.
  - cbn [deleteFirst]. destruct (decide (x = r)) as [->|Hne].
    + by rewrite count_occ_cons_eq.
    + rewrite !count_occ_cons_neq by done. apply IH.
      apply elem_of_cons in Hin as [Heq|Hin]; [congruence | done].
Qed.

(** The [while] loop ends because each [--delete] removes one copy. *)
Equations? remove_rule_from_chain (c : Config) (ch : Chain) (t : Table) : Table
  by wf (copies (redirect c) (t ch)) lt :=
  remove_rule_from_chain c ch t with inspect (fst (iptables_cmd c check ch t)) := {
    | exist _ true found => remove_rule_from_chain c ch (snd (iptables_cmd c delete ch t));
    | exist _ false _ => t }.
Proof.
  cbn in found. apply bool_decide_eq_true in found.
  rewrite bool_decide_true by done. cbn [snd]. rewrite setChain_same.
  pose proof (copies_deleteFirst _ _ found). lia.
Qed.

Definition enable (c : Config) (t : Table) : Table :=
  add_rule_to_chain c PREROUTING (add_rule_to_chain c OUTPUT t).

Definition disable (c : Config) (t : Table) : Table :=
  remove_rule_from_chain c PREROUTING (remove_rule_from_chain c OUTPUT t).

End Moproxy.

(** The names [downloadKuberlr] computes, for reference in statements. *)

Definition kuberlrBaseURL : string :=
  "https://github.com/flavio/kuberlr/releases/download/v0.4.2".

Definition kuberlrPlatformDir (context : DownloadContext) (arch : string) : string :=
  "kuberlr_0.4.2_" +:+ KubePlatform_str (kubePlatform context) +:+ "_" +:+ arch.

Definition kuberlrArchiveURL (context : DownloadContext) (arch : string) : string :=
  kuberlrBaseURL +:+ "/" +:+ kuberlrPlatformDir context arch +:+
  (if JS.startsWith (KubePlatform_str (kubePlatform context)) "win" then ".zip" else ".tar.gz").

(** [downloadFunc]: the downloader for the archive format of the platform. *)
Definition archiveDownloader (context : DownloadContext) : Downloader :=
  if JS.startsWith (Platform_str (platform context)) "win" then downloadZip else downloadTarGZ.

Definition kuberlrOptions (context : DownloadContext) (arch line : string) : DownloadOptions :=
  {| expectedChecksum := Some (JS.item0 (JS.splitSpaces line));
     checksumAlgorithm := None;
     entryName := Some (kuberlrPlatformDir context arch +:+ "/" +:+ exeName context "kuberlr");
     access := None |}.

(** The names [downloadRancherDashboard] computes. *)

Definition rancherDashboardURL : string :=
  "https://github.com/rancher-sandbox/dashboard/releases/download/desktop-v2.6.3.beta.12/"
  +:+ "rancher-dashboard-desktop-embed.tar.gz".

Definition rancherDashboardDir (h : Host) : string :=
  path_join h [path_join h [process_cwd h; "resources"]; "rancher-dashboard"].

Definition rancherDashboardArchive (h : Host) : string :=
  path_join h [path_join h [process_cwd h; "resources"]; "rancher-dashboard.tgz"].

Definition rancherDashboardOptions (sum : string) : DownloadOptions :=
  {| expectedChecksum := Some sum; checksumAlgorithm := Some "sha512";
     entryName := None; access := Some W_OK |}.

(** The names [downloadDockerBuildx] computes. *)

Definition buildxURLBase : string := "https://github.com/docker/buildx/releases/download/v0.8.2".

Definition buildxExecutable (h : Host) (context : DownloadContext) : string :=
  exeName context ("buildx-v0.8.2." +:+ KubePlatform_str (kubePlatform context) +:+ "-"
                   +:+ onM1 h "arm64" "amd64").

Definition buildxURL (h : Host) (context : DownloadContext) : string :=
  buildxURLBase +:+ "/" +:+ buildxExecutable h context.

Definition buildxPath (h : Host) (context : DownloadContext) : string :=
  path_join h [binDir context; exeName context "docker-buildx"].

(** The URL of the managed [kubectl] for a version and an architecture. *)
Definition kubectlURL (context : DownloadContext) (kubeVersion arch : string) : string :=
  "https://dl.k8s.io/" +:+ kubeVersion +:+ "/bin/" +:+ KubePlatform_str (kubePlatform context)
  +:+ "/" +:+ arch +:+ "/" +:+ exeName context "kubectl".

(** ** Reading traces *)

Definition Request : Type := Downloader * string * string * DownloadOptions.

(** The downloads a trace asks for, oldest first. *)
Fixpoint downloadsOf (tr : list Event) : list Request :=
  match tr with
  | [] => []
  | EvDownload via url dest options :: rest => (via, url, dest, options) :: downloadsOf rest
  | _ :: rest => downloadsOf rest
  end.

Definition requestOptions (r : Request) : DownloadOptions := snd r.

Definition requestUrl (r : Request) : string := snd (fst (fst r)).

(** A download that carries an expected checksum; other events pass. *)
Definition verifiedEvent (e : Event) : Prop :=
  match e with
  | EvDownload _ _ _ options => is_Some (expectedChecksum options)
  | _ => True
  end.

(** The two downloads [downloadKuberlrAndKubectl] may ask for: the [amd64]
    archive of kuberlr, and the [kubectl] binary of some version for the
    architecture that [M1] selects. *)
Definition kuberlrOrKubectl (h : Host) (context : DownloadContext) (r : Request) : Prop :=
  let '(via, url, _, _) := r in
  (via = archiveDownloader context /\ url = kuberlrArchiveURL context "amd64") \/
  (via = download /\
   exists kubeVersion, url = kubectlURL context kubeVersion (onM1 h "arm64" "amd64")).

Definition onDownloads (P : Request -> Prop) (e : Event) : Prop :=
  match e with
  | EvDownload via url dest options => P (via, url, dest, options)
  | _ => True
  end.

(** The events [m] adds when it runs from [w]. *)
Definition emitted {A} (m : M A) (w : World) : list Event :=
  drop (length (trace w)) (trace (snd (m w))).

(** [emitsOnly P m]: whatever the world, the events [m] adds to the trace
    all satisfy [P]. *)
Definition emitsOnly {A} (P : Event -> Prop) (m : M A) : Prop :=
  forall w, exists l, trace (snd (m w)) = trace w ++ l /\ Forall P l.

(** The world [w'] comes after [w]: its trace is the trace of [w] and
    further events, all of which satisfy [P]. *)
Definition extends (P : Event -> Prop) (w w' : World) : Prop :=
  exists l, trace w' = trace w ++ l /\ Forall P l.


Definition opEmitsOnly (P : Event -> Prop) {X} (op : Op X) : Prop :=
  (forall e, announce op = Some e -> P e) /\ emitsOnly P (complete op).

Inductive asyncEmitsOnly (P : Event -> Prop) {A} : Async A -> Prop :=
| emits_return (r : result A) : asyncEmitsOnly P (Return r)
| emits_sync {X} (m : M X) (k : result X -> Async A) :
    emitsOnly P m -> (forall r, asyncEmitsOnly P (k r)) -> asyncEmitsOnly P (Sync m k)
| emits_await {X} (op : Op X) (k : result X -> Async A) :
    opEmitsOnly P op -> (forall r, asyncEmitsOnly P (k r)) -> asyncEmitsOnly P (Await op k)
| emits_awaitAll {X} (ops : list (Op X)) (k : result (list X) -> Async A) :
    Forall (opEmitsOnly P) ops -> (forall r, asyncEmitsOnly P (k r)) ->
    asyncEmitsOnly P (AwaitAll ops k).

Definition slotEmitsOnly (P : Event -> Prop) {X} (s : Slot X) : Prop :=
  match s with
  | InFlight finish => emitsOnly P finish
  | Arrived _ => True
  end.

Inductive taskEmitsOnly (P : Event -> Prop) {A} : Task A -> Prop :=
| emits_settled (r : result A) : taskEmitsOnly P (Settled r)
| emits_waiting {X} (finish : M X) (k : result X -> Async A) :
    emitsOnly P finish -> (forall r, asyncEmitsOnly P (k r)) -> taskEmitsOnly P (Waiting finish k)
| emits_waitingAll {X} (slots : list (Slot X)) (k : result (list X) -> Async A) :
    Forall (slotEmitsOnly P) slots -> (forall r, asyncEmitsOnly P (k r)) ->
    taskEmitsOnly P (WaitingAll slots k).

(** A promise for one operation that leaves the trace alone when it
    completes, as a download does. *)
Inductive quiet {A} : Task A -> Prop :=
| quiet_settled (r : result A) : quiet (Settled r)
| quiet_waiting (finish : M A) :
    (forall w, trace (snd (finish w)) = trace w) -> quiet (Waiting finish Return).

(** The world after the last step, [symlink], run on the entries [m]. *)
Definition linked (h : Host) (b : string) (m : gmap string Node) (tr : list Event)
    : result unit * World :=
  (fst (symlinkAt h "kuberlr" b m), {| fs := snd (symlinkAt h "kuberlr" b m); trace := tr |}).

(** ** The candidates of [findHome], as the specification lists them

    [os.homedir()], then [$HOME], then, for Windows only, [$USERPROFILE] and
    [$HOMEDRIVE] joined with [$HOMEPATH]; a candidate that is not set is
    left out. *)

Definition spec_homeCandidates (h : Host) (onWindows : bool) : list string :=
  let env := process_env h in
  (if JS.nonEmpty (os_homedir h) then [os_homedir h] else []) ++
  (if JS.truthy (env "HOME") then [JS.value (env "HOME")] else []) ++
  (if onWindows then
     (if JS.truthy (env "USERPROFILE") then [JS.value (env "USERPROFILE")] else []) ++
     (if JS.truthy (env "HOMEDRIVE") && JS.truthy (env "HOMEPATH") then
        [path_join h [JS.value (env "HOMEDRIVE"); JS.value (env "HOMEPATH")]]
      else [])
   else []).

Definition spec_findHome (h : Host) (onWindows : bool) : result string :=
  match List.find (fs_access h) (spec_homeCandidates h onWindows) with
  | Some p => Ok p
  | None => Err "Failed to find home directory"
  end.

(** ** Sample hosts and worlds *)

Definition posixJoin (parts : list string) : string := String.concat "/" parts.

(** The part of a path before its last [/], if it has one. *)
Fixpoint beforeLastSlash (s : string) : option string :=
  match s with
  | "" => None
  | String c rest =>
      match beforeLastSlash rest with
      | Some d => Some (String c d)
      | None => if Ascii.eqb c "/" then Some "" else None
      end
  end.

Definition posixDirname (path : string) : string :=
  match beforeLastSlash path with
  | Some "" => "/"
  | Some d => d
  | None => "."
  end.

Definition posixResolve (from to : string) : string :=
  if String.prefix "/" to then to else posixJoin [from; to].

Definition world0 : World := {| fs := ∅; trace := [] |}.

Definition noEnv : string -> option string := fun _ => None.

Definition envM1 : string -> option string :=
  fun name => if String.eqb name "M1" then Some "1" else None.

(** One operation of each promise of an array in turn, and round again. *)
Definition inTurn : list (nat * nat) :=
  concat (replicate 16
    [(0, 0); (1, 0); (2, 0); (3, 0); (4, 0); (5, 0); (6, 0); (7, 0); (8, 0); (8, 1); (9, 0)]).

(** A host whose downloader writes the URL as the content of the file,
    whose [tar] does nothing and which completes the operations in flight in
    turn. *)
Definition sampleHost (osName : string) (env : string -> option string)
    (net : string -> result string) : Host :=
  {| os_platform := osName;
     os_homedir := "/home/user";
     os_symloop_max := 40;
     process_env := env;
     process_cwd := "/src";
     path_join := posixJoin;
     path_dirname := posixDirname;
     path_resolve := posixResolve;
     fs_access := fun p => String.eqb p "/home/user";
     getResource := net;
     fetch := fun _ url dest _ m => (Ok dest, <[dest := File url]> m);
     fs_copyFile := fun src dest m =>
       match m !! src with
       | Some (File c) => (Ok tt, <[dest := File c]> m)
       | _ => (Err enoent, m)
       end;
     spawnSync := fun _ _ _ m => m;
     completions := inTurn |}.

(** The same host, completing operations in another order. *)
Definition completing (order : list (nat * nat)) (h : Host) : Host :=
  {| os_platform := os_platform h;
     os_homedir := os_homedir h;
     os_symloop_max := os_symloop_max h;
     process_env := process_env h;
     process_cwd := process_cwd h;
     path_join := path_join h;
     path_dirname := path_dirname h;
     path_resolve := path_resolve h;
     fs_access := fs_access h;
     getResource := getResource h;
     fetch := fetch h;
     fs_copyFile := fs_copyFile h;
     spawnSync := spawnSync h;
     completions := order |}.

Definition offline : string -> result string := fun _ => Err "getaddrinfo ENOTFOUND".

Definition serving (body : string) : string -> result string := fun _ => Ok body.

Definition newline : string := String "010" "".

Definition sampleContext (p : Platform) : DownloadContext :=
  {| dependencyPlaform :=
       match p with linux => dp_linux | darwin => dp_darwin | win32 => dp_win32 end;
     platform := p;
     kubePlatform := getKubePlatform p;
     binDir := "/src/resources/bin";
     internalDir := "/src/resources/internal" |}.

Definition sampleVersions : DependencyVersions :=
  {| helm := "3.9.1"; dockerCLI := "v20.10.17"; ECRCredenialHelper := "0.6.0" |}.

(** A network on which the checksum file of Steve and the version file of
    Kubernetes cannot be had, and every other file is one manifest with a
    line for the kuberlr archive, the Docker CLI, Buildx, Compose and Trivy. *)
Definition twoOutages : string -> result string :=
  fun url =>
    if String.eqb url "https://dl.k8s.io/release/stable.txt" then Err "stable.txt is down"
    else if String.eqb url
              ("https://github.com/rancher-sandbox/rancher-desktop-steve/releases/download/"
               +:+ "v0.1.0-beta8/steve-linux-amd64.tar.gz.sha512sum")
    then Err "the checksums of steve are down"
    else Ok (String.concat (String "010" "")
               ["5f2a  kuberlr_0.4.2_linux_amd64.tar.gz";
                "61c0  docker-linux-amd64";
                "7d1e  buildx-v0.8.2.linux-amd64";
                "8e2f  docker-compose-linux-x86_64";
                "9f30  trivy_0.30.0_Linux-64bit.tar.gz"]).

(** A world in which the directories of [sampleContext] have been made. *)
Definition directoriesMade : World :=
  {| fs := {[ "/src/resources/bin" := Dir; "/src/resources/internal" := Dir ]}; trace := [] |}.

(** A world in which the dashboard has been unpacked already. *)
Definition dashboardPresent : World :=
  {| fs := {[ "/src/resources/rancher-dashboard" := Dir ]}; trace := [] |}.

(** The first white-space-delimited token of a manifest line, as the
    specification words it: the leading run of code units that are not
    white space. *)
Fixpoint spec_firstToken (s : string) : string :=
  match s with
  | "" => ""
  | String c rest => if JS.isSpace c then "" else String c (spec_firstToken rest)
  end.

(** ** The service variables of the [moproxy] init script

    OpenRC sources the configuration file and the environment into shell
    variables, then the script fills in what is missing.  [${X:-d}] is the
    value of [X] when it is set and not empty, and [d] otherwise;
    [: ${x:=d}] assigns [d] to [x] under the same condition. *)

Module MoproxyService.

Definition Shell : Type := string -> option string.

(** [${name:-fallback}] *)
Definition orDefault (sh : Shell) (name fallback : string) : string :=
  match sh name with
  | Some v => if JS.nonEmpty v then v else fallback
  | None => fallback
  end.

(** [: ${var:=${ENV:-fallback}}], read back as [${var}] *)
Definition assigned (sh : Shell) (var ENV fallback : string) : string :=
  orDefault sh var (orDefault sh ENV fallback).

Definition host (sh : Shell) : string := assigned sh "host" "MOPROXY_HOST" "::".
Definition port (sh : Shell) : string := assigned sh "port" "MOPROXY_PORT" "2080".
Definition proxy_list (sh : Shell) : string :=
  assigned sh "proxy_list" "MOPROXY_PROXYLIST" "/etc/moproxy/proxy.ini".
Definition moproxy_args (sh : Shell) : string := assigned sh "moproxy_args" "MOPROXY_ARGS" "".
Definition moproxy_remotedns (sh : Shell) : string :=
  assigned sh "moproxy_remotedns" "MOPROXY_REMOTE_DNS" "--remote-dns".
Definition ports_redirected (sh : Shell) : string :=
  assigned sh "ports_redirected" "MOPROXY_REDIRECTED_PORT" "80,443".

Definition command (sh : Shell) : string :=
  "'" +:+ orDefault sh "MOPROXY_BINARY" "/usr/sbin/moproxy" +:+ "'".

Definition command_args (sh : Shell) : string :=
  "--host " +:+ host sh +:+ " --port " +:+ port sh +:+ " " +:+ moproxy_remotedns sh
  +:+ " --list " +:+ proxy_list sh +:+ " " +:+ moproxy_args sh.

(** The two variables [iptables_cmd] reads. *)
Definition config (sh : Shell) : Moproxy.Config :=
  {| Moproxy.ports_redirected := ports_redirected sh; Moproxy.port := port sh |}.

(** [start_post] and [stop_pre] *)
Definition start_post (sh : Shell) (t : Moproxy.Table) : Moproxy.Table :=
  Moproxy.enable (config sh) t.

Definition stop_pre (sh : Shell) (t : Moproxy.Table) : Moproxy.Table :=
  Moproxy.disable (config sh) t.

End MoproxyService.

(** ** [apify_arg] of the test helpers

    The helper runs a Perl program on its first argument and yields what
    the program prints.  The argument is a byte string, so [\w] is an ASCII
    letter, digit or underscore and [\U] upper-cases ASCII letters. *)

Module Perl.

Definition between (lo hi : nat) (c : ascii) : bool :=
  (lo <=? nat_of_ascii c)%nat && (nat_of_ascii c <=? hi)%nat.

(** [\w] *)
Definition isWord (c : ascii) : bool :=
  between 48 57 c || between 65 90 c || Ascii.eqb c "_" || between 97 122 c.

(** [\U] on one character *)
Definition uc (c : ascii) : ascii :=
  if between 97 122 c then ascii_of_nat (nat_of_ascii c - 32) else c.

(** [split /=/, $arg, 2]: the text before the first [=], and the text after
    it when there is one.  The empty string splits into nothing; the
    undefined name then prints as the empty string. *)
Fixpoint splitEq (s : string) : string * option string :=
  match s with
  | "" => ("", None)
  | String c rest =>
      if Ascii.eqb c "=" then ("", Some rest)
      else let '(name, value) := splitEq rest in (String c name, value)
  end.

(** [s/(\w)-(\w)/$1\U$2/g]: matches are taken from left to right and do
    not overlap. *)
Fixpoint camel (s : string) : string :=
  match s with
  | "" => ""
  | String a t =>
      match t with
      | String "-" (String b rest) =>
          if isWord a && isWord b then String a (String (uc b) (camel rest))
          else String a (camel t)
      | _ => String a (camel t)
      end
  end.

Fixpoint dropChars (n : nat) (s : string) : string :=
  match n, s with
  | S n', String _ rest => dropChars n' rest
  | _, _ => s
  end.

(** [s/pattern/replacement/] for a literal pattern: the first occurrence. *)
Fixpoint substFirst (pattern replacement s : string) : string :=
  if String.prefix pattern s then replacement +:+ dropChars (String.length pattern) s
  else
    match s with
    | "" => ""
    | String c rest => String c (substFirst pattern replacement rest)
    end.

(** Truth of a scalar: defined, and neither empty nor the string [0]. *)
Definition isTrue (v : option string) : bool :=
  match v with
  | Some s => negb (String.eqb s "") && negb (String.eqb s "0")
  | None => false
  end.

(** The body of the [if (/^--/)] block. *)
Definition apiName (name : string) : string :=
  substFirst "--wsl" "--WSL"
    (substFirst "numberCpus" "numberCPUs"
       (substFirst "memoryInGb" "memoryInGB" (camel name))).

Definition apify_arg (arg : string) : string :=
  let '(name, value) := splitEq arg in
  let name := if String.prefix "--" name then apiName name else name in
  name +:+ (if isTrue value then "=" +:+ JS.value value else "").

(** What the conversion keeps of a name: its characters other than [-],
    without regard to case. *)
Definition lc (c : ascii) : ascii :=
  if between 65 90 c then ascii_of_nat (nat_of_ascii c + 32) else c.

Fixpoint letters (s : string) : string :=
  match s with
  | "" => ""
  | String c rest => if Ascii.eqb c "-" then letters rest else String (lc c) (letters rest)
  end.

Fixpoint hasChar (c : ascii) (s : string) : bool :=
  match s with
  | "" => false
  | String c' rest => Ascii.eqb c' c || hasChar c rest
  end.

End Perl.

(** ** Polling and provisioning in the test helpers *)

Module Bats.

(** One answer of [rdctl api /extensions]: its exit status and the
    [.message] field of what it printed. *)
Record Response := {
  status : nat;
  message : string
}.

Inductive Step :=
| Api
| Sleep (seconds : nat)
| Trace (text : string).

(** How the helper ends: it returns, or an assertion fails and, under the
    [errexit] of a test, ends the test. *)
Inductive Ending :=
| Returned
| AssertionFailed (output : string).

(** The [while true] loop with [count] failed calls behind it; [api k] is
    the answer to the call number [k] and [limit] stands for [max].  The
    loop ends because [count] grows towards the limit. *)
Equations? poll (api : nat -> Response) (limit count : nat) : Ending * nat * list Step
  by wf (limit - count) lt :=
  poll api limit count
    with inspect ((status (api count) =? 0)%nat || (limit <=? S count)%nat) := {
    | exist _ true _ =>
        (Returned, if (status (api count) =? 0)%nat then count else S count, [Api]);
    | exist _ false more with String.eqb (message (api count)) "503 Service Unavailable" := {
        | true with poll api limit (S count) := {
            | (ending, final, steps) => (ending, final, Api :: Sleep 10 :: steps) };
        | false => (AssertionFailed (message (api count)), S count, [Api]) } }.
Proof.
  apply orb_false_elim in more as [_ more]. apply Nat.leb_gt in more. lia.
Qed.

Definition max : nat := 30.

Definition wait_for_extension_manager (api : nat -> Response) : Ending * list Step :=
  let '(ending, count, steps) := poll api max 0 in
  match ending with
  | Returned =>
      (Returned,
       Trace "waiting for extension manager to be ready" :: steps ++
       [Trace (JS.showNat count +:+ "/" +:+ JS.showNat max +:+ " tries: wait_for_extension_manager")])
  | AssertionFailed o =>
      (AssertionFailed o, Trace "waiting for extension manager to be ready" :: steps)
  end.

Definition calls (steps : list Step) : nat :=
  length (List.filter (fun s => match s with Api => true | _ => false end) steps).

Fixpoint slept (steps : list Step) : nat :=
  match steps with
  | [] => 0
  | Sleep n :: rest => n + slept rest
  | _ :: rest => slept rest
  end.

(** Lines as [sed] reads them: the pieces between line feeds, a final line
    feed ending the last line instead of starting another. *)
Fixpoint splitLF (cur s : string) : list string :=
  match s with
  | "" => [cur]
  | String c rest =>
      if Ascii.eqb c "010" then cur :: splitLF "" rest
      else splitLF (JS.snoc cur c) rest
  end.

Definition sedLines (s : string) : list string :=
  let pieces := splitLF "" s in
  match last pieces with
  | Some "" => removelast pieces
  | _ => pieces
  end.

(** [$(sed 's/^/    /')]: each line with four spaces before it, the lines
    joined by line feeds; the substitution drops the final line feeds. *)
Definition indented (script : string) : string :=
  String.concat newline (map (fun line => "    " +:+ line) (sedLines script)).

(** The here-document written to [override.yaml]. *)
Definition override_yaml (script : string) : string :=
  "provision:" +:+ newline +:+ "- mode: system" +:+ newline +:+ "  script: |" +:+ newline
  +:+ indented script +:+ newline.

(** The write [provisioning_script] performs once [mkdir -p] has made the
    directory: the file, and what [cat] puts into it. *)
Definition provisioning_script (is_windows : bool) (PATH_APP_HOME LIMA_HOME stdin : string)
    : string * string :=
  if is_windows then (PATH_APP_HOME +:+ "/provisioning/bats.start", stdin)
  else (LIMA_HOME +:+ "/_config/override.yaml", override_yaml stdin).

End Bats.

(** ** Further names used in statements *)

(** Every code unit of [s] passes [p]. *)
Fixpoint allChars (p : ascii -> bool) (s : string) : bool :=
  match s with
  | "" => true
  | String c rest => p c && allChars p rest
  end.

(** No white space in [s]. *)
Definition noSpace (s : string) : bool := allChars (fun c => negb (JS.isSpace c)) s.

(** A manifest line as it stands between two line ends: neither a carriage
    return nor a line feed in it. *)
Definition plainLine (s : string) : bool :=
  allChars (fun c => negb (Ascii.eqb c "010") && negb (Ascii.eqb c "013")) s.

Definition crlf : string := String "013" (String "010" "").

(** No line feed in [s]. *)
Definition noLF (s : string) : bool := allChars (fun c => negb (Ascii.eqb c "010")) s.

(** The names [downloadHelm] computes. *)
Definition helmURL (h : Host) (context : DownloadContext) (version : string) : string :=
  "https://get.helm.sh/helm-v" +:+ version +:+ "-" +:+ KubePlatform_str (kubePlatform context)
  +:+ "-" +:+ onM1 h "arm64" "amd64" +:+ ".tar.gz".

Definition helmOptions (h : Host) (context : DownloadContext) (sum : string) : DownloadOptions :=
  {| expectedChecksum := Some sum;
     checksumAlgorithm := None;
     entryName := Some (KubePlatform_str (kubePlatform context) +:+ "-" +:+ onM1 h "arm64" "amd64"
                        +:+ "/" +:+ exeName context "helm");
     access := None |}.

(** The request [downloadDockerProvidedCredHelpers] makes for one helper. *)
Definition credHelperRequest (h : Host) (context : DownloadContext) (baseName : string) : Event :=
  EvDownload (archiveDownloader context)
    ("https://github.com/docker/docker-credential-helpers/releases/download/v0.6.4/"
     +:+ baseName +:+ "-v0.6.4-" +:+ onM1 h "arm64" "amd64" +:+ "."
     +:+ (if JS.startsWith (Platform_str (platform context)) "win" then "zip" else "tar.gz"))
    (path_join h [binDir context; exeName context baseName])
    noOptions.

(** The events [downloadKuberlrAndKubectl] is left with when the host is not
    the platform it downloads for. *)
Definition kuberlrOnly (context : DownloadContext) (e : Event) : Prop :=
  match e with
  | EvGetResource url => url = kuberlrBaseURL +:+ "/checksums.txt"
  | EvDownload via url _ _ =>
      via = archiveDownloader context /\ url = kuberlrArchiveURL context "amd64"
  | _ => True
  end.

(** A computation that fails at once, having only asked for [url]. *)
Definition stopsAt {A} (m : M A) (w : World) (url : string) : Prop :=
  exists e, m w = (Err e, logged w (EvGetResource url)).

(** A [download] request whose expected checksum is the whole body the
    network returns for the URL followed by [.sha256]. *)
Definition rawSidecar (h : Host) (e : Event) : Prop :=
  match e with
  | EvDownload download url _ options =>
      exists body, getResource h (url +:+ ".sha256") = Ok body /\ options = checksumOnly body
  | _ => True
  end.

(** ** Promises in progress, for reference in statements *)

(** A promise that has not settled. *)
Definition pending {A} (t : Task A) : Prop :=
  match t with
  | Settled _ => False
  | _ => True
  end.

Definition fulfilled {A} (t : Task A) : Prop := exists a, t = Settled (Ok a).

Definition rejected {A} (t : Task A) : bool :=
  match t with
  | Settled (Err _) => true
  | _ => false
  end.

(** The world [w] with further events noted. *)
Definition logAll (w : World) (l : list Event) : World :=
  {| fs := fs w; trace := trace w ++ l |}.

(** What each top-level fetch asks of the host before its first [await]. *)
Definition firstRequest (h : Host) (context : DownloadContext) (depVersions : DependencyVersions)
    (t : Tool) : list Event :=
  match t with
  | KuberlrAndKubectl => [EvGetResource (kuberlrBaseURL +:+ "/checksums.txt")]
  | Helm => [EvGetResource (helmURL h context (helm depVersions) +:+ ".sha256sum")]
  | DockerCLI =>
      [EvGetResource
         ("https://github.com/rancher-sandbox/rancher-desktop-docker-cli/releases/download/"
          +:+ dockerCLI depVersions +:+ "/sha256sum.txt")]
  | DockerBuildx =>
      match kubePlatform context with
      | kube_darwin => [EvDownload download (buildxURL h context) (buildxPath h context) noOptions]
      | _ => [EvGetResource (buildxURLBase +:+ "/checksums.txt")]
      end
  | DockerCompose =>
      [EvGetResource
         ("https://github.com/docker/compose/releases/download/v2.6.1/"
          +:+ exeName context ("docker-compose-" +:+ KubePlatform_str (kubePlatform context)
                               +:+ "-" +:+ onM1 h "aarch64" "x86_64")
          +:+ ".sha256")]
  | Trivy =>
      [EvGetResource
         "https://github.com/aquasecurity/trivy/releases/download/v0.30.0/trivy_0.30.0_checksums.txt"]
  | Steve =>
      [EvGetResource
         ("https://github.com/rancher-sandbox/rancher-desktop-steve/releases/download/v0.1.0-beta8/"
          +:+ "steve-" +:+ KubePlatform_str (kubePlatform context) +:+ "-"
          +:+ onM1 h "arm64" "amd64" +:+ ".tar.gz.sha512sum")]
  | RancherDashboard => [EvGetResource (rancherDashboardURL +:+ ".sha512sum")]
  | DockerProvidedCredHelpers =>
      map (credHelperRequest h context) (credHelperNames (platform context))
  | ECRCredHelper =>
      [EvDownload download
         ("https://amazon-ecr-credential-helper-releases.s3.us-east-2.amazonaws.com/"
          +:+ ECRCredenialHelper depVersions +:+ "/"
          +:+ match platform context with
              | win32 => "windows"
              | p => Platform_str p
              end
          +:+ "-" +:+ onM1 h "arm64" "amd64" +:+ "/"
          +:+ exeName context "docker-credential-ecr-login")
         (path_join h [binDir context; exeName context "docker-credential-ecr-login"])
         noOptions]
  end.

(** * Properties *)

(** ** Strings *)

Lemma append_cons (c : ascii) (s t : string) : String c s +:+ t = String c (s +:+ t).
Proof. reflexivity. Qed.

Lemma append_empty_l (t : string) : "" +:+ t = t.
Proof. reflexivity. Qed.

Lemma append_empty_r (s : string) : s +:+ "" = s.
Proof. induction s as [|c s IH]; [done | by rewrite append_cons, IH]. Qed.

Lemma append_assoc (a b c : string) : (a +:+ b) +:+ c = a +:+ (b +:+ c).
Proof. induction a as [|x a IH]; [done | by rewrite !append_cons, IH]. Qed.

Lemma length_append (a b : string) :
  String.length (a +:+ b) = String.length a + String.length b.
Proof.
  induction a as [|x a IH]; [done |].
  rewrite append_cons. cbn [String.length]. by rewrite IH.
Qed.

Lemma append_suffix_neq (s t : string) : t <> "" -> s +:+ t <> s.
Proof.
  intros Ht Heq. apply (f_equal String.length) in Heq.
  rewrite length_append in Heq. destruct t; [done | cbn in Heq; lia].
Qed.

Lemma splitSpacesFrom_head (cur s : string) :
  JS.item0 (JS.splitSpacesFrom false cur s) = cur +:+ spec_firstToken s.
Proof.
  revert cur. induction s as [|c s IH]; intros cur;
    cbn [JS.splitSpacesFrom JS.item0 spec_firstToken].
  - by rewrite append_empty_r.
  - destruct (JS.isSpace c); cbn [JS.item0].
    + by rewrite append_empty_r.
    + rewrite IH. unfold JS.snoc. by rewrite append_assoc.
Qed.

Lemma splitSpaces_cons (s : string) : exists p rest, JS.splitSpaces s = p :: rest.
Proof.
  unfold JS.splitSpaces. generalize false, "".
  induction s as [|c s IH]; intros b cur; cbn; [by eauto |].
  destruct (JS.isSpace c); [destruct b|]; eauto.
Qed.

(** Both ways the script takes the first piece of a line agree with the
    specification's token. *)
Lemma first_piece (line : string) :
  JS.item0 (JS.splitSpaces line) = spec_firstToken line /\
  JS.item0 (JS.splitSpacesLimit line 1) = spec_firstToken line.
Proof.
  assert (H : JS.item0 (JS.splitSpaces line) = spec_firstToken line).
  { unfold JS.splitSpaces. by rewrite splitSpacesFrom_head. }
  split; [done |]. unfold JS.splitSpacesLimit.
  destruct (splitSpaces_cons line) as (p & rest & Hs). rewrite Hs in *. done.
Qed.

(** ** Running the monad *)

Lemma bind_ok {A B} (m : M A) (k : A -> M B) (w w' : World) (a : A) :
  m w = (Ok a, w') -> bind m k w = k a w'.
Proof. unfold bind. by intros ->. Qed.

Lemma bind_err {A B} (m : M A) (k : A -> M B) (w w' : World) (e : string) :
  m w = (Err e, w') -> bind m k w = (Err e, w').
Proof. unfold bind. by intros ->. Qed.

Lemma getResourceM_run (h : Host) (url : string) (w : World) :
  getResourceM h url w = (getResource h url, logged w (EvGetResource url)).
Proof. reflexivity. Qed.

Lemma emitted_logged {A} (m : M A) (w : World) (l : list Event) :
  trace (snd (m w)) = trace w ++ l -> emitted m w = l.
Proof. unfold emitted. intros ->. by rewrite drop_app_length. Qed.

(** What [findChecksum] returns, by the number of matching lines. *)
Lemma findChecksum_run (h : Host) (url name : string) (w : World) :
  findChecksum h url name w =
  (match getResource h url with
   | Err e => Err e
   | Ok text =>
       match List.filter (fun line => JS.includes line name) (JS.splitLines text) with
       | [] =>
           Err ("Couldn't find a matching SHA for [" +:+ name +:+ "] in [" +:+ text +:+ "]")
       | [line] => Ok (spec_firstToken line)
       | line :: more =>
           Err ("Matched " +:+ JS.showNat (length (line :: more))
                +:+ " hits, not exactly 1, for " +:+ name +:+ " in [" +:+ text +:+ "]")
       end
   end, logged w (EvGetResource url)).
Proof.
  unfold findChecksum, bind. rewrite getResourceM_run.
  destruct (getResource h url) as [text|e]; [|done].
  destruct (List.filter _ _) as [|line [|line' more]];
    cbn [length Nat.ltb Nat.leb Nat.eqb]; try done.
  unfold ret. cbn [JS.item0]. by rewrite (proj2 (first_piece line)).
Qed.

Lemma downloadKuberlr_run (h : Host) (context : DownloadContext) (arch : string) (w : World) :
  downloadKuberlr h context arch w =
  let w1 := logged w (EvGetResource (kuberlrBaseURL +:+ "/checksums.txt")) in
  match getResource h (kuberlrBaseURL +:+ "/checksums.txt") with
  | Err e => (Err e, w1)
  | Ok text =>
      match List.filter (fun line => JS.includes line (kuberlrPlatformDir context arch))
                        (JS.splitLines text) with
      | [] =>
          (Err ("Couldn't find a matching SHA for [" +:+ kuberlrPlatformDir context arch
                +:+ "] in [" +:+ JS.showArray (JS.splitLines text) +:+ "]"), w1)
      | [line] =>
          downloadVia h (archiveDownloader context) (kuberlrArchiveURL context arch)
            (path_join h [binDir context; exeName context "kuberlr"])
            (kuberlrOptions context arch line) w1
      | line :: more =>
          (Err ("Matched " +:+ JS.showNat (length (line :: more))
                +:+ " hits, not exactly 1, for platform "
                +:+ KubePlatform_str (kubePlatform context) +:+ " in ["
                +:+ JS.showArray (JS.splitLines text) +:+ "]"), w1)
      end
  end.
Proof.
  unfold downloadKuberlr, bind. rewrite getResourceM_run.
  change ("https://github.com/flavio/kuberlr/releases/download/v" +:+ "0.4.2")
    with kuberlrBaseURL.
  change ("kuberlr_" +:+ "0.4.2" +:+ "_" +:+ KubePlatform_str (kubePlatform context)
          +:+ "_" +:+ arch) with (kuberlrPlatformDir context arch).
  cbv zeta.
  destruct (getResource h _) as [text|e]; [|done].
  destruct (List.filter _ _) as [|line [|line' more]]; cbn [length]; try done.
Qed.

Lemma downloadVia_trace (h : Host) (via : Downloader) (url dest : string)
    (options : DownloadOptions) (w : World) :
  trace (snd (downloadVia h via url dest options w)) =
  trace w ++ [EvDownload via url dest options].
Proof.
  unfold downloadVia, bind, emit, onFs. cbn.
  by destruct (fetch h via url dest options (fs w)) as [[p|e] m].
Qed.

Lemma downloadsOf_app (a b : list Event) : downloadsOf (a ++ b) = downloadsOf a ++ downloadsOf b.
Proof.
  induction a as [|e a IH]; [done |].
  destruct e; cbn; by rewrite ?IH.
Qed.

(** ** Executable names *)

(** C8.  [exeName] appends [.exe] exactly when the platform of the context
    starts with [win], which among the platforms is [win32] alone; on the
    other platforms the name is returned as it is. *)
Theorem exeName_suffix_on_windows_only (context : DownloadContext) (name : string) :
  exeName context name =
    (if JS.startsWith (Platform_str (platform context)) "win" then name +:+ ".exe" else name) /\
  (JS.startsWith (Platform_str (platform context)) "win" = true <-> platform context = win32) /\
  (exeName context name = name +:+ ".exe" <-> platform context = win32) /\
  (exeName context name = name <-> platform context <> win32).
Proof.
  unfold exeName.
  assert (Hne : name +:+ ".exe" <> name) by (by apply append_suffix_neq).
  destruct (platform context); cbn [Platform_str]; vm_compute JS.startsWith;
    rewrite ?append_empty_r; repeat split; try done; try congruence.
Qed.

(** ** The home directory *)

(** C7.  [findHome] returns the first path the host can access among the
    candidates that are set, in the order [os.homedir()], [$HOME] and, when
    called for Windows only, [$USERPROFILE], then [$HOMEDRIVE] joined with
    [$HOMEPATH]: every candidate before the one returned is refused by the
    host and the one returned is granted.  It fails, with its one error,
    exactly when the host grants none of them. *)
Theorem findHome_first_accessible_candidate (h : Host) (onWindows : bool) :
  findHome h onWindows = spec_findHome h onWindows /\
  (forall p, findHome h onWindows = Ok p <->
     exists before after,
       spec_homeCandidates h onWindows = before ++ p :: after /\
       Forall (fun q => fs_access h q = false) before /\
       fs_access h p = true) /\
  (findHome h onWindows = Err "Failed to find home directory" <->
   Forall (fun p => fs_access h p = false) (spec_homeCandidates h onWindows)) /\
  (isOk (findHome h onWindows) = true <->
   Exists (fun p => fs_access h p = true) (spec_homeCandidates h onWindows)).
Proof.
  assert (Heq : findHome h onWindows = spec_findHome h onWindows).
  { unfold findHome, spec_findHome, spec_homeCandidates, tryAccess.
    destruct (JS.nonEmpty (os_homedir h)); cbn [andb app List.find];
      [destruct (fs_access h (os_homedir h)); [done|] |];
      (destruct (JS.truthy (process_env h "HOME")); cbn [andb app List.find];
       [destruct (fs_access h (JS.value (process_env h "HOME"))); [done|] |];
       (destruct onWindows; [|done];
        destruct (JS.truthy (process_env h "USERPROFILE")); cbn [andb app List.find];
        [destruct (fs_access h (JS.value (process_env h "USERPROFILE"))); [done|] |];
        (destruct (JS.truthy (process_env h "HOMEDRIVE") && JS.truthy (process_env h "HOMEPATH"));
         cbn [app List.find]; [|done];
         by destruct (fs_access h (path_join h _))))). }
  rewrite Heq. unfold spec_findHome.
  induction (spec_homeCandidates h onWindows) as [|p l IH]; cbn [List.find].
  - refine (conj eq_refl (conj _ (conj _ _))).
    + intros p. split; [done |]. intros (before & after & Hl & _). by destruct before.
    + split; [intros _; constructor | done].
    + cbn. split; [done | by intros ?%Exists_nil].
  - destruct (fs_access h p) eqn:Hp.
    + refine (conj eq_refl (conj _ (conj _ _))).
      * intros q. split.
        -- intros [= <-]. by exists [], l.
        -- intros (before & after & Hl & Hbefore & Hq). destruct before as [|b before].
           ++ by injection Hl as -> _.
           ++ injection Hl as <- _. apply Forall_cons in Hbefore as [Hb _]. congruence.
      * split; [done |]. intros HF. apply Forall_cons in HF as [HF _]. congruence.
      * split; [intros _; by constructor | done].
    + destruct IH as (_ & IH0 & IH1 & IH2). refine (conj eq_refl (conj _ (conj _ _))).
      * intros q. rewrite IH0. split.
        -- intros (before & after & -> & Hbefore & Hq). exists (p :: before), after.
           split; [done |]. split; [by constructor | done].
        -- intros (before & after & Hl & Hbefore & Hq). destruct before as [|b before].
           ++ injection Hl as -> _. congruence.
           ++ injection Hl as <- ->. apply Forall_cons in Hbefore as [_ Hbefore].
              by exists before, after.
      * rewrite IH1, Forall_cons. tauto.
      * rewrite IH2, Exists_cons. split; [tauto | intros [|]; [congruence | done]].
Qed.

(** ** Checksum manifests *)



(** C5.  With the one-line manifest of the scenario the checksum is the
    token [abc123]; with two lines that name the target, and in general with
    two or more, [findChecksum] fails and its message states how many lines
    matched. *)
Theorem findChecksum_scenario (h : Host) (url : string) (w : World) :
  (getResource h url = Ok "abc123  foo-linux-amd64.tar.gz" ->
   fst (findChecksum h url "foo-linux-amd64.tar.gz" w) = Ok "abc123") /\
  (getResource h url =
     Ok ("abc123  foo-linux-amd64.tar.gz" +:+ newline +:+ "def456  foo-linux-amd64.tar.gz") ->
   fst (findChecksum h url "foo-linux-amd64.tar.gz" w) =
     Err ("Matched 2 hits, not exactly 1, for foo-linux-amd64.tar.gz in ["
          +:+ "abc123  foo-linux-amd64.tar.gz" +:+ newline
          +:+ "def456  foo-linux-amd64.tar.gz" +:+ "]")) /\
  (forall name text line1 line2 more,
     getResource h url = Ok text ->
     List.filter (fun line => JS.includes line name) (JS.splitLines text)
       = line1 :: line2 :: more ->
     fst (findChecksum h url name w) =
       Err ("Matched " +:+ JS.showNat (2 + length more) +:+ " hits, not exactly 1, for "
            +:+ name +:+ " in [" +:+ text +:+ "]")).
Proof.
  repeat split.
  - intros H. rewrite findChecksum_run, H. reflexivity.
  - intros H. rewrite findChecksum_run, H. reflexivity.
  - intros name text line1 line2 more H Hhits. rewrite findChecksum_run, H, Hhits. reflexivity.
Qed.

Lemma findChecksum_scenario_witness :
  fst (findChecksum (sampleHost "linux" noEnv (serving "abc123  foo-linux-amd64.tar.gz"))
         "https://example.org/checksums.txt" "foo-linux-amd64.tar.gz" world0) = Ok "abc123" /\
  fst (findChecksum
         (sampleHost "linux" noEnv
            (serving ("abc123  foo-linux-amd64.tar.gz" +:+ newline
                      +:+ "def456  foo-linux-amd64.tar.gz")))
         "https://example.org/checksums.txt" "foo-linux-amd64.tar.gz" world0) =
    Err ("Matched 2 hits, not exactly 1, for foo-linux-amd64.tar.gz in ["
         +:+ "abc123  foo-linux-amd64.tar.gz" +:+ newline
         +:+ "def456  foo-linux-amd64.tar.gz" +:+ "]").
Proof.
  split.
  - apply (proj1 (findChecksum_scenario _ _ _)). reflexivity.
  - apply (proj1 (proj2 (findChecksum_scenario _ _ _))). reflexivity.
Defined.

(** ** What a computation may emit

    The rules for [emitsOnly] follow the structure of the monad, so that a
    property of every request of a function is proved by walking through
    its body. *)

Create HintDb emits.

Lemma emitsOnly_forall {A} (P : Event -> Prop) (m : M A) (w : World) :
  emitsOnly P m -> Forall P (emitted m w).
Proof.
  intros Hm. destruct (Hm w) as (l & Hl & HP).
  by rewrite (emitted_logged m w l Hl).
Qed.

Lemma emitsOnly_silent {A} (P : Event -> Prop) (m : M A) :
  (forall w, trace (snd (m w)) = trace w) -> emitsOnly P m.
Proof. intros H w. exists []. rewrite app_nil_r. by split. Qed.

Lemma emitsOnly_ret {A} (P : Event -> Prop) (a : A) : emitsOnly P (ret a).
Proof. by apply emitsOnly_silent. Qed.

Lemma emitsOnly_throw {A} (P : Event -> Prop) (e : string) : emitsOnly P (@throw A e).
Proof. by apply emitsOnly_silent. Qed.

Lemma emitsOnly_liftResult {A} (P : Event -> Prop) (r : result A) : emitsOnly P (liftResult r).
Proof. by apply emitsOnly_silent. Qed.

Lemma emitsOnly_lstat (P : Event -> Prop) (p : string) : emitsOnly P (lstat p).
Proof. apply emitsOnly_silent. intros w. unfold lstat. by destruct (fs w !! p). Qed.

Lemma emitsOnly_readlink (P : Event -> Prop) (p : string) : emitsOnly P (readlink p).
Proof.
  apply emitsOnly_silent. intros w. unfold readlink. by destruct (fs w !! p) as [[]|].
Qed.

Lemma emitsOnly_existsSync (P : Event -> Prop) (h : Host) (p : string) :
  emitsOnly P (existsSync h p).
Proof. by apply emitsOnly_silent. Qed.

Lemma emitsOnly_onFs {A} (P : Event -> Prop)
    (f : gmap string Node -> result A * gmap string Node) : emitsOnly P (onFs f).
Proof. apply emitsOnly_silent. intros w. unfold onFs. by destruct (f (fs w)). Qed.

Lemma emitsOnly_emit (P : Event -> Prop) (e : Event) : P e -> emitsOnly P (emit e).
Proof. intros He w. exists [e]. split; [done | by constructor]. Qed.

Lemma emitsOnly_bind {A B} (P : Event -> Prop) (m : M A) (k : A -> M B) :
  emitsOnly P m -> (forall a, emitsOnly P (k a)) -> emitsOnly P (bind m k).
Proof.
  intros Hm Hk w. unfold bind. destruct (Hm w) as (l & Hl & HP).
  destruct (m w) as [[a|e] w1]; cbn [snd] in *.
  - destruct (Hk a w1) as (l' & Hl' & HP'). exists (l ++ l').
    rewrite Hl', Hl, app_assoc. split; [done | by apply Forall_app].
  - by exists l.
Qed.

Lemma emitsOnly_tryCatch {A} (P : Event -> Prop) (m handler : M A) :
  emitsOnly P m -> emitsOnly P handler -> emitsOnly P (tryCatch m handler).
Proof.
  intros Hm Hh w. unfold tryCatch. destruct (Hm w) as (l & Hl & HP).
  destruct (m w) as [[a|e] w1]; cbn [snd] in *.
  - by exists l.
  - destruct (Hh w1) as (l' & Hl' & HP'). exists (l ++ l').
    rewrite Hl', Hl, app_assoc. split; [done | by apply Forall_app].
Qed.

Lemma emitsOnly_void {A} (P : Event -> Prop) (m : M A) : emitsOnly P m -> emitsOnly P (void m).
Proof. intros Hm. apply emitsOnly_bind; [done | intros; apply emitsOnly_ret]. Qed.

#[global] Hint Resolve emitsOnly_ret emitsOnly_throw emitsOnly_liftResult emitsOnly_lstat
  emitsOnly_readlink emitsOnly_existsSync emitsOnly_onFs emitsOnly_void : emits.

Ltac emits_step :=
  first
    [ apply emitsOnly_bind; [|intros ?]
    | apply emitsOnly_tryCatch
    | apply emitsOnly_void
    | apply emitsOnly_emit
    | solve [auto with emits] ].

Lemma emitsOnly_getResourceM (P : Event -> Prop) (h : Host) (url : string) :
  P (EvGetResource url) -> emitsOnly P (getResourceM h url).
Proof. intros HP. unfold getResourceM. repeat emits_step; done. Qed.

Lemma emitsOnly_downloadVia (P : Event -> Prop) (h : Host) (via : Downloader)
    (url dest : string) (options : DownloadOptions) :
  P (EvDownload via url dest options) -> emitsOnly P (downloadVia h via url dest options).
Proof. intros HP. unfold downloadVia. repeat emits_step; done. Qed.

Lemma emitsOnly_findChecksum (P : Event -> Prop) (h : Host) (url name : string) :
  P (EvGetResource url) -> emitsOnly P (findChecksum h url name).
Proof.
  intros HP. unfold findChecksum. apply emitsOnly_bind; [by apply emitsOnly_getResourceM |].
  intros text. repeat case_match; auto with emits.
Qed.

Ltac walk :=
  repeat first
    [ apply emitsOnly_bind; [|intros ?]
    | apply emitsOnly_tryCatch
    | apply emitsOnly_void
    | apply emitsOnly_emit
    | apply emitsOnly_getResourceM
    | apply emitsOnly_downloadVia
    | apply emitsOnly_findChecksum
    | solve [auto with emits]
    | progress unfold rm, symlink, copyFile, mkdirRecursive, spawn, consoleLog
    | case_match ].

Lemma bind_trace_extends {A B} (P : Event -> Prop) (m : M A) (k : A -> M B) (w : World) :
  (forall a, emitsOnly P (k a)) ->
  exists l, trace (snd (bind m k w)) = trace (snd (m w)) ++ l.
Proof.
  intros Hk. unfold bind. destruct (m w) as [[a|e] w1]; cbn [snd].
  - destruct (Hk a w1) as (l & Hl & _). by exists l.
  - exists []. by rewrite app_nil_r.
Qed.

(** ** Binding [kubectl] to [kuberlr] *)

Lemma startsWith_win_false (h : Host) :
  JS.startsWith (os_platform h) "win" = false ->
  forall k b, bindKubectlToKuberlr h k b =
    (do returned <-
       tryCatch
         (do binKubectlStat <- lstat b;
          do linked <-
            (if isSymbolicLink binKubectlStat then
               do actualTarget <- readlink b;
               if String.eqb actualTarget "kuberlr" then ret true
               else
                 consoleLog ("Deleting symlink " +:+ b
                             +:+ " unexpectedly pointing to " +:+ actualTarget) ;;
                 ret false
             else ret false);
          if (linked : bool) then ret true
          else rm b ;; ret false)
         (ret false);
     if (returned : bool) then ret tt
     else symlink h "kuberlr" b).
Proof. intros H k b. unfold bindKubectlToKuberlr. by rewrite H. Qed.

(** The whole behaviour off Windows, by what sits at the [kubectl] path. *)
Lemma bindKubectlToKuberlr_posix (h : Host) (k b : string) (w : World) :
  JS.startsWith (os_platform h) "win" = false ->
  bindKubectlToKuberlr h k b w =
  match fs w !! b with
  | None => linked h b (fs w) (trace w ++ [EvSymlink "kuberlr" b])
  | Some (File _) =>
      linked h b (delete b (fs w)) (trace w ++ [EvRm b; EvSymlink "kuberlr" b])
  | Some Dir => linked h b (fs w) (trace w ++ [EvRm b; EvSymlink "kuberlr" b])
  | Some (Symlink t) =>
      if String.eqb t "kuberlr" then (Ok tt, w)
      else
        linked h b (delete b (fs w))
          (trace w ++
             [EvLog ("Deleting symlink " +:+ b +:+ " unexpectedly pointing to " +:+ t);
              EvRm b; EvSymlink "kuberlr" b])
  end.
Proof.
  intros Hposix. rewrite (startsWith_win_false h Hposix).
  unfold linked, tryCatch, lstat, readlink, rm, rmAt, symlink, consoleLog.
  unfold bind, emit, onFs, ret.
  destruct w as [m tr]. cbn [fs trace].
  destruct (m !! b) as [[c| |t]|] eqn:Hb; cbn [isSymbolicLink fs trace];
    rewrite ?Hb; cbn [fs trace]; rewrite ?Hb; cbn [fs trace].
  - destruct (symlinkAt h "kuberlr" b (delete b m)) as [r m']. by rewrite <- !app_assoc.
  - destruct (symlinkAt h "kuberlr" b m) as [r m']. by rewrite <- !app_assoc.
  - destruct (String.eqb t "kuberlr"); [done |].
    cbn [fs trace]. rewrite ?Hb. cbn [fs trace].
    destruct (symlinkAt h "kuberlr" b (delete b m)) as [r m']. by rewrite <- !app_assoc.
  - by destruct (symlinkAt h "kuberlr" b m) as [r m'].
Qed.

(** [symlink] either fails and changes nothing or puts the link at the path,
    which was free. *)
Lemma symlinkAt_cases (h : Host) (target path : string) (m : gmap string Node) :
  (exists e, symlinkAt h target path m = (Err e, m)) \/
  (m !! path = None /\ symlinkAt h target path m = (Ok tt, <[path := Symlink target]> m)).
Proof.
  unfold symlinkAt.
  destruct (stat h _ m _) as [[| |]|e]; eauto.
  destruct (m !! path); eauto.
Qed.

(** A directory entry is what [stat] finds at its path. *)
Lemma stat_dir (h : Host) (hops : nat) (m : gmap string Node) (path : string) :
  m !! path = Some Dir -> stat h hops m path = Ok Dir.
Proof. intros Hp. destruct hops; cbn [stat]; by rewrite Hp. Qed.



(** The cases of [bindKubectlToKuberlr] off Windows: what is at the path,
    and whether the closing [symlink] went through. *)
Ltac bind_cases h b w :=
  rewrite (bindKubectlToKuberlr_posix h _ b w) by assumption; unfold linked;
  let c := fresh "c" in let t := fresh "t" in let Hb := fresh "Hb" in
  destruct (fs w !! b) as [[c| |t]|] eqn:Hb;
  [ | | destruct (String.eqb_spec t "kuberlr") as [->|?] | ];
  try match goal with
      | |- context [symlinkAt h "kuberlr" b ?m] =>
          let e := fresh "e" in let He := fresh "He" in let Hfree := fresh "Hfree" in
          destruct (symlinkAt_cases h "kuberlr" b m) as [[e He] | [Hfree He]]; rewrite ?He
      end;
  cbn [fst snd fs trace isOk].

Lemma bindKubectlToKuberlr_success (h : Host) (k b : string) (w : World) :
  JS.startsWith (os_platform h) "win" = false ->
  fst (bindKubectlToKuberlr h k b w) = Ok tt ->
  fs (snd (bindKubectlToKuberlr h k b w)) = <[b := Symlink "kuberlr"]> (fs w).
Proof.
  intros Hposix. bind_cases h b w; intros Hok; try discriminate;
    first [ done | by rewrite insert_delete_eq | by rewrite insert_id ].
Qed.









(** ** The dashboard bundle *)

Lemma findChecksum_world (h : Host) (url name : string) (w : World) :
  snd (findChecksum h url name w) = logged w (EvGetResource url).
Proof. by rewrite findChecksum_run. Qed.

Lemma findChecksum_result_logged (h : Host) (url name : string) (w : World) (e : Event) :
  fst (findChecksum h url name (logged w e)) = fst (findChecksum h url name w).
Proof. by rewrite !findChecksum_run. Qed.

(** The body of [downloadRancherDashboard] when [existsSync] finds the
    directory. *)
Lemma downloadRancherDashboard_present (h : Host) (w : World) :
  isOk (stat h (os_symloop_max h) (fs w) (rancherDashboardDir h)) = true ->
  downloadRancherDashboard h w =
  let w1 := logged w (EvGetResource (rancherDashboardURL +:+ ".sha512sum")) in
  match fst (findChecksum h (rancherDashboardURL +:+ ".sha512sum")
               "rancher-dashboard-desktop-embed" w) with
  | Ok _ =>
      (Ok tt, logged w1 (EvLog (rancherDashboardDir h +:+ " already exists, not re-downloading.")))
  | Err e => (Err e, w1)
  end.
Proof.
  intros Hdir. unfold downloadRancherDashboard. cbv zeta.
  change ("https://github.com/rancher-sandbox/dashboard/releases/download/"
          +:+ "desktop-v2.6.3.beta.12" +:+ "/" +:+ "rancher-dashboard-desktop-embed" +:+ ".tar.gz")
    with rancherDashboardURL.
  fold (rancherDashboardDir h).
  unfold bind at 1.
  pose proof (findChecksum_world h (rancherDashboardURL +:+ ".sha512sum")
                "rancher-dashboard-desktop-embed" w) as Hw.
  destruct (findChecksum h _ _ w) as [[sum|e] w1]; cbn [fst snd] in *; subst w1; [|done].
  unfold bind, existsSync. cbn [logged fs].
  by rewrite Hdir.
Qed.

(** The first thing [downloadRancherDashboard] asks for once the checksum
    is resolved and [existsSync] finds nothing. *)
Lemma downloadRancherDashboard_absent (h : Host) (w : World) (sum : string) :
  isOk (stat h (os_symloop_max h) (fs w) (rancherDashboardDir h)) = false ->
  fst (findChecksum h (rancherDashboardURL +:+ ".sha512sum")
         "rancher-dashboard-desktop-embed" w) = Ok sum ->
  exists l,
    emitted (downloadRancherDashboard h) w =
      EvGetResource (rancherDashboardURL +:+ ".sha512sum") ::
      EvDownload download rancherDashboardURL (rancherDashboardArchive h)
        (rancherDashboardOptions sum) :: l.
Proof.
  intros Hdir Hsum. unfold emitted, downloadRancherDashboard. cbv zeta.
  change ("https://github.com/rancher-sandbox/dashboard/releases/download/"
          +:+ "desktop-v2.6.3.beta.12" +:+ "/" +:+ "rancher-dashboard-desktop-embed" +:+ ".tar.gz")
    with rancherDashboardURL.
  fold (rancherDashboardDir h). fold (rancherDashboardArchive h).
  unfold bind at 1.
  pose proof (findChecksum_world h (rancherDashboardURL +:+ ".sha512sum")
                "rancher-dashboard-desktop-embed" w) as Hw.
  destruct (findChecksum h _ _ w) as [[sum'|e] w1]; cbn [fst snd] in *; subst w1; [|done].
  injection Hsum as ->.
  unfold bind at 1. unfold existsSync at 1. cbn [logged fs]. rewrite Hdir.
  fold (rancherDashboardOptions sum).
  lazymatch goal with
  | |- context [bind ?m ?k ?w'] =>
      destruct (bind_trace_extends (fun _ => True) m k w') as [l Hl]
  end.
  { intros _. walk; done. }
  exists l. rewrite Hl, downloadVia_trace. cbn [logged trace].
  by rewrite <- !app_assoc, drop_app_length.
Qed.

(** C3, as the code has it.  When the dashboard directory exists the
    function still fetches the checksum file and resolves the checksum, and
    fails if that fails; it asks for no download, leaves every file system
    entry as it was, and otherwise only reports that the directory exists.
    Running it again, whatever the network answers then, leaves the file
    system as it was once more and asks for no download either.  When
    [existsSync] finds nothing at the path, a link that leads nowhere
    included, and the checksum is resolved, the download is asked for. *)
Theorem downloadRancherDashboard_existing_directory (h : Host) (w : World) :
  let sum := fun h' => fst (findChecksum h' (rancherDashboardURL +:+ ".sha512sum")
                              "rancher-dashboard-desktop-embed" w) in
  (fs w !! rancherDashboardDir h = Some Dir ->
   fs (snd (downloadRancherDashboard h w)) = fs w /\
   downloadsOf (emitted (downloadRancherDashboard h) w) = [] /\
   emitted (downloadRancherDashboard h) w =
     EvGetResource (rancherDashboardURL +:+ ".sha512sum") ::
     (if isOk (sum h)
      then [EvLog (rancherDashboardDir h +:+ " already exists, not re-downloading.")]
      else []) /\
   fst (downloadRancherDashboard h w) = match sum h with Ok _ => Ok tt | Err e => Err e end /\
   forall h', rancherDashboardDir h' = rancherDashboardDir h ->
     fs (snd (downloadRancherDashboard h' (snd (downloadRancherDashboard h w)))) = fs w /\
     downloadsOf (emitted (downloadRancherDashboard h') (snd (downloadRancherDashboard h w))) = [] /\
     fst (downloadRancherDashboard h' (snd (downloadRancherDashboard h w))) =
       match sum h' with Ok _ => Ok tt | Err e => Err e end) /\
  (isOk (stat h (os_symloop_max h) (fs w) (rancherDashboardDir h)) = false ->
   forall s, sum h = Ok s ->
   head (downloadsOf (emitted (downloadRancherDashboard h) w)) =
     Some (download, rancherDashboardURL, rancherDashboardArchive h, rancherDashboardOptions s)).
Proof.
  intros sum.
  assert (Hskip : forall h' w', fs w' !! rancherDashboardDir h' = Some Dir ->
            fs (snd (downloadRancherDashboard h' w')) = fs w' /\
            emitted (downloadRancherDashboard h') w' =
              EvGetResource (rancherDashboardURL +:+ ".sha512sum") ::
              (if isOk (sum h')
               then [EvLog (rancherDashboardDir h' +:+ " already exists, not re-downloading.")]
               else []) /\
            fst (downloadRancherDashboard h' w') =
              match sum h' with Ok _ => Ok tt | Err e => Err e end).
  { intros h' w' Hdir.
    assert (Hsum : fst (findChecksum h' (rancherDashboardURL +:+ ".sha512sum")
                          "rancher-dashboard-desktop-embed" w') = sum h').
    { unfold sum. by rewrite !findChecksum_run. }
    assert (Hrun := downloadRancherDashboard_present h' w'). cbv zeta in Hrun.
    rewrite Hsum in Hrun. unfold emitted. rewrite Hrun by (by rewrite stat_dir).
    destruct (sum h'); cbn [fst snd logged fs trace isOk];
      by rewrite <- ?app_assoc, drop_app_length. }
  split.
  - intros Hdir. destruct (Hskip h w Hdir) as (Hfs & Hem & Hres).
    split; [exact Hfs |].
    split; [rewrite Hem; by destruct (isOk (sum h)) |].
    split; [exact Hem |].
    split; [exact Hres |].
    intros h' Hsame.
    destruct (Hskip h' (snd (downloadRancherDashboard h w))) as (Hfs' & Hem' & Hres');
      [by rewrite Hfs, Hsame |].
    split; [by rewrite Hfs' |].
    split; [rewrite Hem'; by destruct (isOk (sum h')) | exact Hres'].
  - intros Hnone s Hs.
    destruct (downloadRancherDashboard_absent h w s Hnone Hs) as [l ->]. reflexivity.
Qed.

(** With the directory in place nothing is downloaded; with nothing at the
    path, or with a link to a directory that is gone, the bundle is. *)
Lemma downloadRancherDashboard_existing_directory_witness :
  let h := sampleHost "linux" noEnv (serving "0a1b  rancher-dashboard-desktop-embed.tar.gz") in
  let dangling :=
    {| fs := {[ "/src/resources/rancher-dashboard" := Symlink "dashboard-2.6.2" ]};
       trace := [] |} in
  fs (snd (downloadRancherDashboard h dashboardPresent)) = fs dashboardPresent /\
  downloadsOf (emitted (downloadRancherDashboard h) dashboardPresent) = [] /\
  fst (downloadRancherDashboard h dashboardPresent) = Ok tt /\
  head (downloadsOf (emitted (downloadRancherDashboard h) world0)) =
    Some (download, rancherDashboardURL, "/src/resources/rancher-dashboard.tgz",
          rancherDashboardOptions "0a1b") /\
  head (downloadsOf (emitted (downloadRancherDashboard h) dangling)) =
    Some (download, rancherDashboardURL, "/src/resources/rancher-dashboard.tgz",
          rancherDashboardOptions "0a1b").
Proof.
  intros h dangling.
  destruct (downloadRancherDashboard_existing_directory h dashboardPresent) as [Hthere _].
  destruct (Hthere eq_refl) as (Hfs & Hnone & _ & Hres & _).
  split; [exact Hfs |]. split; [exact Hnone |]. split; [rewrite Hres; reflexivity |].
  split.
  - destruct (downloadRancherDashboard_existing_directory h world0) as [_ Hmissing].
    apply (Hmissing eq_refl "0a1b" eq_refl).
  - destruct (downloadRancherDashboard_existing_directory h dangling) as [_ Hmissing].
    apply (Hmissing eq_refl "0a1b" eq_refl).
Defined.

(** C3, as the specification has it, fails: with the directory in place and
    the network down, the function does not return quietly.  It has asked
    the network for the checksum file, and it fails. *)
Lemma downloadRancherDashboard_not_skipped_entirely :
  fs dashboardPresent !! rancherDashboardDir (sampleHost "linux" noEnv offline) = Some Dir /\
  downloadRancherDashboard (sampleHost "linux" noEnv offline) dashboardPresent =
    (Err "getaddrinfo ENOTFOUND",
     {| fs := fs dashboardPresent;
        trace := [EvGetResource
          ("https://github.com/rancher-sandbox/dashboard/releases/download/"
           +:+ "desktop-v2.6.3.beta.12/rancher-dashboard-desktop-embed.tar.gz.sha512sum")] |}).
Proof. split; reflexivity. Qed.

(** ** Which downloads carry a checksum *)

Lemma emitsOnly_bindKubectlToKuberlr (P : Event -> Prop) (h : Host) (k b : string) :
  (forall e, (forall via url dest options, e <> EvDownload via url dest options) -> P e) ->
  emitsOnly P (bindKubectlToKuberlr h k b).
Proof. intros HP. unfold bindKubectlToKuberlr. walk; apply HP; done. Qed.

Lemma void_trace {A} (m : M A) (w : World) : trace (snd (void m w)) = trace (snd (m w)).
Proof. unfold void, bind, ret. by destruct (m w) as [[a|e] w1]. Qed.

Lemma resume_quiet {A} (j : nat) (t : Task A) (w : World) :
  quiet t -> quiet (fst (resume j t w)) /\ trace (snd (resume j t w)) = trace w.
Proof.
  intros [r | finish Hfinish]; cbn [resume fst snd]; [by split; [constructor|] |].
  destruct j as [|j]; [|by split; [constructor|]].
  specialize (Hfinish w). destruct (finish w) as [r w']. cbn [advance fst snd] in *.
  split; [constructor | done].
Qed.

Lemma follow_quiet {A} (order : list (nat * nat)) (pool : list (Task A)) (w : World) :
  Forall quiet pool -> trace (snd (follow order pool w)) = trace w.
Proof.
  revert pool w. induction order as [|[i j] order IH]; intros pool w Hpool; [done |].
  cbn [follow]. destruct (firstRejection pool); [done |].
  destruct (pool !! i) as [t|] eqn:Hi; [|by apply IH].
  assert (Ht : quiet t) by (by eapply Forall_lookup_1).
  destruct (resume_quiet j t w Ht) as [Hq Htr].
  destruct (resume j t w) as [t' w']. cbn [fst snd] in *.
  rewrite IH, Htr; [done |]. by apply Forall_insert.
Qed.

Lemma follow_quiet_pool {A} (order : list (nat * nat)) (pool : list (Task A)) (w : World) :
  Forall quiet pool -> Forall quiet (fst (follow order pool w)).
Proof.
  revert pool w. induction order as [|[i j] order IH]; intros pool w Hpool; [done |].
  cbn [follow]. destruct (firstRejection pool); [done |].
  destruct (pool !! i) as [t|] eqn:Hi; [|by apply IH].
  assert (Ht : quiet t) by (by eapply Forall_lookup_1).
  destruct (resume_quiet j t w Ht) as [Hq Htr].
  destruct (resume j t w) as [t' w']. cbn [fst snd] in *.
  apply IH. by apply Forall_insert.
Qed.

Lemma finishAll_quiet {A} (pool : list (Task A)) (w : World) :
  Forall quiet pool -> trace (snd (finishAll pool w)) = trace w.
Proof.
  revert w. induction pool as [|t pool IH]; intros w Hpool; [done |].
  apply Forall_cons in Hpool as [Ht Hpool]. cbn [finishAll].
  assert (Hone : trace (snd (finishTask t w)) = trace w).
  { destruct Ht as [r | finish Hfinish]; cbn [finishTask]; [done |].
    specialize (Hfinish w). by destruct (finish w) as [r w']. }
  destruct (finishTask t w) as [[a|e] w']; cbn [snd] in *; [|done].
  specialize (IH w' Hpool). destruct (finishAll pool w') as [rest w'']. cbn [snd] in *.
  by rewrite IH.
Qed.

(** [Promise.all] over downloads: every download is asked for when the
    array is built, and nothing else is noted. *)
Lemma promiseAll_downloads_trace (h : Host) (via : Downloader) (options : DownloadOptions)
    {X} (url dest : X -> string) (xs : list X) (w : World) :
  trace (snd (promiseAll h (map (fun x => call (downloadOp h via (url x) (dest x) options)) xs) w)) =
  trace w ++ map (fun x => EvDownload via (url x) (dest x) options) xs.
Proof.
  set (ps := map (fun x => call (downloadOp h via (url x) (dest x) options)) xs).
  assert (Hstart : Forall quiet (fst (startAll ps w)) /\
                   trace (snd (startAll ps w)) =
                   trace w ++ map (fun x => EvDownload via (url x) (dest x) options) xs).
  { subst ps. revert w. induction xs as [|x xs IH]; intros w; cbn [map startAll].
    - split; [constructor | by rewrite app_nil_r].
    - cbn [call advance downloadOp announce complete announced].
      destruct (IH (logged w (EvDownload via (url x) (dest x) options))) as [IHq IHt].
      destruct (startAll _ _) as [ts w2]. cbn [fst snd] in *. split.
      + constructor; [|done]. constructor. intros w'. unfold onFs.
        by destruct (fetch h via (url x) (dest x) options (fs w')).
      + rewrite IHt. cbn [logged trace]. by rewrite <- app_assoc. }
  destruct Hstart as [Hq Ht]. unfold promiseAll, settleAll.
  destruct (startAll ps w) as [pool w1]. cbn [fst snd] in *.
  pose proof (follow_quiet (completions h) pool w1 Hq) as Hf.
  pose proof (follow_quiet_pool (completions h) pool w1 Hq) as Hq'.
  destruct (follow (completions h) pool w1) as [pool' w2]. cbn [fst snd] in *.
  destruct (firstRejection pool'); cbn [snd]; [by rewrite Hf, Ht |].
  pose proof (finishAll_quiet pool' w2 Hq') as Hd.
  destruct (finishAll pool' w2) as [pool'' w3]. cbn [snd] in *.
  by rewrite Hd, Hf, Ht.
Qed.

Lemma downloadsOf_map_download {X} (via : Downloader) (options : DownloadOptions)
    (url dest : X -> string) (xs : list X) :
  downloadsOf (map (fun x => EvDownload via (url x) (dest x) options) xs) =
  map (fun x => (via, url x, dest x, options)) xs.
Proof. induction xs as [|x xs IH]; cbn; [done | by rewrite IH]. Qed.

Lemma downloadDockerBuildx_emitted (h : Host) (context : DownloadContext) (w : World) :
  emitted (downloadDockerBuildx h context) w =
  match kubePlatform context with
  | kube_darwin => [EvDownload download (buildxURL h context) (buildxPath h context) noOptions]
  | _ =>
      EvGetResource (buildxURLBase +:+ "/checksums.txt") ::
      match fst (findChecksum h (buildxURLBase +:+ "/checksums.txt")
                   (buildxExecutable h context) w) with
      | Ok sum =>
          [EvDownload download (buildxURL h context) (buildxPath h context) (checksumOnly sum)]
      | Err _ => []
      end
  end.
Proof.
  unfold downloadDockerBuildx. cbv zeta.
  change ("https://github.com/docker/buildx/releases/download/" +:+ "v0.8.2") with buildxURLBase.
  change (exeName context ("buildx-" +:+ "v0.8.2" +:+ "."
            +:+ KubePlatform_str (kubePlatform context) +:+ "-" +:+ onM1 h "arm64" "amd64"))
    with (buildxExecutable h context).
  fold (buildxURL h context). fold (buildxPath h context).
  assert (Hsum := findChecksum_world h (buildxURLBase +:+ "/checksums.txt")
                    (buildxExecutable h context) w).
  destruct (kubePlatform context); cbn [KubePlatform_str]; vm_compute (negb _);
    apply emitted_logged.
  1, 3: unfold bind at 1; unfold bind at 1;
    destruct (findChecksum h _ _ w) as [[sum|e] w1]; cbn [fst snd] in *; subst w1;
    [ unfold ret; rewrite void_trace, downloadVia_trace; cbn [logged trace];
      by rewrite <- app_assoc
    | done ].
  unfold bind at 1. unfold ret at 1. by rewrite void_trace, downloadVia_trace.
Qed.

Lemma verified_tools (h : Host) (context : DownloadContext) (depVersions : DependencyVersions)
    (t : Tool) :
  t ∈ [KuberlrAndKubectl; Helm; DockerCLI; DockerCompose; Trivy; Steve; RancherDashboard] ->
  emitsOnly verifiedEvent (fetchTool h context depVersions t).
Proof.
  intros Ht.
  assert (Hother : forall e, (forall via url dest options, e <> EvDownload via url dest options) ->
                        verifiedEvent e).
  { intros [] He; cbn; try done. by destruct (He via url dest options). }
  repeat (apply elem_of_cons in Ht as [->|Ht]); [..|by apply elem_of_nil in Ht];
    cbn [fetchTool].
  - unfold downloadKuberlrAndKubectl.
    apply emitsOnly_bind; [|intros kuberlrPath].
    + unfold downloadKuberlr. walk; cbn; eauto.
    + apply emitsOnly_bind; [by apply emitsOnly_bindKubectlToKuberlr | intros _].
      walk; cbn; eauto.
  - unfold downloadHelm. walk; cbn; eauto.
  - unfold downloadDockerCLI. walk; cbn; eauto.
  - unfold downloadDockerCompose. walk; cbn; eauto.
  - unfold downloadTrivy. walk; cbn; eauto.
  - unfold downloadSteve. walk; cbn; eauto.
  - unfold downloadRancherDashboard. walk; cbn; eauto.
Qed.

Lemma credHelpers_emitted (h : Host) (context : DownloadContext) (w : World) :
  exists url dest : string -> string,
    emitted (downloadDockerProvidedCredHelpers h context) w =
    map (fun baseName => EvDownload (archiveDownloader context) (url baseName) (dest baseName)
                           noOptions)
        (credHelperNames (platform context)).
Proof.
  unfold downloadDockerProvidedCredHelpers. cbv zeta. fold (archiveDownloader context).
  eexists _, _. apply emitted_logged.
  apply (promiseAll_downloads_trace h (archiveDownloader context) noOptions
           (fun baseName : string => _) (fun baseName : string => _)).
Qed.

(** C6, as the code has it.  [downloadDockerBuildx] asks for its download
    without an expected checksum exactly when the kube-style platform is
    [darwin]; on the others it first resolves the checksum and passes it,
    and asks for nothing when that fails.  It is not alone: the credential
    helpers of [downloadDockerProvidedCredHelpers] and [downloadECRCredHelper]
    are asked for without a checksum on every platform.  Every download of
    the other seven top-level fetches carries one. *)
Theorem downloads_without_checksum (h : Host) (context : DownloadContext)
    (depVersions : DependencyVersions) (w : World) :
  (kubePlatform context = kube_darwin ->
   emitted (downloadDockerBuildx h context) w =
     [EvDownload download (buildxURL h context) (buildxPath h context) noOptions]) /\
  (kubePlatform context <> kube_darwin ->
   emitted (downloadDockerBuildx h context) w =
     EvGetResource (buildxURLBase +:+ "/checksums.txt") ::
     match fst (findChecksum h (buildxURLBase +:+ "/checksums.txt")
                  (buildxExecutable h context) w) with
     | Ok sum =>
         [EvDownload download (buildxURL h context) (buildxPath h context) (checksumOnly sum)]
     | Err _ => []
     end) /\
  (forall t,
     t ∈ [KuberlrAndKubectl; Helm; DockerCLI; DockerCompose; Trivy; Steve; RancherDashboard] ->
     Forall verifiedEvent (emitted (fetchTool h context depVersions t) w)) /\
  (forall t,
     t ∈ [DockerProvidedCredHelpers; ECRCredHelper] ->
     downloadsOf (emitted (fetchTool h context depVersions t) w) <> [] /\
     Forall (fun r => expectedChecksum (requestOptions r) = None)
       (downloadsOf (emitted (fetchTool h context depVersions t) w))).
Proof.
  pose proof (downloadDockerBuildx_emitted h context w) as Hbuildx.
  split; [|split; [|split]].
  - intros Hd. by rewrite Hd in Hbuildx.
  - intros Hd. by destruct (kubePlatform context).
  - intros t Ht. by apply emitsOnly_forall, verified_tools.
  - intros t Ht.
    apply elem_of_cons in Ht as [->|Ht]; [|apply elem_of_cons in Ht as [->|Ht]];
      [..|by apply elem_of_nil in Ht]; cbn [fetchTool].
    + destruct (credHelpers_emitted h context w) as (url & dest & Hem).
      assert (Hv : emitted (void (downloadDockerProvidedCredHelpers h context)) w =
                   emitted (downloadDockerProvidedCredHelpers h context) w).
      { unfold emitted. by rewrite void_trace. }
      rewrite Hv, Hem, downloadsOf_map_download. split.
      * by destruct (platform context).
      * apply Forall_map, Forall_forall. done.
    + assert (Hem : exists url dest,
                emitted (downloadECRCredHelper h context (ECRCredenialHelper depVersions)) w =
                [EvDownload download url dest noOptions]).
      { unfold downloadECRCredHelper. cbv zeta. eexists _, _. apply emitted_logged.
        by rewrite void_trace, downloadVia_trace. }
      destruct Hem as (url & dest & ->). cbn. split; [done | by repeat constructor].
Qed.

(** Docker Buildx for macOS and for Linux, the network serving one line. *)
Lemma downloads_without_checksum_witness :
  let h := sampleHost "linux" noEnv (serving "77aa  buildx-v0.8.2.linux-amd64") in
  downloadsOf (emitted (downloadDockerBuildx h (sampleContext darwin)) world0) =
    [(download,
      "https://github.com/docker/buildx/releases/download/v0.8.2/buildx-v0.8.2.darwin-amd64",
      "/src/resources/bin/docker-buildx", noOptions)] /\
  downloadsOf (emitted (downloadDockerBuildx h (sampleContext linux)) world0) =
    [(download,
      "https://github.com/docker/buildx/releases/download/v0.8.2/buildx-v0.8.2.linux-amd64",
      "/src/resources/bin/docker-buildx", checksumOnly "77aa")].
Proof.
  intros h. split.
  - destruct (downloads_without_checksum h (sampleContext darwin) sampleVersions world0)
      as (Hdarwin & _).
    rewrite (Hdarwin eq_refl). reflexivity.
  - destruct (downloads_without_checksum h (sampleContext linux) sampleVersions world0)
      as (_ & Hother & _).
    rewrite Hother; [reflexivity | discriminate].
Defined.

(** C6, as the specification has it, fails: Docker Buildx for [darwin] is
    not the one download without a checksum.  On Linux the ECR credential
    helper is asked for with no expected checksum. *)
Lemma ecr_helper_download_has_no_checksum :
  kubePlatform (sampleContext linux) <> kube_darwin /\
  downloadsOf (emitted (fetchTool (sampleHost "linux" noEnv offline) (sampleContext linux)
                          sampleVersions ECRCredHelper) world0) =
    [(download,
      "https://amazon-ecr-credential-helper-releases.s3.us-east-2.amazonaws.com/"
      +:+ "0.6.0/linux-amd64/docker-credential-ecr-login",
      "/src/resources/bin/docker-credential-ecr-login",
      {| expectedChecksum := None; checksumAlgorithm := None;
         entryName := None; access := None |})].
Proof. split; [discriminate | reflexivity]. Qed.

(** ** The architecture of kuberlr *)

Lemma downloadsOf_Forall (P : Request -> Prop) (l : list Event) :
  Forall (onDownloads P) l -> Forall P (downloadsOf l).
Proof.
  induction 1 as [|e l He _ IH]; [constructor |].
  destruct e; cbn in *; try done. by constructor.
Qed.

Lemma emitsOnly_downloadKuberlrAndKubectl (h : Host) (context : DownloadContext) :
  emitsOnly (onDownloads (kuberlrOrKubectl h context)) (downloadKuberlrAndKubectl h context).
Proof.
  unfold downloadKuberlrAndKubectl.
  apply emitsOnly_bind; [|intros kuberlrPath].
  - unfold downloadKuberlr, kuberlrOrKubectl, archiveDownloader, kuberlrArchiveURL.
    destruct context as [dp p kp bin internal]. cbn [platform kubePlatform].
    destruct p, kp; cbn [Platform_str KubePlatform_str];
      repeat match goal with
        | |- context [JS.startsWith ?a ?b] =>
            let v := eval vm_compute in (JS.startsWith a b) in
            change (JS.startsWith a b) with v
        end;
      cbv iota; walk; cbn; try done; left; done.
  - apply emitsOnly_bind; [apply emitsOnly_bindKubectlToKuberlr | intros _].
    + intros [] He; cbn; try done. by destruct (He via url dest options).
    + walk; cbn; try done. right. split; [done | by eexists].
Qed.

(** C9.  Every download [downloadKuberlrAndKubectl] asks for is either the
    kuberlr archive for [amd64] or a [kubectl] binary for the architecture
    that [M1] selects; the host has no other say in it.  The checksum it
    looks up is the one of the [amd64] archive, and once that is found the
    first download asked for is that archive.  When [M1] is set the
    [kubectl] binary is the one for [arm64]. *)
Theorem kuberlr_is_always_amd64 (h : Host) (context : DownloadContext) (w : World) :
  Forall (kuberlrOrKubectl h context)
    (downloadsOf (emitted (downloadKuberlrAndKubectl h context) w)) /\
  kuberlrArchiveURL context "amd64" =
    match kubePlatform context with
    | kube_linux =>
        "https://github.com/flavio/kuberlr/releases/download/v0.4.2/kuberlr_0.4.2_linux_amd64.tar.gz"
    | kube_darwin =>
        "https://github.com/flavio/kuberlr/releases/download/v0.4.2/kuberlr_0.4.2_darwin_amd64.tar.gz"
    | kube_windows =>
        "https://github.com/flavio/kuberlr/releases/download/v0.4.2/kuberlr_0.4.2_windows_amd64.zip"
    end /\
  (forall text line,
     getResource h (kuberlrBaseURL +:+ "/checksums.txt") = Ok text ->
     List.filter (fun l => JS.includes l (kuberlrPlatformDir context "amd64")) (JS.splitLines text)
       = [line] ->
     head (downloadsOf (emitted (downloadKuberlrAndKubectl h context) w)) =
       Some (archiveDownloader context, kuberlrArchiveURL context "amd64",
             path_join h [binDir context; exeName context "kuberlr"],
             kuberlrOptions context "amd64" line)) /\
  (JS.truthy (process_env h "M1") = true ->
   forall kubeVersion,
     kubectlURL context kubeVersion (onM1 h "arm64" "amd64") =
     "https://dl.k8s.io/" +:+ kubeVersion +:+ "/bin/" +:+ KubePlatform_str (kubePlatform context)
     +:+ "/arm64/" +:+ exeName context "kubectl").
Proof.
  split; [|split; [|split]].
  - apply downloadsOf_Forall, emitsOnly_forall, emitsOnly_downloadKuberlrAndKubectl.
  - unfold kuberlrArchiveURL, kuberlrPlatformDir.
    by destruct (kubePlatform context).
  - intros text line Hnet Hline.
    unfold emitted, downloadKuberlrAndKubectl.
    lazymatch goal with
    | |- context [bind ?m ?k w] =>
        destruct (bind_trace_extends (fun _ => True) m k w) as [l Hl]; [|rewrite Hl]
    end.
    { intros kuberlrPath. apply emitsOnly_bind; [|intros _].
      - apply emitsOnly_bindKubectlToKuberlr. done.
      - walk; done. }
    rewrite downloadKuberlr_run, Hnet. cbv zeta. rewrite Hline.
    rewrite downloadVia_trace. cbn [logged trace].
    rewrite <- !app_assoc, drop_app_length. reflexivity.
  - intros HM1 kubeVersion. unfold onM1. by rewrite HM1.
Qed.

(** On an M1 build host, with [M1] set: kuberlr for [amd64], [kubectl] for
    [arm64]. *)
Lemma kuberlr_is_always_amd64_witness :
  let h := sampleHost "darwin" envM1
             (fun url =>
                if String.eqb url "https://dl.k8s.io/release/stable.txt" then Ok "v1.24.3"
                else Ok "5f2a  kuberlr_0.4.2_darwin_amd64.tar.gz") in
  map requestUrl
    (downloadsOf (emitted (downloadKuberlrAndKubectl h (sampleContext darwin)) directoriesMade)) =
    ["https://github.com/flavio/kuberlr/releases/download/v0.4.2/kuberlr_0.4.2_darwin_amd64.tar.gz";
     "https://dl.k8s.io/v1.24.3/bin/darwin/arm64/kubectl"] /\
  head (downloadsOf (emitted (downloadKuberlrAndKubectl h (sampleContext darwin)) directoriesMade)) =
    Some (downloadTarGZ, kuberlrArchiveURL (sampleContext darwin) "amd64",
          "/src/resources/bin/kuberlr",
          kuberlrOptions (sampleContext darwin) "amd64" "5f2a  kuberlr_0.4.2_darwin_amd64.tar.gz") /\
  kubectlURL (sampleContext darwin) "v1.24.3" (onM1 h "arm64" "amd64") =
    "https://dl.k8s.io/v1.24.3/bin/darwin/arm64/kubectl".
Proof.
  intros h.
  destruct (kuberlr_is_always_amd64 h (sampleContext darwin) directoriesMade)
    as (_ & _ & Hfirst & Harm).
  split; [reflexivity |].
  split; [exact (Hfirst _ _ eq_refl eq_refl) | exact (Harm eq_refl "v1.24.3")].
Defined.

(** ** The redirection rules of [moproxy] *)

Module MoproxyFacts.
Import Moproxy.

Lemma check_spec (c : Config) (ch : Chain) (t : Table) :
  fst (iptables_cmd c check ch t) = true <-> redirect c ∈ t ch.
Proof. cbn. apply bool_decide_eq_true. Qed.

Lemma copies_none_iff (r : Rule) (l : list Rule) : r ∉ l <-> copies r l = 0.
Proof. rewrite copies_pos_iff. lia. Qed.

Lemma copies_app (r : Rule) (l l' : list Rule) : copies r (l ++ l') = copies r l + copies r l'.
Proof. unfold copies. apply count_occ_app. Qed.

(** [add_rule_to_chain], chain by chain. *)
Lemma add_rule_to_chain_chain (c : Config) (ch ch' : Chain) (t : Table) :
  add_rule_to_chain c ch t ch' =
  if decide (ch' = ch) then
    if bool_decide (redirect c ∈ t ch) then t ch else t ch ++ [redirect c]
  else t ch'.
Proof.
  unfold add_rule_to_chain. cbn [iptables_cmd fst snd].
  destruct (bool_decide (redirect c ∈ t ch)); cbn [negb].
  - by destruct (decide (ch' = ch)) as [->|].
  - unfold setChain. by destruct (decide (ch' = ch)).
Qed.

Lemma copies_add_rule_to_chain (c : Config) (ch : Chain) (t : Table) :
  copies (redirect c) (add_rule_to_chain c ch t ch) = Nat.max 1 (copies (redirect c) (t ch)).
Proof.
  rewrite add_rule_to_chain_chain. case_decide; [|done].
  destruct (bool_decide (redirect c ∈ t ch)) eqn:Hin.
  - apply bool_decide_eq_true in Hin. apply copies_pos_iff in Hin. lia.
  - apply bool_decide_eq_false in Hin. apply copies_none_iff in Hin.
    rewrite copies_app, Hin. unfold copies. cbn [count_occ].
    by destruct (Rule_eq_dec (redirect c) (redirect c)).
Qed.

Lemma filter_deleteFirst (r : Rule) (l : list Rule) :
  List.filter (fun x => bool_decide (x <> r)) (deleteFirst r l) =
  List.filter (fun x => bool_decide (x <> r)) l.
Proof.
  induction l as [|x l IH]; [done |]. cbn [deleteFirst List.filter].
  destruct (decide (x = r)) as [->|Hne].
  - by rewrite bool_decide_false by (intros H; by apply H).
  - cbn [List.filter]. by rewrite IH.
Qed.

Lemma filter_absent (r : Rule) (l : list Rule) :
  r ∉ l -> List.filter (fun x => bool_decide (x <> r)) l = l.
Proof.
  induction l as [|x l IH]; [done |]. intros Hin. cbn [List.filter].
  apply not_elem_of_cons in Hin as [Hne Hin].
  rewrite bool_decide_true by done. by rewrite IH.
Qed.

Lemma copies_filter (r : Rule) (l : list Rule) :
  copies r (List.filter (fun x => bool_decide (x <> r)) l) = 0.
Proof.
  apply copies_none_iff. rewrite list_elem_of_In, filter_In.
  intros [_ H]. apply bool_decide_eq_true in H. by apply H.
Qed.

(** The loop removes every copy of the rule from its chain and nothing
    else. *)
Lemma remove_rule_from_chain_chain (c : Config) (ch ch' : Chain) (t : Table) :
  remove_rule_from_chain c ch t ch' =
  if decide (ch' = ch) then List.filter (fun x => bool_decide (x <> redirect c)) (t ch)
  else t ch'.
Proof.
  funelim (remove_rule_from_chain c ch t).
  - match goal with IH : Chain -> forall ch', _ = _ |- _ => rewrite (IH ch' ch') end.
    pose proof (proj1 (check_spec c ch t) found) as Hfound.
    cbn [iptables_cmd]. rewrite bool_decide_true by done. cbn [snd].
    destruct (decide (ch' = ch)) as [->|Hne].
    + by rewrite setChain_same, filter_deleteFirst.
    + by rewrite setChain_other.
  - assert (Habsent : redirect c ∉ t ch).
    { intros Hin. apply check_spec in Hin. congruence. }
    destruct (decide (ch' = ch)) as [->|Hne]; [by rewrite filter_absent | done].
Qed.

Lemma iter_enable_copies (c : Config) (t : Table) (n : nat) (ch : Chain) :
  ch = OUTPUT \/ ch = PREROUTING ->
  copies (redirect c) (Nat.iter (S n) (enable c) t ch) = Nat.max 1 (copies (redirect c) (t ch)).
Proof.
  intros Hch.
  assert (Hone : forall t', copies (redirect c) (enable c t' ch) =
                       Nat.max 1 (copies (redirect c) (t' ch))).
  { intros t'. unfold enable. destruct Hch as [-> | ->].
    - rewrite add_rule_to_chain_chain. case_decide; [done |].
      apply copies_add_rule_to_chain.
    - rewrite copies_add_rule_to_chain.
      rewrite (add_rule_to_chain_chain c OUTPUT PREROUTING). by case_decide. }
  induction n as [|n IH]; [apply Hone |].
  rewrite Nat.iter_succ, Hone, IH. lia.
Qed.

(** C10, as the code has it.  [enable] appends the rule to [OUTPUT] and to
    [PREROUTING] only where it is missing, so that however often it is called
    a chain holds the copies it had, and one copy when it had none: exactly
    one for a chain that had no copy or one, as every chain has after
    [disable], and never one more than before for a chain that had some.
    [disable] leaves no copy in either chain, however many there were, and
    keeps the other rules in their order. *)
Theorem enable_adds_once_disable_removes_all (c : Config) (t : Table) (n : nat) :
  let rule := redirect c in
  (enable c t OUTPUT =
     if bool_decide (rule ∈ t OUTPUT) then t OUTPUT else t OUTPUT ++ [rule]) /\
  (enable c t PREROUTING =
     if bool_decide (rule ∈ t PREROUTING) then t PREROUTING else t PREROUTING ++ [rule]) /\
  (copies rule (Nat.iter (S n) (enable c) t OUTPUT) = Nat.max 1 (copies rule (t OUTPUT))) /\
  (copies rule (Nat.iter (S n) (enable c) t PREROUTING) =
     Nat.max 1 (copies rule (t PREROUTING))) /\
  (copies rule (Nat.iter (S n) (enable c) (disable c t) OUTPUT) = 1) /\
  (copies rule (Nat.iter (S n) (enable c) (disable c t) PREROUTING) = 1) /\
  (copies rule (disable c t OUTPUT) = 0) /\
  (copies rule (disable c t PREROUTING) = 0) /\
  (disable c t OUTPUT = List.filter (fun x => bool_decide (x <> rule)) (t OUTPUT)) /\
  (disable c t PREROUTING = List.filter (fun x => bool_decide (x <> rule)) (t PREROUTING)) /\
  (enable c t INPUT = t INPUT /\ enable c t POSTROUTING = t POSTROUTING) /\
  (disable c t INPUT = t INPUT /\ disable c t POSTROUTING = t POSTROUTING).
Proof.
  cbv zeta.
  assert (HdO : disable c t OUTPUT =
                List.filter (fun x => bool_decide (x <> redirect c)) (t OUTPUT)).
  { unfold disable. rewrite remove_rule_from_chain_chain. case_decide; [done |].
    rewrite remove_rule_from_chain_chain. by case_decide. }
  assert (HdP : disable c t PREROUTING =
                List.filter (fun x => bool_decide (x <> redirect c)) (t PREROUTING)).
  { unfold disable. rewrite remove_rule_from_chain_chain. case_decide; [|done].
    rewrite remove_rule_from_chain_chain. by case_decide. }
  assert (H0O : copies (redirect c) (disable c t OUTPUT) = 0)
    by (rewrite HdO; apply copies_filter).
  assert (H0P : copies (redirect c) (disable c t PREROUTING) = 0)
    by (rewrite HdP; apply copies_filter).
  repeat split; try done.
  - unfold enable. rewrite add_rule_to_chain_chain. case_decide; [done |].
    rewrite add_rule_to_chain_chain. by case_decide.
  - unfold enable. rewrite add_rule_to_chain_chain. case_decide; [|done].
    rewrite (add_rule_to_chain_chain c OUTPUT PREROUTING). by case_decide.
  - apply iter_enable_copies. by left.
  - apply iter_enable_copies. by right.
  - rewrite iter_enable_copies by (by left). by rewrite H0O.
  - rewrite iter_enable_copies by (by right). by rewrite H0P.
  - unfold enable. rewrite !add_rule_to_chain_chain. by repeat case_decide.
  - unfold enable. rewrite !add_rule_to_chain_chain. by repeat case_decide.
  - unfold disable. rewrite !remove_rule_from_chain_chain. by repeat case_decide.
  - unfold disable. rewrite !remove_rule_from_chain_chain. by repeat case_decide.
Qed.

(** C10, as the specification has it, fails: a chain that holds two copies
    of the rule still holds two, not one, after [enable] has been called three
    times. *)
Lemma enable_keeps_duplicates :
  let c := {| ports_redirected := "80,443"; port := "2080" |} in
  let t : Table := fun ch => match ch with OUTPUT => [redirect c; redirect c] | _ => [] end in
  copies (redirect c) (t OUTPUT) = 2 /\
  copies (redirect c) (Nat.iter 3 (enable c) t OUTPUT) = 2 /\
  copies (redirect c) (Nat.iter 3 (enable c) t OUTPUT) <> 1.
Proof. vm_compute. repeat split; discriminate. Qed.

End MoproxyFacts.

(** ** [Promise.all] and [downloadDependencies] *)

(** ** Awaited alone *)

Lemma bind_ext {A B} (m m' : M A) (k k' : A -> M B) (w : World) :
  m w = m' w -> (forall a w', k a w' = k' a w') -> bind m k w = bind m' k' w.
Proof. intros Hm Hk. unfold bind. rewrite Hm. destruct (m' w) as [[a|e] w']; [apply Hk | done]. Qed.

Lemma tryCatch_ext {A} (m m' handler handler' : M A) (w : World) :
  m w = m' w -> (forall w', handler w' = handler' w') ->
  tryCatch m handler w = tryCatch m' handler' w.
Proof.
  intros Hm Hh. unfold tryCatch. rewrite Hm. destruct (m' w) as [[a|e] w']; [done | apply Hh].
Qed.

Lemma alone_abind {A B} (p : Async A) (f : A -> Async B) (w : World) :
  alone (abind p f) w = bind (alone p) (fun a => alone (f a)) w.
Proof.
  revert w. induction p as [[a|e] | X m k IH | X op k IH | X ops k IH]; intros w.
  - done.
  - done.
  - cbn [abind alone]. unfold bind. destruct (m w) as [r w']. apply IH.
  - cbn [abind alone]. unfold bind. destruct (perform op w) as [r w']. apply IH.
  - cbn [abind alone]. unfold bind. destruct (finishSlots _ _) as [r w']. apply IH.
Qed.

Lemma alone_atryCatch {A} (p handler : Async A) (w : World) :
  alone (atryCatch p handler) w = tryCatch (alone p) (alone handler) w.
Proof.
  revert w. induction p as [[a|e] | X m k IH | X op k IH | X ops k IH]; intros w.
  - done.
  - done.
  - cbn [atryCatch alone]. unfold tryCatch. destruct (m w) as [r w']. apply IH.
  - cbn [atryCatch alone]. unfold tryCatch. destruct (perform op w) as [r w']. apply IH.
  - cbn [atryCatch alone]. unfold tryCatch. destruct (finishSlots _ _) as [r w']. apply IH.
Qed.

Lemma alone_call {X} (op : Op X) (w : World) : alone (call op) w = perform op w.
Proof. cbn. by destruct (perform op w). Qed.

Lemma alone_sync {X} (m : M X) (w : World) : alone (sync m) w = m w.
Proof. cbn. by destruct (m w). Qed.

Lemma alone_avoid {A} (p : Async A) (w : World) : alone (avoid p) w = void (alone p) w.
Proof. unfold avoid, void. rewrite alone_abind. by apply bind_ext. Qed.

Lemma perform_announced {X} (e : Event) (act : M X) (w : World) :
  perform {| announce := Some e; complete := act |} w = (emit e ;; act) w.
Proof. reflexivity. Qed.

Lemma getResourceM_alone (h : Host) (url : string) (w : World) :
  alone (Stepwise.getResourceM h url) w = getResourceM h url w.
Proof. unfold Stepwise.getResourceM. by rewrite alone_call. Qed.

Lemma downloadVia_alone (h : Host) (via : Downloader) (url dest : string)
    (options : DownloadOptions) (w : World) :
  alone (Stepwise.downloadVia h via url dest options) w = downloadVia h via url dest options w.
Proof. unfold Stepwise.downloadVia. by rewrite alone_call. Qed.

Lemma tryAccess_alone (h : Host) (path : string) (w : World) :
  alone (Stepwise.tryAccess h path) w = (Ok (tryAccess h path), w).
Proof.
  unfold Stepwise.tryAccess, tryAccess. rewrite alone_atryCatch. unfold tryCatch.
  rewrite alone_abind. unfold bind. rewrite alone_call.
  cbn. by destruct (fs_access h path).
Qed.

Lemma findHome_alone (h : Host) (onWindows : bool) (w : World) :
  alone (Stepwise.findHome h onWindows) w = liftResult (findHome h onWindows) w.
Proof.
  unfold Stepwise.findHome, findHome, Stepwise.fatal, liftResult. cbv zeta.
  repeat first
    [ reflexivity
    | progress cbn [alone areturn athrow andb]
    | rewrite alone_abind; unfold bind
    | rewrite tryAccess_alone
    | match goal with
      | |- context [if ?c then _ else _] => destruct c
      end ].
Qed.

Lemma findChecksum_alone (h : Host) (url name : string) (w : World) :
  alone (Stepwise.findChecksum h url name) w = findChecksum h url name w.
Proof.
  unfold Stepwise.findChecksum, findChecksum.
  rewrite alone_abind. apply bind_ext; [apply getResourceM_alone |].
  intros text w'. by repeat case_match.
Qed.

Lemma downloadKuberlr_alone (h : Host) (context : DownloadContext) (arch : string) (w : World) :
  alone (Stepwise.downloadKuberlr h context arch) w = downloadKuberlr h context arch w.
Proof.
  unfold Stepwise.downloadKuberlr, downloadKuberlr. cbv zeta.
  rewrite alone_abind. apply bind_ext; [apply getResourceM_alone |].
  intros text w'. rewrite alone_abind. apply bind_ext; [by repeat case_match |].
  intros _ w''. apply downloadVia_alone.
Qed.

Lemma bindKubectlToKuberlr_alone (h : Host) (k b : string) (w : World) :
  alone (Stepwise.bindKubectlToKuberlr h k b) w = bindKubectlToKuberlr h k b w.
Proof.
  unfold Stepwise.bindKubectlToKuberlr, bindKubectlToKuberlr.
  destruct (JS.startsWith (os_platform h) "win"); [by rewrite alone_call |].
  rewrite alone_abind. apply bind_ext.
  - rewrite alone_atryCatch. apply tryCatch_ext; [|done].
    rewrite alone_abind. apply bind_ext; [by rewrite alone_call |].
    intros st w1. rewrite alone_abind. apply bind_ext.
    + destruct (isSymbolicLink st); [|done].
      rewrite alone_abind. apply bind_ext; [by rewrite alone_call |].
      intros target w2. destruct (String.eqb target "kuberlr"); [done |].
      rewrite alone_abind. apply bind_ext; [by rewrite alone_sync | done].
    + intros [] w2; [done |]. rewrite alone_abind. apply bind_ext; [by rewrite alone_call | done].
  - intros [] w1; [done | by rewrite alone_call].
Qed.

Lemma downloadKuberlrAndKubectl_alone (h : Host) (context : DownloadContext) (w : World) :
  alone (Stepwise.downloadKuberlrAndKubectl h context) w = downloadKuberlrAndKubectl h context w.
Proof.
  unfold Stepwise.downloadKuberlrAndKubectl, downloadKuberlrAndKubectl. cbv zeta.
  rewrite alone_abind. apply bind_ext; [apply downloadKuberlr_alone |].
  intros kuberlrPath w1. rewrite alone_abind. apply bind_ext; [apply bindKubectlToKuberlr_alone |].
  intros _ w2. destruct (String.eqb _ _); [|done].
  rewrite alone_abind. apply bind_ext; [apply getResourceM_alone |].
  intros stable w3. rewrite alone_abind. apply bind_ext; [apply getResourceM_alone |].
  intros sha w4. rewrite alone_abind. apply bind_ext; [apply findHome_alone |].
  intros homeDir w5. rewrite alone_avoid. unfold void. apply bind_ext; [apply downloadVia_alone | done].
Qed.

(** A fetch that resolves a checksum and then downloads. *)
Ltac fetch_alone :=
  cbv zeta;
  repeat first
    [ reflexivity
    | apply findChecksum_alone
    | apply getResourceM_alone
    | apply downloadVia_alone
    | rewrite alone_avoid; unfold void; apply bind_ext; [|intros ? ?]
    | rewrite alone_abind; apply bind_ext; [|intros ? ?]
    | rewrite alone_sync
    | rewrite alone_call
    | match goal with
      | |- context [if ?c then _ else _] => destruct c
      end ].

Lemma downloadHelm_alone (h : Host) (context : DownloadContext) (version : string) (w : World) :
  alone (Stepwise.downloadHelm h context version) w = downloadHelm h context version w.
Proof. unfold Stepwise.downloadHelm, downloadHelm. fetch_alone. Qed.

Lemma downloadDockerCLI_alone (h : Host) (context : DownloadContext) (version : string)
    (w : World) :
  alone (Stepwise.downloadDockerCLI h context version) w = downloadDockerCLI h context version w.
Proof. unfold Stepwise.downloadDockerCLI, downloadDockerCLI. fetch_alone. Qed.

Lemma downloadDockerBuildx_alone (h : Host) (context : DownloadContext) (w : World) :
  alone (Stepwise.downloadDockerBuildx h context) w = downloadDockerBuildx h context w.
Proof. unfold Stepwise.downloadDockerBuildx, downloadDockerBuildx. fetch_alone. Qed.

Lemma downloadDockerCompose_alone (h : Host) (context : DownloadContext) (w : World) :
  alone (Stepwise.downloadDockerCompose h context) w = downloadDockerCompose h context w.
Proof. unfold Stepwise.downloadDockerCompose, downloadDockerCompose. fetch_alone. Qed.

Lemma downloadTrivy_alone (h : Host) (context : DownloadContext) (w : World) :
  alone (Stepwise.downloadTrivy h context) w = downloadTrivy h context w.
Proof. unfold Stepwise.downloadTrivy, downloadTrivy. fetch_alone. Qed.

Lemma downloadSteve_alone (h : Host) (context : DownloadContext) (w : World) :
  alone (Stepwise.downloadSteve h context) w = downloadSteve h context w.
Proof. unfold Stepwise.downloadSteve, downloadSteve. fetch_alone. Qed.

Lemma downloadRancherDashboard_alone (h : Host) (w : World) :
  alone (Stepwise.downloadRancherDashboard h) w = downloadRancherDashboard h w.
Proof. unfold Stepwise.downloadRancherDashboard, downloadRancherDashboard. fetch_alone. Qed.

Lemma downloadECRCredHelper_alone (h : Host) (context : DownloadContext) (version : string)
    (w : World) :
  alone (Stepwise.downloadECRCredHelper h context version) w =
  downloadECRCredHelper h context version w.
Proof. unfold Stepwise.downloadECRCredHelper, downloadECRCredHelper. fetch_alone. Qed.

(** ** What promises may emit *)

Lemma extends_refl (P : Event -> Prop) (w : World) : extends P w w.
Proof. exists []. by rewrite app_nil_r. Qed.

Lemma extends_trans (P : Event -> Prop) (w1 w2 w3 : World) :
  extends P w1 w2 -> extends P w2 w3 -> extends P w1 w3.
Proof.
  intros (l & Hl & HP) (l' & Hl' & HP'). exists (l ++ l').
  rewrite Hl', Hl, app_assoc. split; [done | by apply Forall_app].
Qed.

Lemma extends_emitsOnly {A} (P : Event -> Prop) (m : M A) (w : World) :
  emitsOnly P m -> extends P w (snd (m w)).
Proof. intros Hm. apply Hm. Qed.

Section Emits.
Context (P : Event -> Prop).

Lemma announced_extends (e : option Event) (w : World) :
  (forall e', e = Some e' -> P e') -> extends P w (announced e w).
Proof.
  intros He. destruct e as [e|]; [|apply extends_refl].
  exists [e]. split; [done |]. constructor; [by apply He | done].
Qed.

Lemma announceAll_extends {X} (ops : list (Op X)) (w : World) :
  Forall (opEmitsOnly P) ops -> extends P w (announceAll ops w).
Proof.
  unfold announceAll. intros Hops. revert w.
  induction Hops as [|op ops [Hop _] _ IH]; intros w; [apply extends_refl |].
  cbn [fold_left]. eapply extends_trans; [by apply announced_extends | apply IH].
Qed.

Lemma inFlight_emits {X} (ops : list (Op X)) :
  Forall (opEmitsOnly P) ops -> Forall (slotEmitsOnly P) (inFlight ops).
Proof. unfold inFlight. intros H. apply Forall_map. eapply Forall_impl; [done |]. by intros op [_ ?]. Qed.

Lemma advance_emits {A} (p : Async A) (w : World) :
  asyncEmitsOnly P p ->
  taskEmitsOnly P (fst (advance p w)) /\ extends P w (snd (advance p w)).
Proof.
  intros Hp. revert w.
  induction Hp as [r | X m k Hm Hk IH | X op k [Hop Hc] Hk IH | X ops k Hops Hk IH]; intros w.
  - split; [constructor | apply extends_refl].
  - cbn [advance]. pose proof (extends_emitsOnly P m w Hm) as Hw.
    destruct (m w) as [r w']. cbn [snd] in Hw. destruct (IH r w') as [Ht Hw'].
    split; [done | by eapply extends_trans].
  - cbn [advance fst snd]. split; [by constructor | by apply announced_extends].
  - cbn [advance]. destruct ops as [|op ops]; [apply IH |]. cbn [fst snd]. split.
    + constructor; [by apply inFlight_emits | done].
    + by apply announceAll_extends.
Qed.

Lemma resume_emits {A} (j : nat) (t : Task A) (w : World) :
  taskEmitsOnly P t ->
  taskEmitsOnly P (fst (resume j t w)) /\ extends P w (snd (resume j t w)).
Proof.
  intros [r | X finish k Hf Hk | X slots k Hs Hk]; cbn [resume].
  - split; [constructor | apply extends_refl].
  - destruct j as [|j]; [|split; [by constructor | apply extends_refl]].
    pose proof (extends_emitsOnly P finish w Hf) as Hw.
    destruct (finish w) as [r w']. cbn [snd] in Hw.
    destruct (advance_emits (k r) w' (Hk r)) as [Ht Hw'].
    split; [done | by eapply extends_trans].
  - destruct (slots !! j) as [[finish|x]|] eqn:Hj;
      [|split; [by constructor | apply extends_refl]..].
    assert (Hf : emitsOnly P finish).
    { rewrite Forall_lookup in Hs. apply (Hs j _ Hj). }
    pose proof (extends_emitsOnly P finish w Hf) as Hw.
    destruct (finish w) as [[x|e] w']; cbn [snd] in Hw.
    + destruct (arrivals _) as [xs|].
      * destruct (advance_emits (k (Ok xs)) w' (Hk _)) as [Ht Hw'].
        split; [done | by eapply extends_trans].
      * cbn [fst snd]. split; [|done]. constructor; [|done]. by apply Forall_insert.
    + destruct (advance_emits (k (Err e)) w' (Hk _)) as [Ht Hw'].
      split; [done | by eapply extends_trans].
Qed.

Lemma finishSlots_emits {X} (slots : list (Slot X)) :
  Forall (slotEmitsOnly P) slots -> emitsOnly P (finishSlots slots).
Proof.
  induction 1 as [|[finish|x] slots Hs _ IH]; cbn [finishSlots].
  - apply emitsOnly_ret.
  - apply emitsOnly_bind; [done | intros y].
    apply emitsOnly_bind; [done | intros ys]. apply emitsOnly_ret.
  - apply emitsOnly_bind; [done | intros ys]. apply emitsOnly_ret.
Qed.

Lemma alone_emits {A} (p : Async A) : asyncEmitsOnly P p -> emitsOnly P (alone p).
Proof.
  induction 1 as [r | X m k Hm Hk IH | X op k [Hop Hc] Hk IH | X ops k Hops Hk IH]; intros w.
  - apply extends_refl.
  - cbn [alone]. pose proof (extends_emitsOnly P m w Hm) as Hw.
    destruct (m w) as [r w']. eapply extends_trans; [exact Hw | apply IH].
  - cbn [alone]. unfold perform.
    pose proof (announced_extends (announce op) w Hop) as Hw.
    pose proof (extends_emitsOnly P (complete op) (announced (announce op) w) Hc) as Hw'.
    destruct (complete op _) as [r w']. eapply extends_trans; [exact Hw |].
    eapply extends_trans; [exact Hw' | apply IH].
  - cbn [alone].
    pose proof (announceAll_extends ops w Hops) as Hw.
    pose proof (extends_emitsOnly P _ (announceAll ops w)
                  (finishSlots_emits _ (inFlight_emits ops Hops))) as Hw'.
    destruct (finishSlots _ _) as [r w']. eapply extends_trans; [exact Hw |].
    eapply extends_trans; [exact Hw' | apply IH].
Qed.

Lemma finishTask_emits {A} (t : Task A) : taskEmitsOnly P t -> emitsOnly P (finishTask t).
Proof.
  intros [r | X finish k Hf Hk | X slots k Hs Hk] w; cbn [finishTask].
  - apply extends_refl.
  - pose proof (extends_emitsOnly P finish w Hf) as Hw.
    destruct (finish w) as [r w']. eapply extends_trans; [exact Hw |]. by apply alone_emits.
  - pose proof (extends_emitsOnly P _ w (finishSlots_emits slots Hs)) as Hw.
    destruct (finishSlots slots w) as [r w']. eapply extends_trans; [exact Hw |].
    by apply alone_emits.
Qed.

Lemma startAll_emits {A} (ps : list (Async A)) (w : World) :
  Forall (asyncEmitsOnly P) ps ->
  Forall (taskEmitsOnly P) (fst (startAll ps w)) /\ extends P w (snd (startAll ps w)).
Proof.
  intros Hps. revert w. induction Hps as [|p ps Hp _ IH]; intros w; cbn [startAll].
  - split; [constructor | apply extends_refl].
  - destruct (advance_emits p w Hp) as [Ht Hw]. destruct (advance p w) as [t w1].
    destruct (IH w1) as [Hts Hw']. destruct (startAll ps w1) as [ts w2]. cbn [fst snd] in *.
    split; [by constructor | by eapply extends_trans].
Qed.

Lemma follow_emits {A} (order : list (nat * nat)) (pool : list (Task A)) (w : World) :
  Forall (taskEmitsOnly P) pool ->
  Forall (taskEmitsOnly P) (fst (follow order pool w)) /\
  extends P w (snd (follow order pool w)).
Proof.
  revert pool w. induction order as [|[i j] order IH]; intros pool w Hpool; cbn [follow].
  - split; [done | apply extends_refl].
  - destruct (firstRejection pool); [split; [done | apply extends_refl] |].
    destruct (pool !! i) as [t|] eqn:Hi; [|by apply IH].
    assert (Ht : taskEmitsOnly P t) by (by eapply Forall_lookup_1).
    destruct (resume_emits j t w Ht) as [Ht' Hw]. destruct (resume j t w) as [t' w'].
    cbn [fst snd] in *.
    destruct (IH (<[i := t']> pool) w') as [Hp Hw']; [by apply Forall_insert |].
    split; [done | by eapply extends_trans].
Qed.

Lemma finishAll_emits {A} (pool : list (Task A)) (w : World) :
  Forall (taskEmitsOnly P) pool -> extends P w (snd (finishAll pool w)).
Proof.
  intros Hpool. revert w. induction Hpool as [|t pool Ht _ IH]; intros w; cbn [finishAll].
  - apply extends_refl.
  - pose proof (extends_emitsOnly P _ w (finishTask_emits t Ht)) as Hw.
    destruct (finishTask t w) as [[a|e] w']; cbn [snd] in *; [|done].
    specialize (IH w'). destruct (finishAll pool w') as [rest w'']. cbn [snd] in *.
    by eapply extends_trans.
Qed.

(** What [Promise.all] notes after the array has been built. *)
Lemma settleAll_emits (h : Host) {A} (ps : list (Async A)) (w : World) :
  Forall (asyncEmitsOnly P) ps ->
  extends P (snd (startAll ps w)) (snd (settleAll h ps w)).
Proof.
  intros Hps. unfold settleAll. destruct (startAll_emits ps w Hps) as [Hpool _].
  destruct (startAll ps w) as [pool w1]. cbn [fst snd] in *.
  destruct (follow_emits (completions h) pool w1 Hpool) as [Hpool' Hw].
  destruct (follow (completions h) pool w1) as [pool' w2]. cbn [fst snd] in *.
  destruct (firstRejection pool'); [done |].
  eapply extends_trans; [exact Hw | by apply finishAll_emits].
Qed.

Lemma abind_emits {A B} (p : Async A) (f : A -> Async B) :
  asyncEmitsOnly P p -> (forall a, asyncEmitsOnly P (f a)) -> asyncEmitsOnly P (abind p f).
Proof.
  intros Hp Hf.
  induction Hp as [[a|e] | X m k Hm Hk IH | X op k Hop Hk IH | X ops k Hops Hk IH];
    cbn [abind]; try (by constructor).
  apply Hf.
Qed.

Lemma atryCatch_emits {A} (p handler : Async A) :
  asyncEmitsOnly P p -> asyncEmitsOnly P handler -> asyncEmitsOnly P (atryCatch p handler).
Proof.
  intros Hp Hh.
  induction Hp as [[a|e] | X m k Hm Hk IH | X op k Hop Hk IH | X ops k Hops Hk IH];
    cbn [atryCatch]; try (by constructor).
  done.
Qed.

Lemma call_emits {X} (op : Op X) : opEmitsOnly P op -> asyncEmitsOnly P (call op).
Proof. intros Hop. constructor; [done | intros r; constructor]. Qed.

Lemma sync_emits {X} (m : M X) : emitsOnly P m -> asyncEmitsOnly P (sync m).
Proof. intros Hm. constructor; [done | intros r; constructor]. Qed.

Lemma all_emits {X} (ops : list (Op X)) : Forall (opEmitsOnly P) ops -> asyncEmitsOnly P (all ops).
Proof. intros Hops. constructor; [done | intros r; constructor]. Qed.

End Emits.

(** ** The fetches as promises *)

Lemma opEmitsOnly_any {X} (op : Op X) :
  emitsOnly (fun _ => True) (complete op) -> opEmitsOnly (fun _ => True) op.
Proof. by split. Qed.

Ltac awalk :=
  repeat first
    [ apply abind_emits; [|intros ?]
    | apply atryCatch_emits
    | apply emits_return
    | apply call_emits; apply opEmitsOnly_any; cbn [complete]
    | apply sync_emits
    | apply all_emits
    | apply emitsOnly_liftResult
    | apply emitsOnly_onFs
    | apply emitsOnly_lstat
    | apply emitsOnly_readlink
    | apply emitsOnly_existsSync
    | solve [walk; done]
    | progress unfold areturn, athrow, avoid, Stepwise.getResourceM, Stepwise.downloadVia,
        Stepwise.tryAccess, Stepwise.fatal, Stepwise.findChecksum, getResourceOp, downloadOp,
        accessOp, lstatOp, readlinkOp, rmOp, symlinkOp, copyFileOp, mkdirOp
    | case_match ].

Lemma fetchTool_emits (h : Host) (context : DownloadContext) (depVersions : DependencyVersions)
    (t : Tool) :
  asyncEmitsOnly (fun _ => True) (Stepwise.fetchTool h context depVersions t).
Proof.
  destruct t; cbn [Stepwise.fetchTool].
  - unfold Stepwise.downloadKuberlrAndKubectl, Stepwise.downloadKuberlr,
      Stepwise.bindKubectlToKuberlr, Stepwise.findHome. cbv zeta. awalk.
  - unfold Stepwise.downloadHelm. cbv zeta. awalk.
  - unfold Stepwise.downloadDockerCLI. cbv zeta. awalk.
  - unfold Stepwise.downloadDockerBuildx. cbv zeta. awalk.
  - unfold Stepwise.downloadDockerCompose. cbv zeta. awalk.
  - unfold Stepwise.downloadTrivy. cbv zeta. awalk.
  - unfold Stepwise.downloadSteve. cbv zeta. awalk.
  - unfold Stepwise.downloadRancherDashboard. cbv zeta. awalk.
  - unfold Stepwise.downloadDockerProvidedCredHelpers. cbv zeta.
    apply abind_emits; [|intros ?; constructor]. apply all_emits.
    apply Forall_map, Forall_forall. intros baseName _. apply opEmitsOnly_any.
    apply emitsOnly_onFs.
  - unfold Stepwise.downloadECRCredHelper. cbv zeta. awalk.
Qed.

(** ** The outcome of [Promise.all] *)

Lemma firstRejection_none {A} (pool : list (Task A)) :
  firstRejection pool = None <-> Forall (fun t => rejected t = false) pool.
Proof.
  induction pool as [|t pool IH]; cbn [firstRejection]; [by split; [constructor|] |].
  rewrite Forall_cons, <- IH. destruct t as [[a|e]| |]; cbn; split; try done; by intros [? ?].
Qed.

Lemma firstRejection_some {A} (pool : list (Task A)) (e : string) :
  firstRejection pool = Some e -> Settled (Err e) ∈ pool.
Proof.
  induction pool as [|t pool IH]; cbn [firstRejection]; [done |].
  destruct t as [[a|e']| |]; cbn [rejection].
  - intros H. right. by apply IH.
  - intros [= ->]. left.
  - intros H. right. by apply IH.
  - intros H. right. by apply IH.
Qed.

Lemma pending_not_rejected {A} (pool : list (Task A)) :
  Forall pending pool -> Forall (fun t => rejected t = false) pool.
Proof. intros H. eapply Forall_impl; [exact H |]. by intros [[a|e]| |]. Qed.

Lemma filter_rejected_none {A} (pool : list (Task A)) :
  Forall (fun t => rejected t = false) pool -> List.filter rejected pool = [].
Proof. induction 1 as [|t pool Ht _ IH]; cbn [List.filter]; [done | by rewrite Ht]. Qed.

Lemma follow_rejected {A} (order : list (nat * nat)) (pool : list (Task A)) (w : World) :
  firstRejection pool <> None -> follow order pool w = (pool, w).
Proof. intros H. destruct order as [|[i j] order]; cbn [follow]; [done |]. by case_match. Qed.

(** [Promise.all] looks at no other promise once one has been rejected. *)
Lemma follow_one_rejection {A} (order : list (nat * nat)) (pool : list (Task A)) (w : World) :
  Forall (fun t => rejected t = false) pool ->
  length (fst (follow order pool w)) = length pool /\
  length (List.filter rejected (fst (follow order pool w))) <= 1.
Proof.
  revert pool w. induction order as [|[i j] order IH]; intros pool w Hpool; cbn [follow].
  - cbn [fst]. rewrite filter_rejected_none by done. split; [done | cbn; lia].
  - rewrite (proj2 (firstRejection_none pool) Hpool).
    destruct (pool !! i) as [t|] eqn:Hi; [|by apply IH].
    destruct (resume j t w) as [t' w']. destruct (rejected t') eqn:Ht'.
    + rewrite follow_rejected.
      * cbn [fst]. rewrite length_insert. split; [done |].
        rewrite insert_take_drop by (by eapply lookup_lt_Some).
        rewrite List.filter_app. cbn [List.filter]. rewrite Ht'.
        rewrite !filter_rejected_none; [cbn; lia | |].
        -- by apply Forall_drop.
        -- by apply Forall_take.
      * intros Hnone. apply firstRejection_none in Hnone.
        rewrite Forall_forall in Hnone. specialize (Hnone t').
        rewrite Hnone in Ht'; [done |]. apply list_elem_of_lookup. exists i.
        apply list_lookup_insert_eq. by eapply lookup_lt_Some.
    + destruct (IH (<[i := t']> pool) w') as [Hlen Hcount]; [by apply Forall_insert |].
      by rewrite Hlen, length_insert in *.
Qed.

Lemma finishAll_settles {A} (pool : list (Task A)) (w : World) :
  Forall (fun t => rejected t = false) pool ->
  length (fst (finishAll pool w)) = length pool /\
  length (List.filter rejected (fst (finishAll pool w))) <= 1 /\
  (firstRejection (fst (finishAll pool w)) = None -> Forall fulfilled (fst (finishAll pool w))).
Proof.
  intros Hpool. revert w. induction Hpool as [|t pool Ht Hpool IH]; intros w; cbn [finishAll].
  - repeat split; [cbn; lia | constructor].
  - destruct (finishTask t w) as [[a|e] w'].
    + destruct (IH w') as (Hlen & Hcount & Hall). destruct (finishAll pool w') as [rest w''].
      cbn [fst length List.filter rejected firstRejection rejection] in *.
      repeat split; [by rewrite Hlen | done |].
      intros Hnone. constructor; [by exists a | by apply Hall].
    + cbn [fst length List.filter rejected firstRejection rejection].
      rewrite filter_rejected_none by done. repeat split; [cbn; lia | done].
Qed.

(** When [Promise.all] settles, over promises none of which was rejected
    when the array was built: either every promise has been fulfilled, or
    exactly one has been rejected, the first, and the others are as they were
    then. *)
Lemma settleAll_outcome (h : Host) {A} (ps : list (Async A)) (w : World) :
  Forall (fun t => rejected t = false) (fst (startAll ps w)) ->
  length (fst (settleAll h ps w)) = length (fst (startAll ps w)) /\
  length (List.filter rejected (fst (settleAll h ps w))) <= 1 /\
  (firstRejection (fst (settleAll h ps w)) = None -> Forall fulfilled (fst (settleAll h ps w))).
Proof.
  intros Hstart. unfold settleAll. destruct (startAll ps w) as [pool w1]. cbn [fst] in *.
  destruct (follow_one_rejection (completions h) pool w1 Hstart) as [Hlen Hcount].
  destruct (follow (completions h) pool w1) as [pool' w2]. cbn [fst] in *.
  destruct (firstRejection pool') eqn:Hrej.
  { cbn [fst]. rewrite Hrej. by repeat split. }
  apply firstRejection_none in Hrej.
  destruct (finishAll_settles pool' w2 Hrej) as (Hlen' & Hcount' & Hall).
  rewrite Hlen', Hlen. by repeat split.
Qed.

Lemma first_rejection_insert {A} (pool : list (Task A)) (i : nat) (e : string) :
  Forall (fun t => rejected t = false) pool -> i < length pool ->
  firstRejection (<[i := Settled (Err e)]> pool) = Some e.
Proof.
  intros Hpool. revert i. induction Hpool as [|t pool Ht _ IH]; intros i Hi; [cbn in Hi; lia |].
  destruct i as [|i]; [done |].
  change (firstRejection (t :: <[i := Settled (Err e)]> pool) = Some e).
  cbn [firstRejection]. destruct t as [[a|e']| |]; cbn [rejection rejected] in *; try done;
    apply IH; cbn in Hi; lia.
Qed.

Lemma startAll_length {A} (ps : list (Async A)) (w : World) :
  length (fst (startAll ps w)) = length ps.
Proof.
  revert w. induction ps as [|p ps IH]; intros w; cbn [startAll]; [done |].
  destruct (advance p w) as [t w1]. specialize (IH w1). destruct (startAll ps w1) as [ts w2].
  cbn [fst length] in *. by rewrite IH.
Qed.

(** ** The start of the fetches *)

Lemma logAll_logAll (w : World) (l l' : list Event) : logAll (logAll w l) l' = logAll w (l ++ l').
Proof. unfold logAll. cbn [fs trace]. by rewrite app_assoc. Qed.

Lemma fetchTool_started (h : Host) (context : DownloadContext)
    (depVersions : DependencyVersions) (t : Tool) (w : World) :
  pending (fst (advance (Stepwise.fetchTool h context depVersions t) w)) /\
  snd (advance (Stepwise.fetchTool h context depVersions t) w) =
    logAll w (firstRequest h context depVersions t).
Proof.
  destruct t; cbn [Stepwise.fetchTool firstRequest];
    unfold Stepwise.downloadKuberlrAndKubectl, Stepwise.downloadKuberlr, Stepwise.downloadHelm,
      Stepwise.downloadDockerCLI, Stepwise.downloadDockerBuildx, Stepwise.downloadDockerCompose,
      Stepwise.downloadTrivy, Stepwise.downloadSteve, Stepwise.downloadRancherDashboard,
      Stepwise.downloadDockerProvidedCredHelpers, Stepwise.downloadECRCredHelper,
      helmURL, buildxURL, buildxExecutable, buildxPath, buildxURLBase, credHelperRequest,
      archiveDownloader, exeName, onM1;
    cbv zeta;
    destruct context as [dp p kp bin internal];
    cbn [platform kubePlatform dependencyPlaform binDir internalDir];
    destruct (JS.truthy (process_env h "M1")), p, kp;
    cbn [credHelperNames map Platform_str KubePlatform_str];
    (split; [exact I |]);
    cbn [avoid all abind advance snd announceAll fold_left announced announce downloadOp];
    unfold logAll, logged; cbn [fs trace]; rewrite <- ?app_assoc; reflexivity.
Qed.

Lemma startAll_fetches (h : Host) (context : DownloadContext) (depVersions : DependencyVersions)
    (tools : list Tool) (w : World) :
  Forall pending (fst (startAll (map (Stepwise.fetchTool h context depVersions) tools) w)) /\
  snd (startAll (map (Stepwise.fetchTool h context depVersions) tools) w) =
    logAll w (concat (map (firstRequest h context depVersions) tools)).
Proof.
  revert w. induction tools as [|t tools IH]; intros w; cbn [map startAll concat].
  - split; [constructor |]. unfold logAll. destruct w. cbn. by rewrite app_nil_r.
  - destruct (fetchTool_started h context depVersions t w) as [Hp Hw].
    destruct (advance _ w) as [t' w1]. cbn [fst snd] in *. subst w1.
    destruct (IH (logAll w (firstRequest h context depVersions t))) as [Hps Hw'].
    destruct (startAll _ _) as [ts w2]. cbn [fst snd] in *.
    split; [by constructor | by rewrite Hw', logAll_logAll].
Qed.

(** ** The credential helpers, awaited alone *)

Lemma startAll_calls {X} (ops : list (Op X)) (w : World) :
  startAll (map call ops) w =
    (map (fun op => Waiting (complete op) Return) ops, announceAll ops w).
Proof.
  unfold announceAll. revert w. induction ops as [|op ops IH]; intros w; [done |].
  cbn [map startAll call advance fold_left]. by rewrite IH.
Qed.

Lemma finishAll_calls {X} (ops : list (Op X)) (w : World) :
  (outcome (fst (finishAll (map (fun op => Waiting (complete op) Return) ops) w)),
   snd (finishAll (map (fun op => Waiting (complete op) Return) ops) w)) =
  finishSlots (inFlight ops) w.
Proof.
  unfold inFlight. revert w. induction ops as [|op ops IH]; intros w; [done |].
  cbn [map finishAll finishTask finishSlots]. unfold bind at 1.
  destruct (complete op w) as [[x|e] w1]; cbn [alone]; [|done].
  specialize (IH w1). unfold bind, ret.
  destruct (finishAll _ w1) as [rest w2]. cbn [fst snd] in *. rewrite <- IH.
  unfold outcome. cbn [firstRejection rejection omap fulfilment].
  by destruct (firstRejection rest).
Qed.

(** With the host completing operations in array order, [Promise.all] over
    calls is the [Promise.all] of the operations awaited alone. *)
Lemma promiseAll_calls_alone (h : Host) {X} (ops : list (Op X)) (w : World) :
  completions h = [] -> promiseAll h (map call ops) w = alone (all ops) w.
Proof.
  intros Horder. unfold promiseAll, settleAll. rewrite startAll_calls, Horder.
  cbn [follow all alone].
  assert (Hnone : firstRejection (map (fun op : Op X => Waiting (complete op) (@Return X)) ops)
                  = None).
  { apply firstRejection_none, Forall_map, Forall_forall. done. }
  rewrite Hnone. rewrite <- finishAll_calls.
  by destruct (finishAll _ _) as [pool w'].
Qed.

Lemma downloadDockerProvidedCredHelpers_alone (h : Host) (context : DownloadContext) (w : World) :
  completions h = [] ->
  alone (Stepwise.downloadDockerProvidedCredHelpers h context) w =
  downloadDockerProvidedCredHelpers h context w.
Proof.
  intros Horder. unfold Stepwise.downloadDockerProvidedCredHelpers,
    downloadDockerProvidedCredHelpers. cbv zeta.
  rewrite <- (promiseAll_calls_alone h) by done. by rewrite map_map.
Qed.

(** Each fetch, awaited alone, is the function of its name. *)
Lemma fetchTool_alone (h : Host) (context : DownloadContext) (depVersions : DependencyVersions)
    (t : Tool) (w : World) :
  (t = DockerProvidedCredHelpers -> completions h = []) ->
  alone (Stepwise.fetchTool h context depVersions t) w = fetchTool h context depVersions t w.
Proof.
  intros Horder. destruct t; cbn [Stepwise.fetchTool fetchTool].
  - apply downloadKuberlrAndKubectl_alone.
  - apply downloadHelm_alone.
  - apply downloadDockerCLI_alone.
  - apply downloadDockerBuildx_alone.
  - apply downloadDockerCompose_alone.
  - apply downloadTrivy_alone.
  - apply downloadSteve_alone.
  - apply downloadRancherDashboard_alone.
  - rewrite alone_avoid. unfold void. apply bind_ext; [|done].
    apply downloadDockerProvidedCredHelpers_alone. by apply Horder.
  - apply downloadECRCredHelper_alone.
Qed.

(** C2.  Once the two directories are made, [downloadDependencies] is the
    [Promise.all] of the ten fetches and nothing else; each of them,
    awaited alone, is the function of its name.  The fetches are issued
    together: when the array is built every one of the ten has made its first
    request, in array order, and waits for it, and the trace of the whole call
    goes on from there, whatever completes first.  The call succeeds exactly
    when all ten fetches have been fulfilled, so only when every one has
    finished.  It fails exactly when one of them has been rejected, with the
    reason of that one, which is the first to be rejected in the order in
    which the host completes the operations: at that moment no other fetch
    has been rejected, and none is waited for or started again.  So when the
    operation the host completes first rejects its fetch, the call fails with
    that reason there and then, wherever the fetch stands in the array. *)
Theorem downloadDependencies_joins_every_fetch (h : Host) (rawPlatform : DependencyPlatform)
    (depVersions : DependencyVersions) (w w1 : World) :
  let context := makeContext h rawPlatform in
  let fetches := map (Stepwise.fetchTool h context depVersions) topLevel in
  let requests := concat (map (firstRequest h context depVersions) topLevel) in
  let started := startAll fetches w1 in
  let final := settleAll h fetches w1 in
  let result := fst (downloadDependencies h rawPlatform depVersions w) in
  (mkdirRecursive (binDir context) ;; mkdirRecursive (internalDir context)) w = (Ok tt, w1) ->
  downloadDependencies h rawPlatform depVersions w = void (promiseAll h fetches) w1 /\
  (forall t w', (t = DockerProvidedCredHelpers -> completions h = []) ->
     alone (Stepwise.fetchTool h context depVersions t) w' =
     fetchTool h context depVersions t w') /\
  length fetches = 10 /\
  length (fst started) = 10 /\
  Forall pending (fst started) /\
  snd started = logAll w1 requests /\
  (exists later,
     trace (snd (downloadDependencies h rawPlatform depVersions w)) =
     trace w1 ++ requests ++ later) /\
  snd (downloadDependencies h rawPlatform depVersions w) = snd final /\
  length (fst final) = 10 /\
  (result = Ok tt <-> Forall (fun t => t = Settled (Ok tt)) (fst final)) /\
  (forall e, result = Err e <-> firstRejection (fst final) = Some e) /\
  (isOk result = false -> length (List.filter rejected (fst final)) = 1) /\
  (forall i j rest t e,
     completions h = (i, j) :: rest ->
     fst started !! i = Some t ->
     fst (resume j t (snd started)) = Settled (Err e) ->
     downloadDependencies h rawPlatform depVersions w =
       (Err e, snd (resume j t (snd started)))).
Proof.
  intros context fetches requests started final result Hprepared.
  assert (Hdef : downloadDependencies h rawPlatform depVersions w =
                 void (promiseAll h fetches) w1).
  { unfold downloadDependencies. cbv zeta. fold context.
    change [Stepwise.downloadKuberlrAndKubectl h context;
            Stepwise.downloadHelm h context (helm depVersions);
            Stepwise.downloadDockerCLI h context (dockerCLI depVersions);
            Stepwise.downloadDockerBuildx h context;
            Stepwise.downloadDockerCompose h context;
            Stepwise.downloadTrivy h context;
            Stepwise.downloadSteve h context;
            Stepwise.downloadRancherDashboard h;
            avoid (Stepwise.downloadDockerProvidedCredHelpers h context);
            Stepwise.downloadECRCredHelper h context (ECRCredenialHelper depVersions)]
      with fetches.
    unfold bind in Hprepared |- *.
    destruct (mkdirRecursive (binDir context) w) as [[[]|e1] wa]; [|done].
    destruct (mkdirRecursive (internalDir context) wa) as [[[]|e2] wb]; [|done].
    by injection Hprepared as ->. }
  destruct (startAll_fetches h context depVersions topLevel w1) as [Hpending Hstarted].
  fold fetches requests started in Hpending, Hstarted.
  assert (Hlen : length (fst started) = 10).
  { unfold started. by rewrite startAll_length. }
  destruct (settleAll_outcome h fetches w1 (pending_not_rejected _ Hpending))
    as (Hlen' & Hcount & Hall).
  fold final started in Hlen', Hcount, Hall.
  assert (Hrun : downloadDependencies h rawPlatform depVersions w =
                 (match firstRejection (fst final) with Some e => Err e | None => Ok tt end,
                  snd final)).
  { rewrite Hdef. unfold void, bind, promiseAll, ret, outcome. fold final.
    destruct final as [pool w']. cbn [fst snd]. by destruct (firstRejection pool). }
  assert (Hworld : snd (downloadDependencies h rawPlatform depVersions w) = snd final)
    by (by rewrite Hrun).
  assert (Hresult : result = match firstRejection (fst final) with
                             | Some e => Err e
                             | None => Ok tt
                             end)
    by (unfold result; by rewrite Hrun).
  split; [exact Hdef |].
  split; [intros t w' Horder; by apply fetchTool_alone |].
  split; [reflexivity |].
  split; [exact Hlen |].
  split; [exact Hpending |].
  split; [exact Hstarted |].
  split.
  { destruct (settleAll_emits (fun _ => True) h fetches w1) as (later & Hlater & _).
    { apply Forall_map, Forall_forall. intros t _. apply fetchTool_emits. }
    exists later. fold final started in Hlater.
    rewrite Hworld, Hlater, Hstarted. cbn [logAll trace]. by rewrite <- app_assoc. }
  split; [exact Hworld |].
  split; [by rewrite Hlen' |].
  split.
  { rewrite Hresult. split.
    - intros Hok. destruct (firstRejection (fst final)) eqn:Hrej; [done |].
      eapply Forall_impl; [by apply Hall |]. by intros t [[] ->].
    - intros Hdone. rewrite (proj2 (firstRejection_none (fst final))); [done |].
      eapply Forall_impl; [exact Hdone |]. by intros t ->. }
  split.
  { intros e. rewrite Hresult. destruct (firstRejection (fst final)); split; congruence. }
  split.
  { rewrite Hresult. destruct (firstRejection (fst final)) as [e|] eqn:Hrej; [intros _ | done].
    apply firstRejection_some in Hrej.
    assert (Hin : Settled (Err e) ∈ List.filter rejected (fst final)).
    { apply list_elem_of_In, filter_In. by rewrite <- list_elem_of_In. }
    destruct (List.filter rejected (fst final)) as [|t [|t' l]]; cbn [length] in *;
      [by apply elem_of_nil in Hin | done | lia]. }
  intros i j rest t e Horder Hi Hrejected.
  rewrite Hrun. unfold final, settleAll. fold started.
  destruct started as [pool w2]. cbn [fst snd] in *. rewrite Horder. cbn [follow].
  rewrite (proj2 (firstRejection_none pool) (pending_not_rejected _ Hpending)), Hi.
  destruct (resume j t w2) as [t' w3]. cbn [fst snd] in *. subst t'.
  assert (Hfirst : firstRejection (<[i := Settled (Err e)]> pool) = Some e).
  { apply first_rejection_insert; [by apply pending_not_rejected | by eapply lookup_lt_Some]. }
  rewrite follow_rejected by congruence. rewrite Hfirst. cbn [fst snd]. by rewrite Hfirst.
Qed.

(** Two outages, and the one that rejects the call is the one the host
    reports first: the checksums of Steve when the operations in flight
    complete in turn; the version file, late in the first fetch, when they
    complete in array order. *)
Lemma downloadDependencies_joins_every_fetch_witness :
  let h := sampleHost "linux" noEnv twoOutages in
  fst (downloadDependencies h dp_linux sampleVersions world0) =
    Err "the checksums of steve are down" /\
  fst (downloadDependencies (completing [] h) dp_linux sampleVersions world0) =
    Err "stable.txt is down".
Proof.
  intros h.
  set (w1 := snd ((mkdirRecursive "/src/resources/linux/bin" ;;
                   mkdirRecursive "/src/resources/linux/internal") world0)).
  split.
  - destruct (downloadDependencies_joins_every_fetch h dp_linux sampleVersions world0 w1)
      as (_ & _ & _ & _ & _ & _ & _ & _ & _ & _ & Hreject & _); [reflexivity |].
    apply Hreject. vm_compute. reflexivity.
  - destruct (downloadDependencies_joins_every_fetch (completing [] h) dp_linux
                sampleVersions world0 w1)
      as (_ & _ & _ & _ & _ & _ & _ & _ & _ & _ & Hreject & _); [reflexivity |].
    apply Hreject. vm_compute. reflexivity.
Defined.

(** * Further properties of [tools.ts] *)

(** ** The token [findChecksum] returns *)

Lemma firstToken_shape (line : string) :
  exists rest,
    line = spec_firstToken line +:+ rest /\
    noSpace (spec_firstToken line) = true /\
    match rest with
    | "" => True
    | String c _ => JS.isSpace c = true
    end.
Proof.
  induction line as [|c line IH]; [by exists "" |].
  cbn [spec_firstToken]. destruct (JS.isSpace c) eqn:Hc.
  - exists (String c line). done.
  - destruct IH as (rest & Hline & Hno & Hrest). exists rest.
    rewrite append_cons, <- Hline. unfold noSpace in *. cbn [allChars]. by rewrite Hc, Hno.
Qed.

(** X1.  A checksum returned by [findChecksum] is the longest prefix without
    white space of the one manifest line that contains the name: it holds no
    white space, and what follows it in the line is nothing or starts with
    white space.  It is empty exactly when that line is empty or starts with
    white space. *)
Theorem findChecksum_returns_leading_token (h : Host) (url name sum : string) (w : World)
    (Hsum : fst (findChecksum h url name w) = Ok sum) :
  exists text line rest,
    getResource h url = Ok text /\
    List.filter (fun l => JS.includes l name) (JS.splitLines text) = [line] /\
    line = sum +:+ rest /\
    noSpace sum = true /\
    match rest with "" => True | String c _ => JS.isSpace c = true end /\
    (sum = "" <-> line = "" \/ exists c r, line = String c r /\ JS.isSpace c = true).
Proof.
  rewrite findChecksum_run in Hsum. cbn [fst] in Hsum.
  destruct (getResource h url) as [text|e]; [|done].
  destruct (List.filter _ _) as [|line [|line' more]] eqn:Hf; try done.
  injection Hsum as <-.
  destruct (firstToken_shape line) as (rest & Hline & Hno & Hrest).
  exists text, line, rest. repeat split; try done.
  - destruct line as [|c r]; [by left |]. cbn [spec_firstToken].
    destruct (JS.isSpace c) eqn:Hc; [|done]. intros _. right. by exists c, r.
  - intros [-> | (c & r & -> & Hc)]; [done |]. cbn [spec_firstToken]. by rewrite Hc.
Qed.

(** A manifest line that starts with a blank yields the empty checksum. *)
Lemma findChecksum_returns_leading_token_witness :
  exists text line rest,
    getResource (sampleHost "linux" noEnv (serving "  helm.tar.gz")) "u" = Ok text /\
    List.filter (fun l => JS.includes l "helm.tar.gz") (JS.splitLines text) = [line] /\
    line = "" +:+ rest /\
    noSpace "" = true /\
    match rest with "" => True | String c _ => JS.isSpace c = true end /\
    ("" = "" <-> line = "" \/ exists c r, line = String c r /\ JS.isSpace c = true).
Proof.
  apply (findChecksum_returns_leading_token
           (sampleHost "linux" noEnv (serving "  helm.tar.gz")) "u" "helm.tar.gz" "" world0).
  reflexivity.
Defined.

(** ** Line ends *)

Lemma allChars_cons (p : ascii -> bool) (c : ascii) (s : string) :
  allChars p (String c s) = true <-> p c = true /\ allChars p s = true.
Proof. cbn [allChars]. apply andb_true_iff. Qed.

Lemma splitLinesFrom_plain (cur s : string) :
  plainLine s = true -> JS.splitLinesFrom cur s = [cur +:+ s].
Proof.
  revert cur. induction s as [|c s IH]; intros cur Hs.
  - by rewrite append_empty_r.
  - apply allChars_cons in Hs as [Hc Hs]. apply andb_true_iff in Hc as [Hlf Hcr].
    apply negb_true_iff in Hlf, Hcr. cbn [JS.splitLinesFrom]. rewrite Hlf, Hcr.
    rewrite IH by done. unfold JS.snoc. by rewrite append_assoc.
Qed.

Lemma splitLinesFrom_lf (cur s t : string) :
  plainLine s = true ->
  JS.splitLinesFrom cur (s +:+ newline +:+ t) = (cur +:+ s) :: JS.splitLinesFrom "" t.
Proof.
  revert cur. induction s as [|c s IH]; intros cur Hs.
  - by rewrite append_empty_r.
  - apply allChars_cons in Hs as [Hc Hs]. apply andb_true_iff in Hc as [Hlf Hcr].
    apply negb_true_iff in Hlf, Hcr. rewrite append_cons.
    cbn [JS.splitLinesFrom]. rewrite Hlf, Hcr.
    rewrite IH by done. unfold JS.snoc. by rewrite append_assoc.
Qed.

Lemma splitLinesFrom_crlf (cur s t : string) :
  plainLine s = true ->
  JS.splitLinesFrom cur (s +:+ crlf +:+ t) = (cur +:+ s) :: JS.splitLinesFrom "" t.
Proof.
  revert cur. induction s as [|c s IH]; intros cur Hs.
  - by rewrite append_empty_r.
  - apply allChars_cons in Hs as [Hc Hs]. apply andb_true_iff in Hc as [Hlf Hcr].
    apply negb_true_iff in Hlf, Hcr. rewrite append_cons.
    cbn [JS.splitLinesFrom]. rewrite Hlf, Hcr.
    rewrite IH by done. unfold JS.snoc. by rewrite append_assoc.
Qed.

Lemma splitLines_concat (sep : string) (lines : list string) :
  sep = newline \/ sep = crlf ->
  lines <> [] ->
  Forall (fun l => plainLine l = true) lines ->
  JS.splitLines (String.concat sep lines) = lines.
Proof.
  intros Hsep Hne Hplain. unfold JS.splitLines.
  induction Hplain as [|l lines Hl Hplain IH]; [done |].
  destruct lines as [|l' lines].
  - cbn [String.concat]. by rewrite splitLinesFrom_plain.
  - change (String.concat sep (l :: l' :: lines))
      with (l +:+ sep +:+ String.concat sep (l' :: lines)).
    destruct Hsep as [-> | ->];
      [rewrite splitLinesFrom_lf by done | rewrite splitLinesFrom_crlf by done];
      by rewrite IH.
Qed.

(** X2.  A manifest reads the same whether its lines are separated by line
    feeds or by carriage return and line feed: both split into the same
    lines, so [findChecksum] resolves the same checksum from either, and
    fails on one exactly when it fails on the other. *)
Theorem findChecksum_ignores_line_end_style (h1 h2 : Host) (url name : string) (w : World)
    (lines : list string)
    (Hlines : lines <> [])
    (Hplain : Forall (fun l => plainLine l = true) lines)
    (Hlf : getResource h1 url = Ok (String.concat newline lines))
    (Hcrlf : getResource h2 url = Ok (String.concat crlf lines)) :
  JS.splitLines (String.concat newline lines) = lines /\
  JS.splitLines (String.concat crlf lines) = lines /\
  (forall sum, fst (findChecksum h1 url name w) = Ok sum <->
               fst (findChecksum h2 url name w) = Ok sum) /\
  isOk (fst (findChecksum h1 url name w)) = isOk (fst (findChecksum h2 url name w)).
Proof.
  assert (H1 := splitLines_concat newline lines (or_introl eq_refl) Hlines Hplain).
  assert (H2 := splitLines_concat crlf lines (or_intror eq_refl) Hlines Hplain).
  rewrite !findChecksum_run, Hlf, Hcrlf, H1, H2. cbn [fst].
  repeat split; try done;
    by destruct (List.filter _ lines) as [|line [|line' more]].
Qed.

Lemma findChecksum_ignores_line_end_style_witness :
  let lines := ["aa11  steve-linux-amd64"; "bb22  steve-darwin-amd64"] in
  let h1 := sampleHost "linux" noEnv (serving (String.concat newline lines)) in
  let h2 := sampleHost "linux" noEnv (serving (String.concat crlf lines)) in
  fst (findChecksum h2 "u" "steve-darwin-amd64" world0) = Ok "bb22".
Proof.
  intros lines h1 h2.
  apply (findChecksum_ignores_line_end_style h1 h2 "u" "steve-darwin-amd64" world0 lines).
  - discriminate.
  - repeat constructor.
  - reflexivity.
  - reflexivity.
  - reflexivity.
Defined.

(** ** Without the network *)

Lemma stopsAt_getResourceM (h : Host) (url : string) (w : World) :
  isOk (getResource h url) = false -> stopsAt (getResourceM h url) w url.
Proof.
  intros Hoff. unfold stopsAt. rewrite (getResourceM_run h url w).
  destruct (getResource h url) as [text|e]; [done | by exists e].
Qed.

Lemma stopsAt_findChecksum (h : Host) (url name : string) (w : World) :
  isOk (getResource h url) = false -> stopsAt (findChecksum h url name) w url.
Proof.
  intros Hoff. unfold stopsAt. rewrite findChecksum_run.
  destruct (getResource h url) as [text|e]; [done | by exists e].
Qed.

Lemma stopsAt_bind {A B} (m : M A) (k : A -> M B) (w : World) (url : string) :
  stopsAt m w url -> stopsAt (bind m k) w url.
Proof. intros [e He]. exists e. unfold bind. by rewrite He. Qed.

Lemma stopsAt_quiet {A} (m : M A) (w : World) (url : string) :
  stopsAt m w url ->
  isOk (fst (m w)) = false /\
  emitted m w = [EvGetResource url] /\
  fs (snd (m w)) = fs w.
Proof.
  intros [e He]. unfold emitted. rewrite He. cbn [fst snd logged trace fs isOk].
  by rewrite drop_app_length.
Qed.

(** X3.  When the network answers no request, each fetch that verifies a
    checksum (all but the credential helpers, and Docker Buildx off [darwin])
    fails after its first request: it asks for no download and leaves the
    file system as it was. *)
Theorem no_network_no_verified_download (h : Host) (context : DownloadContext)
    (depVersions : DependencyVersions) (w : World) (t : Tool)
    (Hoffline : forall url, isOk (getResource h url) = false)
    (Ht : t ∈ [KuberlrAndKubectl; Helm; DockerCLI; DockerCompose; Trivy; Steve; RancherDashboard]
          \/ (t = DockerBuildx /\ kubePlatform context <> kube_darwin)) :
  isOk (fst (fetchTool h context depVersions t w)) = false /\
  downloadsOf (emitted (fetchTool h context depVersions t) w) = [] /\
  (exists url, emitted (fetchTool h context depVersions t) w = [EvGetResource url]) /\
  fs (snd (fetchTool h context depVersions t w)) = fs w.
Proof.
  assert (Hstop : exists url, stopsAt (fetchTool h context depVersions t) w url).
  { destruct Ht as [Ht | [-> Hkube]].
    - repeat (apply elem_of_cons in Ht as [->|Ht]); [..|by apply elem_of_nil in Ht];
        cbn [fetchTool]; eexists.
      + unfold downloadKuberlrAndKubectl, downloadKuberlr.
        apply stopsAt_bind, stopsAt_bind, stopsAt_getResourceM, Hoffline.
      + unfold downloadHelm. apply stopsAt_bind, stopsAt_getResourceM, Hoffline.
      + unfold downloadDockerCLI. apply stopsAt_bind, stopsAt_findChecksum, Hoffline.
      + unfold downloadDockerCompose. apply stopsAt_bind, stopsAt_findChecksum, Hoffline.
      + unfold downloadTrivy. apply stopsAt_bind, stopsAt_findChecksum, Hoffline.
      + unfold downloadSteve. apply stopsAt_bind, stopsAt_findChecksum, Hoffline.
      + unfold downloadRancherDashboard. apply stopsAt_bind, stopsAt_findChecksum, Hoffline.
    - cbn [fetchTool]. eexists. unfold downloadDockerBuildx.
      destruct (kubePlatform context); [| done |]; cbn [KubePlatform_str];
        vm_compute (negb _);
        apply stopsAt_bind, stopsAt_bind, stopsAt_findChecksum, Hoffline. }
  destruct Hstop as [url Hstop].
  destruct (stopsAt_quiet _ _ _ Hstop) as (Hfail & Hem & Hfs).
  rewrite Hem. repeat split; try done. by exists url.
Qed.

Lemma no_network_no_verified_download_witness :
  downloadsOf (emitted (fetchTool (sampleHost "linux" noEnv offline) (sampleContext linux)
                          sampleVersions Trivy) world0) = [].
Proof.
  apply (no_network_no_verified_download (sampleHost "linux" noEnv offline)
           (sampleContext linux) sampleVersions world0 Trivy).
  - intros url. reflexivity.
  - left. do 4 apply list_elem_of_further. apply list_elem_of_here.
Defined.

(** ** Building for another platform *)

Lemma eqb_false_of_neq (a b : string) : a <> b -> String.eqb a b = false.
Proof. intros H. by apply String.eqb_neq. Qed.

(** X4.  When the platform of the context is not the platform of the host,
    [downloadKuberlrAndKubectl] stops after binding [kubectl]: the only
    resource it reads is the kuberlr checksum file and the only download it
    asks for is the kuberlr archive; [stable.txt], the [kubectl] binary and
    the home directory are not looked at. *)
Theorem cross_build_skips_managed_kubectl (h : Host) (context : DownloadContext) (w : World)
    (Hcross : Platform_str (platform context) <> os_platform h) :
  Forall (kuberlrOnly context) (emitted (downloadKuberlrAndKubectl h context) w) /\
  downloadKuberlrAndKubectl h context w =
    (do kuberlrPath <- downloadKuberlr h context "amd64";
     bindKubectlToKuberlr h kuberlrPath
       (path_join h [binDir context; exeName context "kubectl"])) w.
Proof.
  assert (Heq : downloadKuberlrAndKubectl h context w =
    (do kuberlrPath <- downloadKuberlr h context "amd64";
     bindKubectlToKuberlr h kuberlrPath
       (path_join h [binDir context; exeName context "kubectl"])) w).
  { unfold downloadKuberlrAndKubectl. rewrite (eqb_false_of_neq _ _ Hcross).
    unfold bind. destruct (downloadKuberlr h context "amd64" w) as [[p|e] w1]; [|done].
    by destruct (bindKubectlToKuberlr h p _ w1) as [[[]|e] w2]. }
  assert (Hbind : forall p (P : Event -> Prop),
            (forall e, (forall via url dest options, e <> EvDownload via url dest options) ->
                       (forall url, e <> EvGetResource url) -> P e) ->
            emitsOnly P (bindKubectlToKuberlr h p
                           (path_join h [binDir context; exeName context "kubectl"]))).
  { intros p P HP. unfold bindKubectlToKuberlr. walk; apply HP; done. }
  assert (Hk : emitsOnly (kuberlrOnly context) (downloadKuberlr h context "amd64")).
  { unfold downloadKuberlr, kuberlrOnly, archiveDownloader, kuberlrArchiveURL.
    destruct context as [dp p kp bin internal]. cbn [platform kubePlatform].
    destruct p, kp; cbn [Platform_str KubePlatform_str];
      repeat match goal with
        | |- context [JS.startsWith ?a ?b] =>
            let v := eval vm_compute in (JS.startsWith a b) in
            change (JS.startsWith a b) with v
        end;
      cbv iota; walk; cbn; done. }
  assert (Hall : emitsOnly (kuberlrOnly context)
    (do kuberlrPath <- downloadKuberlr h context "amd64";
     bindKubectlToKuberlr h kuberlrPath
       (path_join h [binDir context; exeName context "kubectl"]))).
  { apply emitsOnly_bind; [done | intros p]. apply Hbind.
    intros [] Hd Hg; cbn; try done.
    - by destruct (Hg url).
    - by destruct (Hd via url dest options). }
  split; [|exact Heq].
  unfold emitted. rewrite Heq. by apply (emitsOnly_forall _ _ w) in Hall.
Qed.

Lemma cross_build_skips_managed_kubectl_witness :
  let h := sampleHost "linux" noEnv (serving "c0de  kuberlr_0.4.2_windows_amd64.zip") in
  emitted (downloadKuberlrAndKubectl h (sampleContext win32)) world0 =
    [EvGetResource "https://github.com/flavio/kuberlr/releases/download/v0.4.2/checksums.txt";
     EvDownload downloadZip
       "https://github.com/flavio/kuberlr/releases/download/v0.4.2/kuberlr_0.4.2_windows_amd64.zip"
       "/src/resources/bin/kuberlr.exe"
       (kuberlrOptions (sampleContext win32) "amd64" "c0de  kuberlr_0.4.2_windows_amd64.zip");
     EvSymlink "kuberlr" "/src/resources/bin/kubectl.exe"] /\
  Forall (kuberlrOnly (sampleContext win32))
    (emitted (downloadKuberlrAndKubectl h (sampleContext win32)) world0).
Proof.
  intros h. split; [reflexivity |].
  apply (cross_build_skips_managed_kubectl h (sampleContext win32) world0). discriminate.
Defined.

(** ** Binding again *)

(** X5.  Off Windows, [bindKubectlToKuberlr] touches no entry but the one at
    the [kubectl] path, whether it succeeds or not; and once it has
    succeeded, calling it again does nothing at all: no entry changes and
    nothing is asked of the file system. *)
Theorem bindKubectlToKuberlr_again (h : Host) (kuberlrPath binKubectlPath : string) (w : World)
    (Hposix : JS.startsWith (os_platform h) "win" = false) :
  (forall p, p <> binKubectlPath ->
     fs (snd (bindKubectlToKuberlr h kuberlrPath binKubectlPath w)) !! p = fs w !! p) /\
  (fst (bindKubectlToKuberlr h kuberlrPath binKubectlPath w) = Ok tt ->
   bindKubectlToKuberlr h kuberlrPath binKubectlPath
     (snd (bindKubectlToKuberlr h kuberlrPath binKubectlPath w)) =
   (Ok tt, snd (bindKubectlToKuberlr h kuberlrPath binKubectlPath w))).
Proof.
  split.
  - intros p Hp. bind_cases h binKubectlPath w;
      by rewrite ?lookup_insert_ne, ?lookup_delete_ne by done.
  - intros Hok.
    pose proof (bindKubectlToKuberlr_success h kuberlrPath binKubectlPath w Hposix Hok) as Hfs.
    rewrite (bindKubectlToKuberlr_posix h kuberlrPath binKubectlPath _ Hposix).
    by rewrite Hfs, lookup_insert_eq.
Qed.

Lemma bindKubectlToKuberlr_again_witness :
  let h := sampleHost "linux" noEnv offline in
  let w := {| fs := {[ "/bin" := Dir; "/bin/kubectl" := File "ELF" ]}; trace := [] |} in
  bindKubectlToKuberlr h "/bin/kuberlr" "/bin/kubectl"
    (snd (bindKubectlToKuberlr h "/bin/kuberlr" "/bin/kubectl" w)) =
  (Ok tt, snd (bindKubectlToKuberlr h "/bin/kuberlr" "/bin/kubectl" w)).
Proof.
  intros h w.
  apply (bindKubectlToKuberlr_again h "/bin/kuberlr" "/bin/kubectl" w eq_refl).
  reflexivity.
Defined.

(** ** The context [downloadDependencies] builds *)

(** X6.  In a context built for a raw platform the two platform names
    agree: the kube-style name starts with [win] exactly when the platform
    does, which is for [win32] alone.  So the kuberlr archive is the [.zip]
    exactly when the zip downloader is used and the entry is the [.exe].
    For [wsl] everything but the recorded raw platform is as for [linux]. *)
Theorem makeContext_platforms_agree (h : Host) (rawPlatform : DependencyPlatform) (arch : string) :
  let context := makeContext h rawPlatform in
  JS.startsWith (KubePlatform_str (kubePlatform context)) "win" =
    JS.startsWith (Platform_str (platform context)) "win" /\
  (JS.startsWith (Platform_str (platform context)) "win" = true <-> rawPlatform = dp_win32) /\
  (rawPlatform = dp_win32 <->
   archiveDownloader context = downloadZip /\
   kuberlrArchiveURL context arch =
     kuberlrBaseURL +:+ "/" +:+ kuberlrPlatformDir context arch +:+ ".zip" /\
   exeName context "kuberlr" = "kuberlr.exe") /\
  (rawPlatform <> dp_win32 <->
   archiveDownloader context = downloadTarGZ /\
   kuberlrArchiveURL context arch =
     kuberlrBaseURL +:+ "/" +:+ kuberlrPlatformDir context arch +:+ ".tar.gz" /\
   exeName context "kuberlr" = "kuberlr") /\
  platform (makeContext h dp_wsl) = platform (makeContext h dp_linux) /\
  kubePlatform (makeContext h dp_wsl) = kubePlatform (makeContext h dp_linux) /\
  binDir (makeContext h dp_wsl) = binDir (makeContext h dp_linux) /\
  internalDir (makeContext h dp_wsl) = internalDir (makeContext h dp_linux).
Proof.
  cbv zeta. unfold archiveDownloader, kuberlrArchiveURL, exeName.
  destruct rawPlatform; cbn [makeContext platform kubePlatform getKubePlatform
                               Platform_str KubePlatform_str];
    repeat match goal with
      | |- context [JS.startsWith ?a ?b] =>
          let v := eval vm_compute in (JS.startsWith a b) in
          change (JS.startsWith a b) with v
      end;
    cbv iota; repeat split; try done; try (by intros [? _]).
Qed.

(** X7.  When a regular file sits at the [bin] directory of the platform,
    [downloadDependencies] fails on making the directory, before any fetch
    is started: the one thing it has done is to try that [mkdir]. *)
Theorem downloadDependencies_needs_bin_directory (h : Host) (rawPlatform : DependencyPlatform)
    (depVersions : DependencyVersions) (w : World) (content : string)
    (Hentry : fs w !! binDir (makeContext h rawPlatform) = Some (File content)) :
  downloadDependencies h rawPlatform depVersions w =
    (Err eexist, logged w (EvMkdir (binDir (makeContext h rawPlatform)))) /\
  emitted (downloadDependencies h rawPlatform depVersions) w =
    [EvMkdir (binDir (makeContext h rawPlatform))].
Proof.
  assert (Hrun : downloadDependencies h rawPlatform depVersions w =
                 (Err eexist, logged w (EvMkdir (binDir (makeContext h rawPlatform))))).
  { unfold downloadDependencies. cbv zeta. unfold bind at 1.
    unfold mkdirRecursive at 1. unfold bind at 1, emit, onFs, mkdirAt. cbn [fs trace].
    by rewrite Hentry. }
  split; [exact Hrun |]. unfold emitted. rewrite Hrun. cbn [snd logged trace].
  by rewrite drop_app_length.
Qed.

Lemma downloadDependencies_needs_bin_directory_witness :
  let h := sampleHost "linux" noEnv (serving "") in
  let w := {| fs := {[ "/src/resources/linux/bin" := File "" ]}; trace := [] |} in
  emitted (downloadDependencies h dp_wsl sampleVersions) w = [EvMkdir "/src/resources/linux/bin"].
Proof.
  intros h w.
  apply (downloadDependencies_needs_bin_directory h dp_wsl sampleVersions w "").
  reflexivity.
Defined.

(** ** Credential helpers and Helm *)

(** X8.  [downloadDockerProvidedCredHelpers] asks for every helper of the
    platform, in order, two on Linux and one elsewhere, each without
    options and each to the name [exeName] gives it in the [bin] directory;
    a download that fails does not keep the next from being asked for. *)
Theorem credHelpers_all_requested (h : Host) (context : DownloadContext) (w : World) :
  emitted (downloadDockerProvidedCredHelpers h context) w =
    map (credHelperRequest h context) (credHelperNames (platform context)) /\
  length (emitted (downloadDockerProvidedCredHelpers h context) w) =
    match platform context with linux => 2 | _ => 1 end.
Proof.
  assert (Hem : emitted (downloadDockerProvidedCredHelpers h context) w =
                map (credHelperRequest h context) (credHelperNames (platform context))).
  { unfold downloadDockerProvidedCredHelpers. cbv zeta. fold (archiveDownloader context).
    apply emitted_logged.
    rewrite (promiseAll_downloads_trace h (archiveDownloader context) noOptions
               (fun baseName : string =>
                  "https://github.com/docker/docker-credential-helpers/releases/download"
                  +:+ "/v" +:+ "0.6.4" +:+ "/" +:+ baseName +:+ "-v" +:+ "0.6.4" +:+ "-"
                  +:+ onM1 h "arm64" "amd64" +:+ "."
                  +:+ (if JS.startsWith (Platform_str (platform context)) "win"
                       then "zip" else "tar.gz"))
               (fun baseName : string =>
                  path_join h [binDir context;
                               if JS.startsWith (Platform_str (platform context)) "win"
                               then baseName +:+ ".exe" else baseName])).
    f_equal. apply map_ext. intros baseName. unfold credHelperRequest, exeName.
    destruct (JS.startsWith (Platform_str (platform context)) "win");
      by rewrite ?append_empty_r. }
  split; [exact Hem |]. rewrite Hem, length_map. by destruct (platform context).
Qed.

(** X9.  Once the [.sha256sum] file of Helm has been fetched, [downloadHelm]
    asks for the archive whatever the file holds: the expected checksum is
    the first token of the file, empty when the file is empty or starts with
    white space, and no line is looked for. *)
Theorem downloadHelm_trusts_sidecar (h : Host) (context : DownloadContext)
    (version text : string) (w : World)
    (Hnet : getResource h (helmURL h context version +:+ ".sha256sum") = Ok text) :
  emitted (downloadHelm h context version) w =
    [EvGetResource (helmURL h context version +:+ ".sha256sum");
     EvDownload downloadTarGZ (helmURL h context version)
       (path_join h [binDir context; exeName context "helm"])
       (helmOptions h context (spec_firstToken text))] /\
  (text = "" \/ (exists c rest, text = String c rest /\ JS.isSpace c = true) ->
   expectedChecksum (helmOptions h context (spec_firstToken text)) = Some "").
Proof.
  split; [|by intros [-> | (c & rest & -> & Hc)]; cbn [spec_firstToken]; rewrite ?Hc].
  unfold downloadHelm. cbv zeta. fold (helmURL h context version).
  apply emitted_logged. unfold bind at 1. rewrite getResourceM_run, Hnet.
  rewrite void_trace, downloadVia_trace. cbn [logged trace].
  rewrite <- app_assoc. unfold helmOptions.
  by rewrite (proj2 (first_piece text)).
Qed.

Lemma downloadHelm_trusts_sidecar_witness :
  downloadsOf (emitted (downloadHelm (sampleHost "linux" noEnv (serving "")) (sampleContext linux)
                          "3.9.1") world0) =
    [(downloadTarGZ, "https://get.helm.sh/helm-v3.9.1-linux-amd64.tar.gz",
      "/src/resources/bin/helm",
      helmOptions (sampleHost "linux" noEnv (serving "")) (sampleContext linux) "")].
Proof.
  rewrite (proj1 (downloadHelm_trusts_sidecar (sampleHost "linux" noEnv (serving ""))
                    (sampleContext linux) "3.9.1" "" world0 eq_refl)).
  reflexivity.
Defined.

(** * Further properties of the [moproxy] service *)

Module MoproxyServiceFacts.
Import Moproxy.

Lemma enable_chain (c : Config) (t : Table) (ch : Chain) :
  enable c t ch =
  if bool_decide (ch = OUTPUT \/ ch = PREROUTING) then
    if bool_decide (redirect c ∈ t ch) then t ch else t ch ++ [redirect c]
  else t ch.
Proof.
  unfold enable. rewrite !MoproxyFacts.add_rule_to_chain_chain.
  destruct ch; repeat case_decide; try done;
    rewrite ?bool_decide_true by tauto; rewrite ?bool_decide_false by (intros [|]; done);
    try done.
  all: rewrite MoproxyFacts.add_rule_to_chain_chain; by case_decide.
Qed.

Lemma disable_chain (c : Config) (t : Table) (ch : Chain) :
  disable c t ch =
  if bool_decide (ch = OUTPUT \/ ch = PREROUTING) then
    List.filter (fun x => bool_decide (x <> redirect c)) (t ch)
  else t ch.
Proof.
  unfold disable. rewrite !MoproxyFacts.remove_rule_from_chain_chain.
  destruct ch; repeat case_decide; try done;
    rewrite ?bool_decide_true by tauto; rewrite ?bool_decide_false by (intros [|]; done);
    try done.
  all: rewrite MoproxyFacts.remove_rule_from_chain_chain; by case_decide.
Qed.

Lemma filter_app_rule (r : Rule) (l : list Rule) :
  List.filter (fun x => bool_decide (x <> r)) (l ++ [r]) =
  List.filter (fun x => bool_decide (x <> r)) l.
Proof.
  rewrite List.filter_app. cbn [List.filter].
  rewrite bool_decide_false by (intros H; by apply H). apply app_nil_r.
Qed.

(** X10.  [enable] only ever appends: the rules of a chain keep their places
    and at most the redirection rule is added behind them.  Enabling twice is
    the same as enabling once, chain by chain. *)
Theorem enable_appends_and_is_idempotent (c : Config) (t : Table) (ch : Chain) :
  (enable c t ch = t ch \/ enable c t ch = t ch ++ [redirect c]) /\
  enable c (enable c t) ch = enable c t ch.
Proof.
  split.
  - rewrite enable_chain. repeat case_bool_decide; auto.
  - rewrite (enable_chain c (enable c t)), (enable_chain c t).
    destruct (bool_decide (ch = OUTPUT \/ ch = PREROUTING)); [|done].
    destruct (bool_decide (redirect c ∈ t ch)) eqn:Hin.
    + by rewrite Hin.
    + rewrite bool_decide_true; [done |]. apply elem_of_app. right. apply list_elem_of_here.
Qed.

Lemma filter_keeps_iff (r : Rule) (l : list Rule) :
  List.filter (fun x => bool_decide (x <> r)) l = l <-> r ∉ l.
Proof.
  split; [|apply MoproxyFacts.filter_absent].
  intros Heq Hin. apply MoproxyFacts.copies_none_iff in Hin; [done |].
  rewrite <- Heq. apply MoproxyFacts.copies_filter.
Qed.

(** X11.  Stopping undoes starting.  After [start_post] and [stop_pre] each
    chain is what [stop_pre] alone would have left, whatever it held before.
    A chain is back as it was before the service started exactly when it is
    one of the two chains the script leaves alone or held no copy of the
    redirection rule; so when neither [OUTPUT] nor [PREROUTING] held the
    rule, the whole table is as it was. *)
Theorem stop_pre_undoes_start_post (sh : MoproxyService.Shell) (t : Table) (ch : Chain) :
  MoproxyService.stop_pre sh (MoproxyService.start_post sh t) ch = MoproxyService.stop_pre sh t ch /\
  (MoproxyService.stop_pre sh (MoproxyService.start_post sh t) ch = t ch <->
   ch = INPUT \/ ch = POSTROUTING \/ redirect (MoproxyService.config sh) ∉ t ch) /\
  ((redirect (MoproxyService.config sh) ∉ t OUTPUT) ->
   (redirect (MoproxyService.config sh) ∉ t PREROUTING) ->
   forall ch', MoproxyService.stop_pre sh (MoproxyService.start_post sh t) ch' = t ch').
Proof.
  unfold MoproxyService.stop_pre, MoproxyService.start_post.
  set (c := MoproxyService.config sh) in *.
  assert (Hsame : forall ch', disable c (enable c t) ch' = disable c t ch').
  { intros ch'. rewrite (disable_chain c (enable c t)), (disable_chain c t), enable_chain.
    destruct (bool_decide (ch' = OUTPUT \/ ch' = PREROUTING)); [|done].
    destruct (bool_decide (redirect c ∈ t ch')); [done | apply filter_app_rule]. }
  assert (Hback : forall ch', disable c (enable c t) ch' = t ch' <->
            ch' = INPUT \/ ch' = POSTROUTING \/ redirect c ∉ t ch').
  { intros ch'. rewrite Hsame, disable_chain. case_bool_decide as Hch.
    - rewrite filter_keeps_iff. split; [tauto |].
      intros [-> | [-> | Hin]]; [by destruct Hch | by destruct Hch | done].
    - split; [intros _ | done]. destruct ch'; tauto. }
  split; [apply Hsame |]. split; [apply Hback |].
  intros HO HP ch'. apply Hback. destruct ch'; tauto.
Qed.

Lemma stop_pre_undoes_start_post_witness :
  let sh : MoproxyService.Shell := fun _ => None in
  let masquerade := {| protocol := "all"; dports := ""; jump := "MASQUERADE"; to_port := "" |} in
  let t : Table := fun ch => match ch with POSTROUTING => [masquerade] | _ => [] end in
  MoproxyService.stop_pre sh (MoproxyService.start_post sh t) OUTPUT = [] /\
  MoproxyService.stop_pre sh (MoproxyService.start_post sh t) POSTROUTING = [masquerade].
Proof.
  intros sh masquerade t.
  destruct (stop_pre_undoes_start_post sh t OUTPUT) as (_ & _ & Hclean).
  split; apply Hclean; apply not_elem_of_nil.
Defined.

Lemma orDefault_nonempty (sh : MoproxyService.Shell) (name fallback : string) :
  fallback <> "" -> MoproxyService.orDefault sh name fallback <> "".
Proof.
  intros Hf. unfold MoproxyService.orDefault.
  destruct (sh name) as [v|]; [|done]. unfold JS.nonEmpty.
  destruct (String.eqb_spec v ""); done.
Qed.

(** X12.  A setting left empty counts as not made.  The host, the port, the
    proxy list, the redirected ports and the remote DNS flag are never empty
    on the command line; in particular emptying [moproxy_remotedns] and
    [MOPROXY_REMOTE_DNS] does not remove [--remote-dns].  A value that is not
    empty is taken as it is, the variable of the configuration file before
    the variable of the environment. *)
Theorem empty_settings_fall_back (sh : MoproxyService.Shell) (v : string) :
  MoproxyService.host sh <> "" /\
  MoproxyService.port sh <> "" /\
  MoproxyService.proxy_list sh <> "" /\
  MoproxyService.ports_redirected sh <> "" /\
  MoproxyService.moproxy_remotedns sh <> "" /\
  ((sh "moproxy_remotedns" = None \/ sh "moproxy_remotedns" = Some "") ->
   (sh "MOPROXY_REMOTE_DNS" = None \/ sh "MOPROXY_REMOTE_DNS" = Some "") ->
   MoproxyService.moproxy_remotedns sh = "--remote-dns") /\
  (sh "port" = Some v -> v <> "" -> MoproxyService.port sh = v) /\
  ((sh "port" = None \/ sh "port" = Some "") -> sh "MOPROXY_PORT" = Some v -> v <> "" ->
   MoproxyService.port sh = v).
Proof.
  unfold MoproxyService.host, MoproxyService.port, MoproxyService.proxy_list,
    MoproxyService.ports_redirected, MoproxyService.moproxy_remotedns, MoproxyService.assigned.
  repeat split; try (apply orDefault_nonempty, orDefault_nonempty; done).
  - unfold MoproxyService.orDefault. intros [-> | ->] [-> | ->]; done.
  - unfold MoproxyService.orDefault. intros -> Hv. unfold JS.nonEmpty.
    by rewrite (eqb_false_of_neq _ _ Hv).
  - unfold MoproxyService.orDefault. intros [-> | ->] -> Hv; unfold JS.nonEmpty;
      by rewrite (eqb_false_of_neq _ _ Hv).
Qed.

Lemma empty_settings_fall_back_witness :
  let sh : MoproxyService.Shell :=
    fun name => if String.eqb name "MOPROXY_REMOTE_DNS" then Some "" else None in
  MoproxyService.moproxy_remotedns sh = "--remote-dns".
Proof.
  intros sh.
  destruct (empty_settings_fall_back sh "") as (_ & _ & _ & _ & _ & Hdns & _).
  apply Hdns; [by left | by right].
Defined.

End MoproxyServiceFacts.

(** * Properties of the test helpers *)

Module PerlFacts.
Import Perl.

Lemma splitEq_none (s : string) : hasChar "=" s = false -> splitEq s = (s, None).
Proof.
  induction s as [|c s IH]; [done |]. cbn [hasChar splitEq].
  intros H. apply orb_false_elim in H as [Hc Hs]. by rewrite Hc, IH.
Qed.

Lemma splitEq_app (name value : string) :
  hasChar "=" name = false -> splitEq (name +:+ "=" +:+ value) = (name, Some value).
Proof.
  induction name as [|c name IH]; [done |]. rewrite append_cons. cbn [hasChar splitEq].
  intros H. apply orb_false_elim in H as [Hc Hs]. by rewrite Hc, IH.
Qed.

(** An argument is its name, followed by [=] and its value when it has one. *)
Lemma splitEq_join (s : string) :
  s = fst (splitEq s) +:+ match snd (splitEq s) with Some v => "=" +:+ v | None => "" end /\
  hasChar "=" (fst (splitEq s)) = false.
Proof.
  induction s as [|c s [IH1 IH2]]; [done |]. cbn [splitEq].
  destruct (Ascii.eqb_spec c "=") as [->|Hc]; [done |].
  destruct (splitEq s) as [name value]. cbn [fst snd] in *. rewrite append_cons, <- IH1.
  split; [done |]. cbn [hasChar]. rewrite IH2. by apply Ascii.eqb_neq in Hc as ->.
Qed.

Lemma apify_arg_name (name : string) :
  hasChar "=" name = false ->
  apify_arg name = if String.prefix "--" name then apiName name else name.
Proof.
  intros H. unfold apify_arg. rewrite (splitEq_none name H). cbn [isTrue].
  by rewrite append_empty_r.
Qed.

(** X13.  [apify_arg] converts the name only: what follows the first [=] is
    printed as it is, after the name converted as if it had been given
    alone, provided the value is neither empty nor [0].  An argument that
    does not start with [--] is printed unchanged. *)
Theorem apify_arg_keeps_the_value (name value : string)
    (Hname : hasChar "=" name = false)
    (Hvalue : isTrue (Some value) = true) :
  apify_arg (name +:+ "=" +:+ value) = apify_arg name +:+ "=" +:+ value /\
  (String.prefix "--" name = false ->
   apify_arg name = name /\ apify_arg (name +:+ "=" +:+ value) = name +:+ "=" +:+ value).
Proof.
  assert (H : apify_arg (name +:+ "=" +:+ value) = apify_arg name +:+ "=" +:+ value).
  { rewrite (apify_arg_name name Hname). unfold apify_arg.
    rewrite (splitEq_app name value Hname), Hvalue. done. }
  split; [exact H |]. intros Hdash. rewrite H, (apify_arg_name name Hname), Hdash. done.
Qed.

Lemma apify_arg_keeps_the_value_witness :
  apify_arg ("--application.admin-access" +:+ "=" +:+ "false") =
  apify_arg "--application.admin-access" +:+ "=" +:+ "false".
Proof. apply (apify_arg_keeps_the_value "--application.admin-access" "false"); reflexivity. Defined.

(** X14.  A value that Perl takes for false is lost together with its [=]:
    an argument ending in [=] or in [=0] is printed as its converted name
    alone. *)
Theorem apify_arg_drops_false_values (name value : string)
    (Hname : hasChar "=" name = false)
    (Hvalue : value = "" \/ value = "0") :
  apify_arg (name +:+ "=" +:+ value) = apify_arg name.
Proof.
  rewrite (apify_arg_name name Hname). unfold apify_arg.
  rewrite (splitEq_app name value Hname).
  destruct Hvalue as [-> | ->]; cbn [isTrue String.eqb negb andb]; by rewrite append_empty_r.
Qed.

Lemma apify_arg_drops_false_values_witness :
  apify_arg ("--kubernetes.port" +:+ "=" +:+ "0") = "--kubernetes.port".
Proof.
  rewrite (apify_arg_drops_false_values "--kubernetes.port" "0" eq_refl (or_intror eq_refl)).
  reflexivity.
Defined.

Lemma letters_app (a b : string) : letters (a +:+ b) = letters a +:+ letters b.
Proof.
  induction a as [|c a IH]; [done |]. rewrite append_cons. cbn [letters].
  destruct (Ascii.eqb c "-"); [done |]. by rewrite IH, append_cons.
Qed.

Lemma word_facts (c : ascii) :
  isWord c = true -> Ascii.eqb c "-" = false /\ Ascii.eqb (uc c) "-" = false /\ lc (uc c) = lc c.
Proof.
  destruct c as [[] [] [] [] [] [] [] []]; vm_compute; intros H; try done.
Qed.

Lemma letters_camel (s : string) : letters (camel s) = letters s.
Proof.
  assert (H : forall n s, String.length s <= n -> letters (camel s) = letters s).
  { clear s. induction n as [|n IH]; intros [|a t] Hlen; cbn [String.length] in Hlen;
      try done; try lia.
    assert (Hplain : letters (String a (camel t)) = letters (String a t)).
    { cbn [letters]. rewrite IH by lia. done. }
    cbn [camel]. destruct t as [|d t']; [exact Hplain |].
    destruct (Ascii.eqb_spec d "-") as [->|Hd].
    - destruct t' as [|b rest]; [exact Hplain |].
      destruct (isWord a && isWord b) eqn:Hw; [|exact Hplain].
      apply andb_true_iff in Hw as [Ha Hb].
      destruct (word_facts a Ha) as (Ha1 & _ & _).
      destruct (word_facts b Hb) as (Hb1 & Hb2 & Hb3).
      cbn [letters]. rewrite Ha1, Hb1, Hb2, Hb3. cbn [Ascii.eqb Bool.eqb].
      rewrite IH; [done |]. cbn [String.length] in Hlen. lia.
    - destruct d as [[] [] [] [] [] [] [] []]; try exact Hplain; done. }
  by apply (H (String.length s)).
Qed.

Lemma prefix_split (p s : string) :
  String.prefix p s = true -> s = p +:+ dropChars (String.length p) s.
Proof.
  revert p. induction s as [|c s IH]; intros [|a p]; cbn [String.prefix]; try done.
  destruct (ascii_dec a c) as [->|]; [|done].
  intros H. rewrite append_cons. cbn [String.length dropChars]. by rewrite <- IH.
Qed.

Lemma letters_substFirst (pattern replacement s : string) :
  letters pattern = letters replacement ->
  letters (substFirst pattern replacement s) = letters s.
Proof.
  intros Hpr. induction s as [|c s IH]; cbn [substFirst].
  - destruct (String.prefix pattern "") eqn:Hp; [|done].
    rewrite (prefix_split pattern "" Hp) at 2. by rewrite !letters_app, Hpr.
  - destruct (String.prefix pattern (String c s)) eqn:Hp.
    + rewrite (prefix_split pattern (String c s) Hp) at 2. by rewrite !letters_app, Hpr.
    + cbn [letters]. by rewrite IH.
Qed.

Lemma letters_apiName (name : string) : letters (apiName name) = letters name.
Proof.
  unfold apiName. rewrite !letters_substFirst by reflexivity. apply letters_camel.
Qed.

(** X15.  The conversion only removes hyphens and changes the case of
    letters.  Unless the value is lost as false, the argument printed and
    the argument given are the same once hyphens are taken out and case is
    ignored. *)
Theorem apify_arg_keeps_the_letters (arg : string)
    (Hvalue : snd (splitEq arg) = None \/ isTrue (snd (splitEq arg)) = true) :
  letters (apify_arg arg) = letters arg.
Proof.
  destruct (splitEq_join arg) as [Hjoin _]. unfold apify_arg.
  destruct (splitEq arg) as [name value]. cbn [fst snd] in *.
  assert (Hname : letters (if String.prefix "--" name then apiName name else name)
                  = letters name).
  { destruct (String.prefix "--" name); [apply letters_apiName | done]. }
  rewrite Hjoin at 1. rewrite !letters_app, Hname.
  destruct Hvalue as [-> | Hv]; [done |]. rewrite Hv.
  destruct value as [v|]; done.
Qed.

Lemma apify_arg_keeps_the_letters_witness :
  apify_arg "--virtual-machine.memory-in-gb=6" = "--virtualMachine.memoryInGB=6" /\
  letters (apify_arg "--virtual-machine.memory-in-gb=6") =
    letters "--virtual-machine.memory-in-gb=6".
Proof.
  split; [reflexivity |].
  apply (apify_arg_keeps_the_letters "--virtual-machine.memory-in-gb=6"). right. reflexivity.
Defined.

End PerlFacts.

Module BatsFacts.
Import Bats.

Lemma poll_unfold (api : nat -> Response) (limit count : nat) :
  poll api limit count =
  if (status (api count) =? 0)%nat || (limit <=? S count)%nat then
    (Returned, if (status (api count) =? 0)%nat then count else S count, [Api])
  else if String.eqb (message (api count)) "503 Service Unavailable" then
    let '(ending, final, steps) := poll api limit (S count) in
    (ending, final, Api :: Sleep 10 :: steps)
  else (AssertionFailed (message (api count)), S count, [Api]).
Proof.
  funelim (poll api limit count); rewrite ?e, ?more; try done.
  all: match goal with H : String.eqb _ _ = _ |- _ => rewrite H end; try done.
  all: match goal with H : poll _ _ _ = _ |- _ => by rewrite H end.
Qed.

(** The steps of a poll: calls with a sleep of ten seconds between them. *)
Lemma poll_steps (api : nat -> Response) (limit count : nat) :
  exists n,
    snd (poll api limit count) = concat (replicate n [Api; Sleep 10]) ++ [Api] /\
    (count < limit -> count + S n <= limit).
Proof.
  remember (limit - count) as d eqn:Hd. revert count Hd.
  induction d as [|d IH]; intros count Hd; rewrite poll_unfold.
  - exists 0. replace (limit <=? S count)%nat with true by (symmetry; apply Nat.leb_le; lia).
    rewrite orb_true_r. split; [done | lia].
  - destruct ((status (api count) =? 0)%nat || (limit <=? S count)%nat) eqn:Hbreak.
    + exists 0. split; [done | lia].
    + apply orb_false_elim in Hbreak as [_ Hlim]. apply Nat.leb_gt in Hlim.
      destruct (String.eqb (message (api count)) "503 Service Unavailable").
      * destruct (IH (S count)) as (n & Hn & Hle); [lia |].
        destruct (poll api limit (S count)) as [[ending final] steps]. cbn [snd] in *.
        exists (S n). rewrite Hn. split; [done | lia].
      * exists 0. split; [done | lia].
Qed.

Lemma calls_slept_pattern (n : nat) :
  calls (concat (replicate n [Api; Sleep 10]) ++ [Api]) = S n /\
  slept (concat (replicate n [Api; Sleep 10]) ++ [Api]) = 10 * n.
Proof.
  induction n as [|n [IH1 IH2]]; [done |]. unfold calls in *. cbn [replicate concat].
  cbn [app List.filter length slept]. rewrite IH1, IH2. lia.
Qed.

(** The answers up to the first success are all [503]. *)
Lemma poll_until_success (api : nat -> Response) (limit n count : nat) :
  status (api (count + n)) = 0 ->
  (forall j, j < n -> status (api (count + j)) <> 0 /\
                      message (api (count + j)) = "503 Service Unavailable") ->
  count + n < limit ->
  poll api limit count =
    (Returned, count + n, concat (replicate n [Api; Sleep 10]) ++ [Api]).
Proof.
  revert count. induction n as [|n IH]; intros count Hok Hbusy Hlim; rewrite poll_unfold.
  - rewrite Nat.add_0_r in *. by rewrite Hok.
  - destruct (Hbusy 0) as [Hs Hm]; [lia |]. rewrite Nat.add_0_r in Hs, Hm.
    apply Nat.eqb_neq in Hs. rewrite Hs, Hm.
    replace (limit <=? S count)%nat with false by (symmetry; apply Nat.leb_gt; lia).
    cbn [orb]. rewrite String.eqb_refl.
    rewrite (IH (S count)).
    + by replace (S count + n) with (count + S n) by lia.
    + by replace (S count + n) with (count + S n) by lia.
    + intros j Hj. replace (S count + j) with (count + S j) by lia. apply Hbusy. lia.
    + lia.
Qed.

(** No answer is a success. *)
Lemma poll_never_ready (api : nat -> Response) (limit count : nat) :
  (forall k, status (api k) <> 0 /\ message (api k) = "503 Service Unavailable") ->
  count < limit ->
  poll api limit count =
    (Returned, limit, concat (replicate (limit - S count) [Api; Sleep 10]) ++ [Api]).
Proof.
  intros Hbusy. remember (limit - S count) as d eqn:Hd. revert count Hd.
  induction d as [|d IH]; intros count Hd Hlim; rewrite poll_unfold;
    destruct (Hbusy count) as [Hs Hm]; apply Nat.eqb_neq in Hs; rewrite Hs, Hm.
  - replace (limit <=? S count)%nat with true by (symmetry; apply Nat.leb_le; lia).
    cbn [orb]. by replace limit with (S count) by lia.
  - replace (limit <=? S count)%nat with false by (symmetry; apply Nat.leb_gt; lia).
    cbn [orb]. rewrite String.eqb_refl. by rewrite (IH (S count)) by lia.
Qed.

(** X16.  [wait_for_extension_manager] calls the API at least once and at
    most thirty times, sleeping ten seconds between calls, 290 seconds at
    most.  It returns at the first success, having made no further call.
    When the API answers [503] thirty times it gives up and returns all the
    same, without failing, after reporting [30/30]. *)
Theorem wait_for_extension_manager_is_bounded (api : nat -> Response) (n : nat) :
  1 <= calls (snd (wait_for_extension_manager api)) <= 30 /\
  slept (snd (wait_for_extension_manager api)) =
    10 * (calls (snd (wait_for_extension_manager api)) - 1) /\
  slept (snd (wait_for_extension_manager api)) <= 290 /\
  (status (api n) = 0 ->
   (forall j, j < n -> status (api j) <> 0 /\ message (api j) = "503 Service Unavailable") ->
   n < 30 ->
   wait_for_extension_manager api =
     (Returned,
      Trace "waiting for extension manager to be ready" ::
      concat (replicate n [Api; Sleep 10]) ++
      [Api; Trace (JS.showNat n +:+ "/30 tries: wait_for_extension_manager")])) /\
  ((forall k, status (api k) <> 0 /\ message (api k) = "503 Service Unavailable") ->
   fst (wait_for_extension_manager api) = Returned /\
   calls (snd (wait_for_extension_manager api)) = 30 /\
   last (snd (wait_for_extension_manager api)) =
     Some (Trace "30/30 tries: wait_for_extension_manager")).
Proof.
  assert (Hcalls : forall pre post steps,
            calls (Trace pre :: steps ++ [Trace post]) = calls steps /\
            slept (Trace pre :: steps ++ [Trace post]) = slept steps /\
            calls (Trace pre :: steps) = calls steps /\
            slept (Trace pre :: steps) = slept steps).
  { intros pre post steps. unfold calls. cbn [List.filter slept].
    rewrite List.filter_app, length_app. cbn [List.filter length].
    assert (Hs : slept (steps ++ [Trace post]) = slept steps).
    { induction steps as [|[] steps IH]; cbn [app slept]; by rewrite ?IH. }
    rewrite Hs. repeat split; lia. }
  assert (Hbound : 1 <= calls (snd (wait_for_extension_manager api)) <= 30 /\
                   slept (snd (wait_for_extension_manager api)) =
                     10 * (calls (snd (wait_for_extension_manager api)) - 1)).
  { unfold wait_for_extension_manager.
    destruct (poll_steps api max 0) as (k & Hk & Hle).
    destruct (poll api max 0) as [[ending final] steps]. cbn [snd] in Hk. subst steps.
    destruct (calls_slept_pattern k) as [Hc Hs].
    assert (Hk30 : S k <= 30) by (unfold max in Hle; lia).
    destruct ending; cbn [snd].
    - destruct (Hcalls "waiting for extension manager to be ready"
                  (JS.showNat final +:+ "/" +:+ JS.showNat max
                   +:+ " tries: wait_for_extension_manager")
                  (concat (replicate k [Api; Sleep 10]) ++ [Api])) as (-> & -> & _).
      rewrite Hc, Hs. lia.
    - destruct (Hcalls "waiting for extension manager to be ready" ""
                  (concat (replicate k [Api; Sleep 10]) ++ [Api])) as (_ & _ & -> & ->).
      rewrite Hc, Hs. lia. }
  destruct Hbound as [Hb1 Hb2].
  split; [exact Hb1 |]. split; [exact Hb2 |]. split; [lia |]. split.
  - intros Hok Hbusy Hn. unfold wait_for_extension_manager.
    rewrite (poll_until_success api max n 0); [| done | done | by unfold max].
    cbn [Nat.add]. by rewrite <- app_assoc.
  - intros Hbusy. unfold wait_for_extension_manager.
    rewrite (poll_never_ready api max 0 Hbusy) by (unfold max; lia).
    cbn [fst snd]. split; [done |]. split.
    + destruct (Hcalls "waiting for extension manager to be ready"
                  (JS.showNat max +:+ "/" +:+ JS.showNat max
                   +:+ " tries: wait_for_extension_manager")
                  (concat (replicate (max - 1) [Api; Sleep 10]) ++ [Api])) as (-> & _).
      by rewrite (proj1 (calls_slept_pattern (max - 1))).
    + rewrite app_comm_cons, last_snoc. reflexivity.
Qed.

Lemma wait_for_extension_manager_is_bounded_witness :
  let busy := {| status := 1; message := "503 Service Unavailable" |} in
  let ready := {| status := 0; message := "" |} in
  wait_for_extension_manager (fun k => if (k <? 2)%nat then busy else ready) =
    (Returned,
     [Trace "waiting for extension manager to be ready";
      Api; Sleep 10; Api; Sleep 10; Api;
      Trace "2/30 tries: wait_for_extension_manager"]) /\
  calls (snd (wait_for_extension_manager (fun _ => busy))) = 30.
Proof.
  intros busy ready. split.
  - destruct (wait_for_extension_manager_is_bounded
                (fun k => if (k <? 2)%nat then busy else ready) 2) as (_ & _ & _ & Hfirst & _).
    rewrite Hfirst; [reflexivity | reflexivity | | lia].
    intros j Hj. destruct j as [|[|j]]; [done | done | lia].
  - destruct (wait_for_extension_manager_is_bounded (fun _ => busy) 0)
      as (_ & _ & _ & _ & Hnever).
    apply Hnever. done.
Defined.

Lemma noLF_cons (c : ascii) (s : string) :
  noLF (String c s) = true <-> Ascii.eqb c "010" = false /\ noLF s = true.
Proof.
  unfold noLF. rewrite allChars_cons, negb_true_iff. done.
Qed.

Lemma noLF_app (a b : string) : noLF a = true -> noLF b = true -> noLF (a +:+ b) = true.
Proof.
  intros Ha Hb. induction a as [|c a IH]; [done |].
  apply noLF_cons in Ha as [Hc Ha]. rewrite append_cons. apply noLF_cons. auto.
Qed.

Lemma splitLF_app (cur a t : string) :
  noLF a = true -> splitLF cur (a +:+ newline +:+ t) = (cur +:+ a) :: splitLF "" t.
Proof.
  revert cur. induction a as [|c a IH]; intros cur Ha.
  - by rewrite append_empty_r.
  - apply noLF_cons in Ha as [Hc Ha]. rewrite append_cons. cbn [splitLF]. rewrite Hc.
    rewrite IH by done. unfold JS.snoc. by rewrite append_assoc.
Qed.

Lemma splitLF_concat (lines : list string) (t : string) :
  lines <> [] ->
  Forall (fun l => noLF l = true) lines ->
  splitLF "" (String.concat newline lines +:+ newline +:+ t) = lines ++ splitLF "" t.
Proof.
  intros Hne Hplain. induction Hplain as [|l lines Hl Hplain IH]; [done |].
  destruct lines as [|l' lines].
  - cbn [String.concat]. by rewrite splitLF_app.
  - change (String.concat newline (l :: l' :: lines))
      with (l +:+ newline +:+ String.concat newline (l' :: lines)).
    rewrite !append_assoc, splitLF_app by done. by rewrite IH.
Qed.

Lemma splitLF_noLF (cur s : string) :
  noLF cur = true -> Forall (fun l => noLF l = true) (splitLF cur s).
Proof.
  revert cur. induction s as [|c s IH]; intros cur Hcur; cbn [splitLF].
  - by constructor.
  - destruct (Ascii.eqb c "010") eqn:Hc.
    + constructor; [done | by apply IH].
    + apply IH. unfold JS.snoc. apply noLF_app; [done |]. apply noLF_cons. done.
Qed.

Lemma concat_splitLF (cur s : string) : String.concat newline (splitLF cur s) = cur +:+ s.
Proof.
  revert cur. induction s as [|c s IH]; intros cur; cbn [splitLF].
  - cbn. by rewrite append_empty_r.
  - destruct (Ascii.eqb_spec c "010") as [->|Hc].
    + specialize (IH ""). destruct (splitLF "" s) as [|p ps] eqn:Hp.
      * destruct s; cbn in Hp; [done |]. by destruct (Ascii.eqb _ _), (splitLF _ _).
      * change (String.concat newline (cur :: p :: ps))
          with (cur +:+ newline +:+ String.concat newline (p :: ps)).
        by rewrite IH.
    + rewrite IH. unfold JS.snoc. by rewrite append_assoc.
Qed.

Lemma splitLF_cons (cur s : string) : splitLF cur s <> [].
Proof.
  revert cur. induction s as [|c s IH]; intros cur; cbn [splitLF]; [done |].
  destruct (Ascii.eqb c "010"); [done | apply IH].
Qed.

Lemma concat_snoc_empty (lines : list string) :
  lines <> [] -> String.concat newline (lines ++ [""]) = String.concat newline lines +:+ newline.
Proof.
  induction lines as [|l lines IH]; [done |]. intros _.
  destruct lines as [|l' lines]; [done |].
  change (String.concat newline ((l :: l' :: lines) ++ [""]))
    with (l +:+ newline +:+ String.concat newline ((l' :: lines) ++ [""])).
  rewrite IH by done.
  change (String.concat newline (l :: l' :: lines))
    with (l +:+ newline +:+ String.concat newline (l' :: lines)).
  by rewrite !append_assoc.
Qed.

(** The lines [sed] reads make up its input, up to one final line feed. *)
Lemma sedLines_spec (s : string) :
  Forall (fun l => noLF l = true) (sedLines s) /\
  (s = String.concat newline (sedLines s) \/
   s = String.concat newline (sedLines s) +:+ newline).
Proof.
  unfold sedLines. pose proof (splitLF_noLF "" s eq_refl) as Hplain.
  pose proof (concat_splitLF "" s) as Hcat. rewrite append_empty_l in Hcat.
  pose proof (splitLF_cons "" s) as Hne.
  destruct (splitLF "" s) as [|p ps] using rev_ind; [done |]. clear IHps.
  rewrite last_snoc. destruct p as [|c p].
  - rewrite removelast_last. split.
    + by apply Forall_app in Hplain as [? _].
    + destruct ps as [|q qs]; [left; by rewrite <- Hcat |].
      right. by rewrite <- Hcat, concat_snoc_empty.
  - split; [done | left; by rewrite Hcat].
Qed.

(** X17.  Read line by line, the [override.yaml] that [provisioning_script]
    writes off Windows is its three header lines, then the lines of the
    script in order, each behind four spaces, then the end of the file; an
    empty script leaves one empty line.  These are the lines of the script as
    given, up to one final line feed.  On Windows the script is written as it
    is. *)
Theorem provisioning_script_indents_every_line (PATH_APP_HOME LIMA_HOME stdin : string) :
  provisioning_script false PATH_APP_HOME LIMA_HOME stdin =
    (LIMA_HOME +:+ "/_config/override.yaml", override_yaml stdin) /\
  splitLF "" (snd (provisioning_script false PATH_APP_HOME LIMA_HOME stdin)) =
    ["provision:"; "- mode: system"; "  script: |"] ++
    match sedLines stdin with
    | [] => [""]
    | lines => map (fun line => "    " +:+ line) lines
    end ++ [""] /\
  (stdin = String.concat newline (sedLines stdin) \/
   stdin = String.concat newline (sedLines stdin) +:+ newline) /\
  Forall (fun line => noLF line = true) (sedLines stdin) /\
  snd (provisioning_script true PATH_APP_HOME LIMA_HOME stdin) = stdin.
Proof.
  destruct (sedLines_spec stdin) as [Hplain Hjoin].
  split; [done |]. split; [|done].
  cbn [provisioning_script snd]. unfold override_yaml.
  rewrite !(splitLF_app "") by reflexivity. rewrite !append_empty_l.
  cbn [app]. do 3 f_equal. unfold indented.
  destruct (sedLines stdin) as [|l ls] eqn:Hl; [done |].
  rewrite <- (append_empty_r newline), (splitLF_concat _ "").
  - done.
  - done.
  - apply Forall_map. eapply Forall_impl; [exact Hplain |].
    intros line Hline. by apply noLF_app.
Qed.

End BatsFacts.

(** * The checksum of the managed [kubectl] *)

(** The rule for [bind] when the continuation may rely on what the first
    computation returned. *)
Lemma emitsOnly_bind_post {A B} (P : Event -> Prop) (Q : A -> Prop) (m : M A) (k : A -> M B) :
  emitsOnly P m ->
  (forall w a w', m w = (Ok a, w') -> Q a) ->
  (forall a, Q a -> emitsOnly P (k a)) ->
  emitsOnly P (bind m k).
Proof.
  intros Hm HQ Hk w. unfold bind. destruct (Hm w) as (l & Hl & HP).
  destruct (m w) as [[a|e] w1] eqn:Hmw; cbn [snd] in *.
  - destruct (Hk a (HQ w a w1 Hmw) w1) as (l' & Hl' & HP'). exists (l ++ l').
    rewrite Hl', Hl, app_assoc. split; [done | by apply Forall_app].
  - by exists l.
Qed.

(** X18.  The checksum expected of the managed [kubectl] is the whole body
    of its [.sha256] file, as fetched: it is neither trimmed nor cut at the
    first white space, unlike the version read from [stable.txt] and unlike
    the checksums taken from manifests. *)
Theorem kubectl_checksum_is_the_raw_sidecar (h : Host) (context : DownloadContext) (w : World) :
  Forall (rawSidecar h) (emitted (downloadKuberlrAndKubectl h context) w).
Proof.
  apply emitsOnly_forall. unfold downloadKuberlrAndKubectl.
  assert (Harchive : forall url dest options,
            rawSidecar h (EvDownload (archiveDownloader context) url dest options)).
  { intros url dest options. unfold archiveDownloader.
    by destruct (JS.startsWith (Platform_str (platform context)) "win"). }
  apply emitsOnly_bind; [|intros kuberlrPath].
  - unfold downloadKuberlr. fold (archiveDownloader context). walk; try done.
  - apply emitsOnly_bind; [apply emitsOnly_bindKubectlToKuberlr | intros _].
    + intros [] He; cbn; try done. by destruct (He via url dest options).
    + destruct (String.eqb _ _); [|auto with emits].
      apply emitsOnly_bind; [by apply emitsOnly_getResourceM | intros stable].
      eapply (emitsOnly_bind_post _ (fun body => getResource h _ = Ok body)).
      * by apply emitsOnly_getResourceM.
      * intros w0 body w0' Hrun. rewrite getResourceM_run in Hrun. by injection Hrun as -> _.
      * intros body Hbody. walk; try done. cbn. by exists body.
Qed.
